(** * Bluetti BT: the device reader, the button write path and the boolean entities

    A shallow embedding of

    - [bluetti_bt_lib/bluetooth/device_reader.py]: [DeviceReader.__init__],
      [DeviceReader.read_data], [DeviceReader._async_send_command],
      [DeviceReader._notification_handler];
    - [button.py]: [async_setup_entry], [BluettiButton.__init__],
      [BluettiButton.write_to_device],
      [BluettiButton._handle_coordinator_update];
    - [binary_sensor.py]: [async_setup_entry], [BluettiBinarySensor.__init__],
      [BluettiBinarySensor._handle_coordinator_update].

    Coroutines are run by one cooperative task, so an [async def] becomes a
    function of the system state in a state-and-exception monad.  What the
    radio link does at a suspension point is read from a script carried by
    the state, and every transport call, log line and lock operation is
    appended to a trace.

    What is taken for granted: the exception classes of [exceptions.py] and
    of bleak are unrelated to one another; [asyncio.TimeoutError] is the
    built-in [TimeoutError], as it is from Python 3.11 on; the decoder
    [BluettiDevice.parse] and [parse_response] return for every input;
    notification chunks reach the handler while the task waits on the
    notify future; the client is connected from a [connect] that returned
    to a [disconnect] that returned, the link not dropping in between;
    and, where entities are set up, [build_device], [device_info], the
    look-up of the coordinator and [async_add_entities] return. *)

From Stdlib Require Import Strings.Byte ZArith.
From stdpp Require Import gmap strings list fin_maps pretty.

Local Open Scope Z_scope.

(** ** Data *)

Definition bytes : Type := list byte.

#[global] Instance byte_eq_dec : EqDecision byte := Byte.byte_eq_dec.

(** The values a decoded field or a coordinator entry can hold. *)
Inductive value : Type :=
  | VNone
  | VBool (b : bool)
  | VInt (z : Z)
  | VStr (s : string)
  | VEnum (name : string)
  | VDecimal (unscaled : Z) (scale : nat).

(** [v is None] and [v is True]. *)
Definition is_None (v : value) : bool :=
  match v with VNone => true | _ => false end.
Definition is_True (v : value) : bool :=
  match v with VBool true => true | _ => false end.

(** [isinstance(v, bool)]. *)
Definition isinstance_bool (v : value) : bool :=
  match v with VBool _ => true | _ => false end.

(** [isinstance(v, int)]: in Python [bool] is a subclass of [int]. *)
Definition isinstance_int (v : value) : bool :=
  match v with VInt _ | VBool _ => true | _ => false end.

(** The integer an [int] instance compares as ([True == 1], [False == 0]). *)
Definition int_of (v : value) : Z :=
  match v with
  | VInt z => z
  | VBool true => 1
  | _ => 0
  end.

Inductive function_kind : Type := ReadHoldingRegisters | WriteSingleRegister.

(** A command of [utils/commands.py]: the function it asks for, the register
    it starts at and the register count (reads) or the value (writes). *)
Record Command : Type := mkCommand {
  kind : function_kind;
  starting_address : Z;
  operand : Z;
}.

#[global] Instance function_kind_eq_dec : EqDecision function_kind.
Proof. solve_decision. Defined.
#[global] Instance Command_eq_dec : EqDecision Command.
Proof. solve_decision. Defined.

(** The methods of a command that the reader calls.  [utils/commands.py] is
    not part of the sources at hand, so they are an interface here:
    [bytes(command)], [command.response_size()],
    [command.is_valid_response(buf)], [command.is_exception_response(buf)]
    and [command.parse_response(buf)]. *)
Class Codec : Type := {
  encode : Command → bytes;
  response_size : Command → nat;
  is_valid_response : Command → bytes → bool;
  is_exception_response : Command → bytes → bool;
  parse_response : Command → bytes → bytes;
}.

(** What the reader uses of a [BluettiDevice]. *)
Record Device : Type := mkDevice {
  polling_commands : list Command;
  pack_polling_commands : list Command;
  pack_num_max : nat;
  parse : Z → bytes → gmap string value;
  build_setter_command : string → value → Command;
}.

(** The exceptions the three files raise or catch.  [OtherError] stands for
    any other subclass of [Exception].  Cancellation of the task is not an
    [Exception] and is a separate outcome, see [res]. *)
Inductive exn : Type :=
  | TimeoutError
  | BleakError
  | BadConnectionError
  | ModbusError (code : byte)
  | ParseError
  | OtherError.

#[global] Instance exn_eq_dec : EqDecision exn.
Proof. solve_decision. Defined.

(** An [asyncio.Future]: pending, or done with a result, with an exception,
    or by cancellation. *)
Inductive future : Type :=
  | Pending
  | Resolved (b : bytes)
  | Failed (e : exn)
  | Cancelled.

(** [fut.done()]. *)
Definition done (f : future) : bool :=
  match f with Pending => false | _ => true end.

(** ** The trace *)

Inductive level : Type := Debug | Info | Warning | Error.

Inductive message : Type :=
  | ReadingData
  | DeviceIsNone
  | ConnectUnsuccessful (attempt : nat) (e : exn)
  | RawData
  | ParsedData
  | GotParseException
  | PollingBatteryPacks
  | PackNumMismatch (pack : nat)
  | PollingTimedOut
  | BleakErrorMsg
  | Requesting (c : Command)
  | GotBytes (n : nat)
  | SingleCommandTimedOut
  | InvalidRequest (c : Command)
  | NeededToDisconnect
  | UnexpectedNotification
  | WriteTimedOut.

Inductive op : Type :=
  | Connect
  | Disconnect
  | StartNotify
  | StopNotify
  | WriteGattChar (payload : bytes)
  | Sleep (seconds : nat)
  | WaitFor.

(** How an awaited call ended: it returned, it raised, or the timeout scope
    around it fired while it was suspended. *)
Inductive outcome : Type :=
  | Returned
  | Raised (e : exn)
  | Interrupted.

Inductive event : Type :=
  | Log (l : level) (m : message)
  | Call (o : op) (r : outcome)
  | CallbackError
  | Acquire
  | Release
  | RequestRefresh.

#[global] Instance level_eq_dec : EqDecision level.
Proof. solve_decision. Defined.
#[global] Instance message_eq_dec : EqDecision message.
Proof. solve_decision. Defined.
#[global] Instance op_eq_dec : EqDecision op.
Proof. solve_decision. Defined.
#[global] Instance outcome_eq_dec : EqDecision outcome.
Proof. solve_decision. Defined.
#[global] Instance event_eq_dec : EqDecision event.
Proof. solve_decision. Defined.

(** ** The state *)

(** The fields of a [DeviceReader]. *)
Record Reader : Type := mkReader {
  bluetti_device : option Device;
  persistent_conn : bool;
  polling_timeout : nat;
  max_retries : nat;
  has_notifier : bool;
  notify_future : option future;
  current_command : option Command;
  notify_response : bytes;
}.

(** What a transport call answers when it is awaited. *)
Inductive reply : Type :=
  | Done
  | Fails (e : exn).

(** The reader, the client it shares with the coordinator, and the radio
    link: [replies] answers the transport calls in the order they are made,
    [windows] gives, for each wait on the notify future, the notification
    chunks that arrive before the per-command timeout, and [fuse] is the
    number of suspension points the running timeout scope still lets through
    ([None]: it never fires). *)
Record Sys : Type := mkSys {
  self : Reader;
  is_connected : bool;
  replies : list reply;
  windows : list (list bytes);
  fuse : option nat;
  trace : list event;
}.

Definition set_self (f : Reader → Reader) (s : Sys) : Sys :=
  mkSys (f (self s)) (is_connected s) (replies s) (windows s) (fuse s) (trace s).
Definition set_is_connected (b : bool) (s : Sys) : Sys :=
  mkSys (self s) b (replies s) (windows s) (fuse s) (trace s).
Definition set_replies (l : list reply) (s : Sys) : Sys :=
  mkSys (self s) (is_connected s) l (windows s) (fuse s) (trace s).
Definition set_windows (l : list (list bytes)) (s : Sys) : Sys :=
  mkSys (self s) (is_connected s) (replies s) l (fuse s) (trace s).
Definition set_fuse (n : option nat) (s : Sys) : Sys :=
  mkSys (self s) (is_connected s) (replies s) (windows s) n (trace s).
Definition record (e : event) (s : Sys) : Sys :=
  mkSys (self s) (is_connected s) (replies s) (windows s) (fuse s) (trace s ++ [e]).

Definition with_has_notifier (b : bool) (r : Reader) : Reader :=
  mkReader (bluetti_device r) (persistent_conn r) (polling_timeout r) (max_retries r)
    b (notify_future r) (current_command r) (notify_response r).
Definition with_notify_future (f : option future) (r : Reader) : Reader :=
  mkReader (bluetti_device r) (persistent_conn r) (polling_timeout r) (max_retries r)
    (has_notifier r) f (current_command r) (notify_response r).
Definition with_current_command (c : option Command) (r : Reader) : Reader :=
  mkReader (bluetti_device r) (persistent_conn r) (polling_timeout r) (max_retries r)
    (has_notifier r) (notify_future r) c (notify_response r).
Definition with_notify_response (b : bytes) (r : Reader) : Reader :=
  mkReader (bluetti_device r) (persistent_conn r) (polling_timeout r) (max_retries r)
    (has_notifier r) (notify_future r) (current_command r) b.

(** A Pending Exchange exists: a future is installed and not done. *)
Definition pending (r : Reader) : bool :=
  match notify_future r with
  | Some f => negb (done f)
  | None => false
  end.

(** ** The monad of coroutines *)

Inductive res (A : Type) : Type :=
  | Ret (a : A)
  | Raise (e : exn)
  | Cancel.
Arguments Ret {A} a.
Arguments Raise {A} e.
Arguments Cancel {A}.

Definition M (A : Type) : Type := Sys → res A * Sys.

Definition ret {A} (a : A) : M A := λ s, (Ret a, s).
Definition raise {A} (e : exn) : M A := λ s, (Raise e, s).
Definition cancel {A} : M A := λ s, (Cancel, s).
Definition bind {A B} (m : M A) (k : A → M B) : M B :=
  λ s, match m s with
       | (Ret a, s') => k a s'
       | (Raise e, s') => (Raise e, s')
       | (Cancel, s') => (Cancel, s')
       end.

(** [x ← m; k] and [m;; k] are stdpp's notations for [bind]. *)
#[global] Instance M_bind : MBind M := λ A B k m, bind m k.

Definition get : M Sys := λ s, (Ret s, s).
Definition modify (f : Sys → Sys) : M unit := λ s, (Ret tt, f s).
Definition emit (e : event) : M unit := modify (record e).
Definition log (l : level) (m : message) : M unit := emit (Log l m).

(** [try: m  except <the classes h answers>: h e]: an exception [h] has no
    clause for, and a cancellation, pass through. *)
Definition try_except {A} (m : M A) (h : exn → option (M A)) : M A :=
  λ s, match m s with
       | (Raise e, s') =>
           match h e with
           | Some k => k s'
           | None => (Raise e, s')
           end
       | other => other
       end.

(** [try: m  finally: f]: [f] runs on every way out of [m]; when [f] itself
    raises, that replaces the outcome of [m]. *)
Definition try_finally {A} (m : M A) (f : M unit) : M A :=
  λ s, match m s with
       | (r, s') =>
           match f s' with
           | (Ret _, s'') => (r, s'')
           | (Raise e, s'') => (Raise e, s'')
           | (Cancel, s'') => (Cancel, s'')
           end
       end.

(** [async with async_timeout.timeout(t): m]: when the scope fires, the task
    is cancelled at the suspension point it is at, and the cancellation is
    turned into [TimeoutError] where the scope is left. *)
Definition with_timeout {A} (m : M A) : M A :=
  λ s, match m s with
       | (Cancel, s') => (Raise TimeoutError, s')
       | other => other
       end.

(** [async with lock: m]. *)
Definition with_lock {A} (m : M A) : M A :=
  λ s, match m (record Acquire s) with
       | (r, s') => (r, record Release s')
       end.

(** A suspension point inside the timeout scope: [true] when the scope fires
    there. *)
Definition tick : M bool :=
  λ s, match fuse s with
       | Some O => (Ret true, s)
       | Some (S n) => (Ret false, set_fuse (Some n) s)
       | None => (Ret false, s)
       end.

Definition next_reply : M reply :=
  λ s, match replies s with
       | [] => (Ret Done, s)
       | r :: rest => (Ret r, set_replies rest s)
       end.

Definition next_window : M (list bytes) :=
  λ s, match windows s with
       | [] => (Ret [], s)
       | w :: rest => (Ret w, set_windows rest s)
       end.

(** Awaiting a transport call, outside ([scoped = false]) or inside a
    timeout scope. *)
Definition call (scoped : bool) (o : op) : M unit :=
  fired ← (if scoped then tick else ret false);
  if fired : bool then emit (Call o Interrupted);; cancel
  else
    r ← next_reply;
    match r with
    | Done => emit (Call o Returned)
    | Fails e => emit (Call o (Raised e));; raise e
    end.

(** [await asyncio.sleep(n)] inside a timeout scope. *)
Definition sleep (n : nat) : M unit :=
  fired ← tick;
  if fired : bool then emit (Call (Sleep n) Interrupted);; cancel
  else emit (Call (Sleep n) Returned).

Definition connect (scoped : bool) : M unit :=
  call scoped Connect;; modify (set_is_connected true).
Definition disconnect : M unit :=
  call false Disconnect;; modify (set_is_connected false).

(** ** [DeviceReader._notification_handler] *)

(** [b"AT+NAME?\r"] and [b"AT+ADV?\r"]. *)
Definition AT_NAME : bytes := String.list_byte_of_string "AT+NAME?" ++ [x0d].
Definition AT_ADV : bytes := String.list_byte_of_string "AT+ADV?" ++ [x0d].

Section reader.
Context `{!Codec}.

(** The callback the client runs on every notification chunk.  It is not a
    coroutine: it runs to its end between two suspension points of the task,
    touches nothing but the reader's own fields, and an exception it raises
    ([current_command] unset, or a buffer that looks like an exception frame
    but has no third byte) ends the callback only.  It returns the reader
    it leaves and what it logged. *)
Definition _notification_handler (data : bytes) (r : Reader) : Reader * list event :=
  match notify_future r with
  | None => (r, [Log Warning UnexpectedNotification])
  | Some fut =>
      if done fut then (r, [Log Warning UnexpectedNotification])
      else if bool_decide (data = AT_NAME) || bool_decide (data = AT_ADV)
      then (with_notify_future (Some (Failed BadConnectionError)) r, [])
      else
        let buf := notify_response r ++ data in
        let r1 := with_notify_response buf r in
        match current_command r with
        | None => (r1, [CallbackError])
        | Some command =>
            if bool_decide (length buf = response_size command) then
              if is_valid_response command buf
              then (with_notify_future (Some (Resolved buf)) r1, [])
              else (with_notify_future (Some (Failed ParseError)) r1, [])
            else if is_exception_response command buf then
              match buf !! 2%nat with
              | Some code => (with_notify_future (Some (Failed (ModbusError code))) r1, [])
              | None => (r1, [CallbackError])
              end
            else (r1, [])
        end
  end.

(** The chunks of one window, handled in the order they arrive. *)
Fixpoint deliver (frames : list bytes) (r : Reader) : Reader * list event :=
  match frames with
  | [] => (r, [])
  | data :: rest =>
      let (r1, logged1) := _notification_handler data r in
      let (r2, logged2) := deliver rest r1 in
      (r2, logged1 ++ logged2)
  end.

Definition notified (frames : list bytes) (s : Sys) : Sys :=
  let (r, logged) := deliver frames (self s) in
  mkSys r (is_connected s) (replies s) (windows s) (fuse s) (trace s ++ logged).

(** [fut.cancel()]: no effect on a future that is done. *)
Definition cancel_future (r : Reader) : Reader :=
  match notify_future r with
  | Some Pending => with_notify_future (Some Cancelled) r
  | _ => r
  end.

(** [await asyncio.wait_for(self.notify_future, timeout=RESPONSE_TIMEOUT)]:
    the chunks of the window are handled while the task is suspended; a
    future still pending at the end of the window is cancelled and
    [TimeoutError] is raised. *)
Definition wait_for_notify_future : M bytes :=
  fired ← tick;
  if fired : bool
  then modify (set_self cancel_future);; emit (Call WaitFor Interrupted);; cancel
  else
    frames ← next_window;
    modify (notified frames);;
    s ← get;
    match notify_future (self s) with
    | Some (Resolved b) => emit (Call WaitFor Returned);; ret b
    | Some (Failed e) => emit (Call WaitFor (Raised e));; raise e
    | Some Pending =>
        modify (set_self cancel_future);;
        emit (Call WaitFor (Raised TimeoutError));; raise TimeoutError
    | Some Cancelled => emit (Call WaitFor Interrupted);; cancel
    | None => emit (Call WaitFor (Raised OtherError));; raise OtherError
    end.

(** ** [DeviceReader._async_send_command] *)

Definition _async_send_command (command : Command) : M bytes :=
  try_except
    (modify (set_self (with_current_command (Some command)));;
     modify (set_self (with_notify_future (Some Pending)));;
     modify (set_self (with_notify_response []));;
     log Debug (Requesting command);;
     call true (WriteGattChar (encode command));;
     res ← wait_for_notify_future;
     log Debug (GotBytes (length res));;
     ret res)
    (λ e, match e with
          | TimeoutError => Some (log Warning SingleCommandTimedOut;; ret [])
          | ModbusError _ => Some (log Warning (InvalidRequest command);; ret [])
          | BadConnectionError | BleakError =>
              Some (log Warning NeededToDisconnect;; ret [])
          | _ => None
          end).

(** ** [DeviceReader.read_data] *)

(** [for attempt in range(1, self.max_retries + 1)], from the attempts still
    to make. *)
Fixpoint connect_attempts (max_retries : nat) (attempts : list nat) : M unit :=
  match attempts with
  | [] => ret tt
  | attempt :: rest =>
      try_except
        (s ← get; if is_connected s then ret tt else connect true)
        (λ e, Some
           (if bool_decide (attempt = max_retries) || bool_decide (attempt = 1%nat)
            then raise e
            else log Warning (ConnectUnsuccessful attempt e);;
                 sleep 2;;
                 connect_attempts max_retries rest))
  end.

Definition attach_notifier : M unit :=
  s ← get;
  if has_notifier (self s) then ret tt
  else call true StartNotify;; modify (set_self (with_has_notifier true)).

(** [for command in polling_commands], with [parsed_data] threaded through. *)
Fixpoint poll_commands (dev : Device) (commands : list Command)
    (parsed_data : gmap string value) : M (gmap string value) :=
  match commands with
  | [] => ret parsed_data
  | command :: rest =>
      parsed_data' ←
        try_except
          (res ← _async_send_command command;
           let body := parse_response command res in
           log Debug RawData;;
           let parsed := parse dev (starting_address command) body in
           log Debug ParsedData;;
           ret (parsed ∪ parsed_data))
          (λ e, match e with
                | ParseError => Some (log Warning GotParseException;; ret parsed_data)
                | _ => None
                end);
      poll_commands dev rest parsed_data'
  end.

(** [d.get(key)]. *)
Definition dict_get (d : gmap string value) (key : string) : value :=
  default VNone (d !! key).

(** [for key, value in parsed.items():
       parsed_data.update({key + str(pack): value})]. *)
Definition merge_pack (pack : nat) (parsed parsed_data : gmap string value)
    : gmap string value :=
  foldl (λ acc kv, <[kv.1 +:+ pretty pack := kv.2]> acc) parsed_data (map_to_list parsed).

(** [for command in pack_commands], for the pack selected. *)
Fixpoint poll_pack_commands (dev : Device) (pack : nat) (commands : list Command)
    (parsed_data : gmap string value) : M (gmap string value) :=
  match commands with
  | [] => ret parsed_data
  | command :: rest =>
      parsed_data' ←
        try_except
          (res ← _async_send_command command;
           let body := parse_response command res in
           let parsed := parse dev (starting_address command) body in
           log Debug ParsedData;;
           let pack_number := dict_get parsed "pack_num" in
           if negb (isinstance_int pack_number)
              || negb (bool_decide (int_of pack_number = Z.of_nat pack))
           then log Debug (PackNumMismatch pack);; ret parsed_data
           else ret (merge_pack pack parsed parsed_data))
          (λ e, match e with
                | ParseError => Some (log Warning GotParseException;; ret parsed_data)
                | _ => None
                end);
      poll_pack_commands dev pack rest parsed_data'
  end.

(** [for pack in range(1, self.bluetti_device.pack_num_max + 1)], from the
    packs still to poll. *)
Fixpoint poll_packs (dev : Device) (pack_commands : list Command) (packs : list nat)
    (parsed_data : gmap string value) : M (gmap string value) :=
  match packs with
  | [] => ret parsed_data
  | pack :: rest =>
      _async_send_command
        (build_setter_command dev "pack_num" (VInt (Z.of_nat pack)));;
      sleep 5;;
      parsed_data' ← poll_pack_commands dev pack pack_commands parsed_data;
      poll_packs dev pack_commands rest parsed_data'
  end.

(** The [finally] clause of [read_data]. *)
Definition teardown : M unit :=
  s ← get;
  if persistent_conn (self s) then ret tt
  else
    (if has_notifier (self s)
     then call false StopNotify;; modify (set_self (with_has_notifier false))
     else ret tt);;
    disconnect.

(** "Reconnect if not connected". *)
Definition reconnect : M unit :=
  s ← get;
  connect_attempts (max_retries (self s)) (seq 1 (max_retries (self s))).

(** "Execute pack polling commands". *)
Definition poll_battery_packs (dev : Device) (pack_commands : list Command)
    (parsed_data : gmap string value) : M (gmap string value) :=
  if bool_decide (0 < length pack_commands)%nat
  then log Debug PollingBatteryPacks;;
       poll_packs dev pack_commands (seq 1 (pack_num_max dev)) parsed_data
  else ret parsed_data.

(** What runs inside [async with async_timeout.timeout(...)]. *)
Definition poll_body (dev : Device) (polling pack_commands : list Command)
    : M (gmap string value) :=
  reconnect;;
  attach_notifier;;
  parsed_data ← poll_commands dev polling ∅;
  poll_battery_packs dev pack_commands parsed_data.

Definition read_data (filter_registers : option (list Command))
    : M (option (gmap string value)) :=
  log Info ReadingData;;
  s ← get;
  match bluetti_device (self s) with
  | None => log Error DeviceIsNone;; ret None
  | Some dev =>
      let polling := from_option id (polling_commands dev) filter_registers in
      let pack_commands :=
        match filter_registers with
        | Some _ => []
        | None => pack_polling_commands dev
        end in
      with_lock
        (try_finally
           (try_except
              (parsed_data ← with_timeout (poll_body dev polling pack_commands);
               ret (Some parsed_data))
              (λ e, match e with
                    | TimeoutError => Some (log Error PollingTimedOut;; ret None)
                    | BleakError => Some (log Error BleakErrorMsg;; ret None)
                    | _ => None
                    end))
           teardown)
  end.

End reader.

(** ** The entities of [button.py] and [binary_sensor.py] *)

(** The attributes of a coordinator entity that the update handler reads or
    writes; [written_states] counts the calls of [async_write_ha_state]. *)
Record Entity : Type := mkEntity {
  _response_key : string;
  _attr_available : bool;
  _attr_is_on : option bool;
  written_states : nat;
}.

(** What an entity sees of its coordinator: the reader and client it owns
    (the persistent-connection flag of the coordinator is the one it built
    its reader with) and the result of the last poll, [None] or a dict. *)
Record Coordinator : Type := mkCoordinator {
  system : Sys;
  data : option (gmap string value);
}.

Definition with_available (b : bool) (e : Entity) : Entity :=
  mkEntity (_response_key e) b (_attr_is_on e) (written_states e).

Definition with_state (on : bool) (e : Entity) : Entity :=
  mkEntity (_response_key e) true (Some on) (S (written_states e)).

Module BluettiBinarySensor.

(** [BluettiBinarySensor._handle_coordinator_update]; the logger calls, which
    change nothing of the entity, are left out. *)
Definition _handle_coordinator_update (c : Coordinator) (e : Entity) : Entity :=
  if persistent_conn (self (system c)) && negb (is_connected (system c)) then e
  else
    match data c with
    | None => with_available false e
    | Some d =>
        let response_data := dict_get d (_response_key e) in
        if is_None response_data then with_available false e
        else if negb (isinstance_bool response_data) then with_available false e
        else with_state (is_True (dict_get d (_response_key e))) e
    end.

End BluettiBinarySensor.

Module BluettiButton.

Record Button : Type := mkButton {
  entity : Entity;
  _bluetti_device : Device;
}.

(** [BluettiButton._handle_coordinator_update]. *)
Definition _handle_coordinator_update (c : Coordinator) (e : Entity) : Entity :=
  if persistent_conn (self (system c)) && negb (is_connected (system c)) then e
  else
    match data c with
    | None => with_available false e
    | Some d =>
        let response_data := dict_get d (_response_key e) in
        if is_None response_data then with_available false e
        else if negb (isinstance_bool response_data) then with_available false e
        else with_state (is_True (dict_get d (_response_key e))) e
    end.

Section write.
Context `{!Codec}.

(** What [write_to_device] runs inside [async with async_timeout.timeout(15)]. *)
Definition write_body (command : Command) : M unit :=
  s ← get;
  (if is_connected s then ret tt else connect true);;
  log Debug (Requesting command);;
  call true (WriteGattChar (encode command));;
  sleep 5.

(** The [finally] clause of [write_to_device]. *)
Definition write_teardown : M unit :=
  s ← get; if persistent_conn (self s) then ret tt else disconnect.

(** [BluettiButton.write_to_device].  The lock and the client are the
    coordinator's, shared with the reader.  [return None] in an [except]
    clause leaves the function once the [finally] clause and the lock are
    done with, skipping the refresh request. *)
Definition write_to_device (b : Button) (state : bool) : M unit :=
  let command :=
    build_setter_command (_bluetti_device b) (_response_key (entity b)) (VBool state) in
  completed ←
    with_lock
      (try_finally
         (try_except
            (with_timeout (write_body command);; ret true)
            (λ e, match e with
                  | TimeoutError => Some (log Error WriteTimedOut;; ret false)
                  | BleakError => Some (log Error BleakErrorMsg;; ret false)
                  | _ => None
                  end))
         write_teardown);
  if completed : bool then emit RequestRefresh else ret tt.

(** [BluettiButton.async_press]. *)
Definition async_press (b : Button) : M unit := write_to_device b true.

End write.

End BluettiButton.

(** ** A codec and a device to run the model on *)

Module Sample.

(** CRC-16/MODBUS over a byte string, bit by bit. *)
Definition crc_shift (crc : Z) : Z :=
  if Z.testbit crc 0
  then Z.lxor (Z.shiftr crc 1) 0xA001
  else Z.shiftr crc 1.

Definition crc_byte (crc : Z) (b : byte) : Z :=
  Nat.iter 8 crc_shift (Z.lxor crc (Z.of_N (Byte.to_N b))).

Definition modbus_crc (buf : bytes) : Z := foldl crc_byte 0xFFFF buf.

Definition byte_of_Z (z : Z) : byte :=
  default x00 (Byte.of_N (Z.to_N (Z.land z 0xFF))).

(** The two checksum bytes, low byte first. *)
Definition crc_bytes (buf : bytes) : bytes :=
  let crc := modbus_crc buf in [byte_of_Z crc; byte_of_Z (Z.shiftr crc 8)].

(** A buffer closed by its checksum. *)
Definition framed (payload : bytes) : bytes := payload ++ crc_bytes payload.

Definition function_code (k : function_kind) : Z :=
  match k with ReadHoldingRegisters => 3 | WriteSingleRegister => 6 end.

(** Modelled from the spec: the command codec of [utils/commands.py], which
    is not among the sources.  Section 6 gives the frame: device address,
    function code, two bytes of register address, two bytes of count or
    value, two bytes of checksum; a response mirrors the function code and
    ends in the checksum; an exception response carries the function code
    with its high bit set.  The spec leaves the checksum function and the
    length of a read response open; this instance takes CRC-16/MODBUS and a
    three-byte header.  The theorems below hold for every codec, this one
    runs their examples. *)
#[local] Instance modbus : Codec := {|
  encode c :=
    framed [x01; byte_of_Z (function_code (kind c));
            byte_of_Z (Z.shiftr (starting_address c) 8); byte_of_Z (starting_address c);
            byte_of_Z (Z.shiftr (operand c) 8); byte_of_Z (operand c)];
  response_size c :=
    match kind c with
    | ReadHoldingRegisters => (2 * Z.to_nat (operand c) + 5)%nat
    | WriteSingleRegister => 8%nat
    end;
  is_valid_response _ buf :=
    bool_decide (3 ≤ length buf)%nat
    && bool_decide (drop (length buf - 2) buf = crc_bytes (take (length buf - 2) buf));
  is_exception_response c buf :=
    match buf !! 1%nat with
    | Some b => bool_decide (Z.of_N (Byte.to_N b) = function_code (kind c) + 0x80)
    | None => false
    end;
  parse_response _ buf := take (length buf - 5) (drop 3 buf);
|}.

(** A decoder over a small register table: one unsigned register per key. *)
Definition registers : list (Z * string) :=
  [(43, "total_battery_percent"); (91, "pack_voltage"); (96, "pack_num")]%string.

Fixpoint words (body : bytes) : list Z :=
  match body with
  | hi :: lo :: rest =>
      (Z.of_N (Byte.to_N hi) * 256 + Z.of_N (Byte.to_N lo)) :: words rest
  | _ => []
  end.

Definition sample_parse (address : Z) (body : bytes) : gmap string value :=
  let ws := words body in
  list_to_map
    (omap (λ '(a, key),
             if bool_decide (address ≤ a)
             then (λ w, (key, VInt w)) <$> ws !! Z.to_nat (a - address)
             else None)
          registers).

Definition sample_setter (key : string) (v : value) : Command :=
  mkCommand WriteSingleRegister
    (if bool_decide (key = "pack_num"%string) then 3006 else 3007) (int_of v).

Definition read_battery : Command := mkCommand ReadHoldingRegisters 43 1.
Definition read_pack : Command := mkCommand ReadHoldingRegisters 91 6.

Definition device : Device :=
  mkDevice [read_battery] [read_pack] 2 sample_parse sample_setter.

Definition reader (dev : option Device) (persistent : bool) : Reader :=
  mkReader dev persistent 45 5 false None None [].

(** A system at rest: nothing connected, nothing subscribed, a link that
    answers every call and never notifies, and no timeout. *)
Definition idle (dev : option Device) (persistent : bool) : Sys :=
  mkSys (reader dev persistent) false [] [] None [].

Definition answers (rs : list reply) (ws : list (list bytes)) (s : Sys) : Sys :=
  set_windows ws (set_replies rs s).

End Sample.


(** ** Vocabulary of the statements *)

Section vocabulary.
Context `{!Codec}.

(** A chunk that is not one of the two AT echoes. *)
Definition is_payload (data : bytes) : bool :=
  negb (bool_decide (data = AT_NAME) || bool_decide (data = AT_ADV)).

(** A buffer the handler keeps waiting on: not of the expected length and not
    of the shape of an exception response. *)
Definition incomplete (c : Command) (buf : bytes) : bool :=
  negb (bool_decide (length buf = response_size c))
  && negb (is_exception_response c buf).

(** The successive contents of the buffer while [frames] are appended. *)
Fixpoint accumulate (buf : bytes) (frames : list bytes) : list bytes :=
  match frames with
  | [] => []
  | data :: rest => (buf ++ data) :: accumulate (buf ++ data) rest
  end.

(** The reader as the first three assignments of [_async_send_command]
    leave it: the exchange for [c] installed, its buffer empty. *)
Definition awaiting (c : Command) (r : Reader) : Reader :=
  with_notify_response []
    (with_notify_future (Some Pending) (with_current_command (Some c) r)).

(** The reader with no trace of an earlier exchange. *)
Definition forget (r : Reader) : Reader :=
  with_notify_response [] (with_notify_future None (with_current_command None r)).

(** The timeout scope lets at least [k] more suspension points through. *)
Definition fuse_allows (k : nat) (s : Sys) : bool :=
  match fuse s with
  | None => true
  | Some n => bool_decide (k ≤ n)%nat
  end.

(** The check of [read_data] on the [pack_num] a pack command decoded:
    the fields are merged when it is an [int] equal to the pack polled. *)
Definition pack_number_accepted (parsed : gmap string value) (pack : nat) : bool :=
  isinstance_int (dict_get parsed "pack_num")
  && bool_decide (int_of (dict_get parsed "pack_num") = Z.of_nat pack).

(** The timeout scope fires at the next suspension point. *)
Definition fired (s : Sys) : bool :=
  match fuse s with Some O => true | _ => false end.

(** The state past a suspension point at which the scope did not fire, past
    a transport call, and past a wait. *)
Definition spend (s : Sys) : Sys :=
  match fuse s with Some (S n) => set_fuse (Some n) s | _ => s end.
Definition answered (s : Sys) : Sys :=
  match replies s with [] => s | _ :: rest => set_replies rest s end.
Definition windowed (s : Sys) : Sys :=
  match windows s with [] => s | _ :: rest => set_windows rest s end.

(** The [except] clauses of [_async_send_command], applied to what its
    [try] block raised. *)
Definition on_send_error (c : Command) (e : exn) (s : Sys) : res bytes * Sys :=
  match e with
  | TimeoutError => (Ret [], record (Log Warning SingleCommandTimedOut) s)
  | ModbusError _ => (Ret [], record (Log Warning (InvalidRequest c)) s)
  | BadConnectionError | BleakError =>
      (Ret [], record (Log Warning NeededToDisconnect) s)
  | _ => (Raise e, s)
  end.

(** The fields of the reader that an exchange never assigns. *)
Definition settings (r : Reader) : option Device * bool * nat * nat * bool :=
  (bluetti_device r, persistent_conn r, polling_timeout r, max_retries r, has_notifier r).

(** The events of the polling loops: log lines, callback failures, and the
    three calls of an exchange and its delays. *)
Definition loop_event (ev : event) : bool :=
  match ev with
  | Log _ _ | CallbackError => true
  | Call (WriteGattChar _) _ | Call (Sleep _) _ | Call WaitFor _ => true
  | _ => false
  end.

(** The timeout scope fired during this call. *)
Definition interrupted (ev : event) : bool :=
  match ev with Call _ Interrupted => true | _ => false end.

Definition is_cancel {A} (r : res A) : bool :=
  match r with Cancel => true | _ => false end.

Definition is_ret {A} (r : res A) : bool :=
  match r with Ret _ => true | _ => false end.

(** [m] only exchanges: it adds loop events to the trace, it is cancelled
    exactly when one of them is an interrupted call, and it leaves the
    settings of the reader and the state of the connection alone. *)
Definition exchanges_only {A} (m : M A) : Prop :=
  ∀ s, ∃ evs,
    trace (m s).2 = trace s ++ evs
    ∧ forallb loop_event evs = true
    ∧ existsb interrupted evs = is_cancel (m s).1
    ∧ settings (self (m s).2) = settings (self s)
    ∧ is_connected (m s).2 = is_connected s.

(** The events that end a poll with [None]: the timeout scope firing during
    a call, and [connect] or [start_notify] raising [TimeoutError] or
    [BleakError]. *)
Definition fatal (ev : event) : bool :=
  match ev with
  | Call _ Interrupted => true
  | Call Connect (Raised (TimeoutError | BleakError)) => true
  | Call StartNotify (Raised (TimeoutError | BleakError)) => true
  | _ => false
  end.

(** The exceptions an exchange lets through. *)
Definition benign (e : exn) : Prop := e = ParseError ∨ e = OtherError.

Definition raises_benign {A} (m : M A) : Prop :=
  ∀ s e, (m s).1 = Raise e → benign e.

(** The calls of the two [finally] clauses. *)
Definition teardown_call (ev : event) : bool :=
  match ev with
  | Call StopNotify _ | Call Disconnect _ => true
  | _ => false
  end.

(** The notifier was subscribed by this call. *)
Definition subscribes (ev : event) : bool :=
  match ev with Call StartNotify Returned => true | _ => false end.

(** How the block under the timeout scope ended, read off its events: it
    ran to its end only without a fatal event, and it was cancelled, or
    raised [TimeoutError] or [BleakError], only with one. *)
Definition verdict {A} (r : res A) (evs : list event) : Prop :=
  match r with
  | Ret _ => existsb fatal evs = false
  | Cancel | Raise TimeoutError | Raise BleakError => existsb fatal evs = true
  | Raise _ => True
  end.

(** A phase of the block under the timeout scope: it makes none of the
    teardown calls, leaves the persistent-connection flag alone, has the
    notifier subscribed afterwards exactly when it was before or the phase
    subscribed it, and ends as its events say. *)
Definition phase {A} (m : M A) : Prop :=
  ∀ s, ∃ evs,
    trace (m s).2 = trace s ++ evs
    ∧ existsb teardown_call evs = false
    ∧ persistent_conn (self (m s).2) = persistent_conn (self s)
    ∧ has_notifier (self (m s).2) = has_notifier (self s) || existsb subscribes evs
    ∧ verdict (m s).1 evs.

(** The calls of a teardown, given the persistent-connection flag and
    whether the notifier is subscribed: none on a persistent connection;
    otherwise [disconnect], after a [stop_notify] that returned when the
    notifier was subscribed.  What follows a [stop_notify] that raised is
    left open. *)
Inductive torn_down (persistent subscribed : bool) : list event → Prop :=
  | torn_down_persistent :
      persistent = true → torn_down persistent subscribed []
  | torn_down_disconnect (o : outcome) :
      persistent = false → subscribed = false →
      torn_down persistent subscribed [Call Disconnect o]
  | torn_down_unsubscribe (o : outcome) :
      persistent = false → subscribed = true →
      torn_down persistent subscribed [Call StopNotify Returned; Call Disconnect o]
  | torn_down_unsubscribe_failed (e : exn) (rest : list event) :
      persistent = false → subscribed = true →
      torn_down persistent subscribed (Call StopNotify (Raised e) :: rest).

(** The [except] clauses of [write_to_device], applied to the outcome of the
    block under the timeout scope: [true] when the function goes on past the
    lock, [false] when it returns from an [except] clause. *)
Definition on_write_outcome (r : res unit) (s : Sys) : res bool * Sys :=
  match r with
  | Ret _ => (Ret true, s)
  | Cancel | Raise TimeoutError => (Ret false, record (Log Error WriteTimedOut) s)
  | Raise BleakError => (Ret false, record (Log Error BleakErrorMsg) s)
  | Raise e => (Raise e, s)
  end.

(** The events of that block. *)
Definition write_event (ev : event) : bool :=
  match ev with
  | Log _ _ | Call Connect _ | Call (WriteGattChar _) _ | Call (Sleep _) _ => true
  | _ => false
  end.

(** [m] takes no part in an exchange: its events are those of a write, and
    it leaves the reader and the windows of the link as they were. *)
Definition writes_only {A} (m : M A) : Prop :=
  ∀ s, ∃ evs,
    trace (m s).2 = trace s ++ evs
    ∧ forallb write_event evs = true
    ∧ self (m s).2 = self s
    ∧ windows (m s).2 = windows s.

(** An outcome the polling loop survives: an answer, or a failed checksum. *)
Definition tolerated (r : res bytes) : Prop :=
  match r with
  | Ret _ | Raise ParseError => True
  | _ => False
  end.

(** The [except] clauses of [read_data], applied to the outcome of the
    block under the timeout scope: what the function is about to return. *)
Definition on_poll_outcome (r : res (gmap string value)) (s : Sys)
    : res (option (gmap string value)) * Sys :=
  match r with
  | Ret parsed_data => (Ret (Some parsed_data), s)
  | Cancel | Raise TimeoutError => (Ret None, record (Log Error PollingTimedOut) s)
  | Raise BleakError => (Ret None, record (Log Error BleakErrorMsg) s)
  | Raise e => (Raise e, s)
  end.

(** The outcome of a [try] block once its [finally] clause has run. *)
Definition after_finally {A} (r : res A) (cleanup : res unit) : res A :=
  match cleanup with
  | Ret _ => r
  | Raise e => Raise e
  | Cancel => Cancel
  end.

(** The log lines of the polling loop once a command has its outcome. *)
Definition settled (r : res bytes) (s : Sys) : Sys :=
  match r with
  | Ret _ => record (Log Debug ParsedData) (record (Log Debug RawData) s)
  | Raise ParseError => record (Log Warning GotParseException) s
  | _ => s
  end.

(** Polling [commands] from [s], the exchanges end as [outcomes] say, one
    after the other, and leave the system in [s']. *)
Inductive exchanged : list Command → Sys → list (res bytes) → Sys → Prop :=
  | exchanged_nil (s : Sys) : exchanged [] s [] s
  | exchanged_cons (c : Command) (commands : list Command) (s s1 s2 : Sys)
      (r : res bytes) (outcomes : list (res bytes)) :
      _async_send_command c s = (r, s1) →
      exchanged commands (settled r s1) outcomes s2 →
      exchanged (c :: commands) s (r :: outcomes) s2.

(** The map the polling loop builds from the answers it got: each decoded
    answer is merged over what was there; an exchange that raised merges
    nothing. *)
Fixpoint merged (dev : Device) (commands : list Command) (outcomes : list (res bytes))
    (parsed_data : gmap string value) : gmap string value :=
  match commands, outcomes with
  | c :: commands, Ret res :: outcomes =>
      merged dev commands outcomes
        (parse dev (starting_address c) (parse_response c res) ∪ parsed_data)
  | _ :: commands, _ :: outcomes => merged dev commands outcomes parsed_data
  | _, _ => parsed_data
  end.

End vocabulary.

(** The answer to reading register 43 (one register, value 50). *)
Definition battery_response : bytes :=
  Eval vm_compute in Sample.framed [x01; x03; x02; x00; x32].

(** The answer of pack [n] to reading registers 91 to 96: a voltage of 5300
    in the first register and the pack number in the last. *)
Definition pack_response (n : byte) : bytes :=
  Sample.framed
    [x01; x03; x0c; x14; xb4; x00; x00; x00; x00; x00; x00; x00; x00; x00; n].

(** The same answer with its last checksum byte damaged. *)
Definition corrupted (response : bytes) : bytes :=
  take (length response - 1) response ++ [xff].

(** A button of the sample device. *)
Definition ac_button : BluettiButton.Button :=
  BluettiButton.mkButton (mkEntity "ac_output_on" false None 0) Sample.device.

(** A poll without commands, on a connection that is not persistent, whose
    [stop_notify] raises [BleakError]. *)
Definition failed_unsubscribe : res (option (gmap string value)) * Sys :=
  read_data (H := Sample.modbus) (Some [])
    (Sample.answers [Done; Done; Fails BleakError] []
       (Sample.idle (Some Sample.device) false)).

(** A reader whose last write failed: the write raised [BleakError], which
    [_async_send_command] logs, leaving the future it had installed
    pending. *)
Definition after_failed_write : Sys :=
  (_async_send_command (H := Sample.modbus) Sample.read_battery
     (Sample.answers [Fails BleakError] [] (Sample.idle (Some Sample.device) false))).2.

(** ** [DeviceReader.__init__] and the ways an exchange ends *)

Module DeviceReader.

(** [DeviceReader.__init__]: the fields a new reader starts with.  The client
    and the future builder are the link and the futures of [Sys]; the lock is
    the one [with_lock] takes. *)
Definition __init__ (bluetti_device : option Device) (persistent_conn : bool)
    (polling_timeout max_retries : nat) : Reader :=
  mkReader bluetti_device persistent_conn polling_timeout max_retries false None None [].

End DeviceReader.

Section exchange_vocabulary.
Context `{!Codec}.

(** The exceptions [_async_send_command] has an [except] clause for. *)
Definition caught_by_send (e : exn) : bool :=
  match e with
  | TimeoutError | BleakError | BadConnectionError | ModbusError _ => true
  | _ => false
  end.

(** The warning each of those clauses logs. *)
Definition send_warning (c : Command) (e : exn) : message :=
  match e with
  | TimeoutError => SingleCommandTimedOut
  | ModbusError _ => InvalidRequest c
  | _ => NeededToDisconnect
  end.

(** The system when the wait of an exchange for [c] is over, the write
    having returned: the exchange installed, the request logged and written,
    and the chunks of the window handled. *)
Definition heard (c : Command) (s : Sys) : Sys :=
  notified (hd [] (windows s))
    (windowed (spend
       (record (Call (WriteGattChar (encode c)) Returned)
          (answered (spend
             (record (Log Debug (Requesting c)) (set_self (awaiting c) s))))))).

(** The wait on the notify future was reached. *)
Definition waited (ev : event) : bool :=
  match ev with Call WaitFor _ => true | _ => false end.

End exchange_vocabulary.

(** ** What a poll asks of the device *)

Section request_vocabulary.
Context `{!Codec}.

(** The requests a run puts to the device, in the order it makes them: the
    payloads it writes and the delays it takes. *)
Definition requests (evs : list event) : list op :=
  omap (λ ev, match ev with
              | Call (WriteGattChar payload) _ => Some (WriteGattChar payload)
              | Call (Sleep n) _ => Some (Sleep n)
              | _ => None
              end) evs.

Definition request (c : Command) : op := WriteGattChar (encode c).

(** The requests of one pass of the pack loop: the pack is selected, the
    task sleeps 5 seconds, and each pack command is written. *)
Definition pack_plan (dev : Device) (pack_commands : list Command) (pack : nat)
    : list op :=
  request (build_setter_command dev "pack_num" (VInt (Z.of_nat pack)))
  :: Sleep 5 :: (request <$> pack_commands).

(** The requests of a whole poll. *)
Definition plan (dev : Device) (polling pack_commands : list Command) : list op :=
  (request <$> polling)
  ++ (if bool_decide (0 < length pack_commands)%nat
      then flat_map (pack_plan dev pack_commands) (seq 1 (pack_num_max dev))
      else []).

(** [m] makes the requests [p], whatever way it ends. *)
Definition always_requests {A} (m : M A) (p : list op) : Prop :=
  ∀ s, ∃ evs, trace (m s).2 = trace s ++ evs ∧ requests evs = p.

(** [m] makes the requests of [p] in order, and all of them when it runs to
    its end. *)
Definition follows {A} (m : M A) (p : list op) : Prop :=
  ∀ s, ∃ evs,
    trace (m s).2 = trace s ++ evs
    ∧ requests evs `prefix_of` p
    ∧ (is_ret (m s).1 = true → requests evs = p).

End request_vocabulary.

(** ** The shape of a poll *)

Section shape_vocabulary.
Context `{!Codec}.

(** [read_data] calls [connect]: the loop has an attempt to make and the
    client is not connected. *)
Definition needs_connect (s : Sys) : bool :=
  negb (bool_decide (max_retries (self s) = 0%nat) || is_connected s).

(** A call that did not return. *)
Definition call_failed (ev : event) : bool :=
  match ev with
  | Call _ (Raised _) | Call _ Interrupted => true
  | _ => false
  end.

(** The calls that open a poll, given whether [connect] and [start_notify]
    are due: each is made once at most, [connect] first, and [start_notify]
    only once [connect] has returned. *)
Inductive opened (connect subscribe : bool) : list event → Prop :=
  | opened_nothing :
      connect = false → subscribe = false → opened connect subscribe []
  | opened_connect (o : outcome) :
      connect = true → (o = Returned → subscribe = false) →
      opened connect subscribe [Call Connect o]
  | opened_subscribe (o : outcome) :
      connect = false → subscribe = true →
      opened connect subscribe [Call StartNotify o]
  | opened_both (o : outcome) :
      connect = true → subscribe = true →
      opened connect subscribe [Call Connect Returned; Call StartNotify o].

(** What closes a poll: the error line of an [except] clause and the calls
    of the [finally] clause. *)
Definition closing_event (ev : event) : bool :=
  match ev with
  | Log Error _ => true
  | _ => teardown_call ev
  end.

(** The events a run added to the trace. *)
Definition added {A} (s : Sys) (run : res A * Sys) : list event :=
  drop (length (trace s)) (trace run.2).

(** The exceptions [read_data] and [write_to_device] have an [except]
    clause for. *)
Definition caught_by_poll (e : exn) : bool :=
  match e with TimeoutError | BleakError => true | _ => false end.

End shape_vocabulary.

(** ** The command of a pending exchange *)

Section invariant_vocabulary.
Context `{!Codec}.

(** A pending exchange has its command: the handler never finds
    [current_command] unset while the future it would resolve is pending. *)
Definition has_command (r : Reader) : bool :=
  match notify_future r, current_command r with
  | Some Pending, None => false
  | _, _ => true
  end.

(** [m] keeps that. *)
Definition keeps_command {A} (m : M A) : Prop :=
  ∀ s, has_command (self s) = true → has_command (self (m s).2) = true.

End invariant_vocabulary.

(** ** Field names and pack numbers *)

(** A decimal digit. *)
Definition is_digit (a : Ascii.ascii) : bool :=
  let code := Ascii.N_of_ascii a in ((48 <=? code) && (code <=? 57))%N.

Fixpoint all_digits (s : string) : bool :=
  match s with
  | EmptyString => true
  | String a s' => is_digit a && all_digits s'
  end.

(** The last character of a field name is a digit. *)
Fixpoint ends_in_digit (s : string) : bool :=
  match s with
  | EmptyString => false
  | String a EmptyString => is_digit a
  | String _ s' => ends_in_digit s'
  end.

(** The answer to reading register 43 when it holds 60. *)
Definition battery_response_60 : bytes :=
  Eval vm_compute in Sample.framed [x01; x03; x02; x00; x3c].

(** ** Calls that fail, and the guard of the update handlers *)

Section write_vocabulary.
Context `{!Codec}.

(** [m] ends by returning exactly when every call it made returned. *)
Definition returns_iff_calls_return {A} (m : M A) : Prop :=
  ∀ s, ∃ evs,
    trace (m s).2 = trace s ++ evs
    ∧ existsb call_failed evs = negb (is_ret (m s).1).

(** The guard of the update handlers: the connection is persistent and the
    client is not connected. *)
Definition connection_down (c : Coordinator) : bool :=
  persistent_conn (self (system c)) && negb (is_connected (system c)).

End write_vocabulary.

(** ** The keys of a result *)

Section key_vocabulary.
Context `{!Codec}.

(** What the device sent in one of the notification windows [ws]: the
    chunks of the window put together, up to one of them. *)
Definition sent_in (ws : list (list bytes)) (res : bytes) : Prop :=
  ∃ w n, w ∈ ws ∧ res = concat (take n w).

(** What [_async_send_command] can return for [c] on a link with the
    windows [ws]: a valid response of the expected length that the device
    sent, or the empty answer of an exchange that failed. *)
Definition answer_to (c : Command) (ws : list (list bytes)) (res : bytes) : Prop :=
  res = []
  ∨ (sent_in ws res ∧ length res = response_size c ∧ is_valid_response c res = true).

(** [key] is a field the decoder gives for such an answer to one of
    [commands]. *)
Definition decoded_by (dev : Device) (commands : list Command)
    (ws : list (list bytes)) (key : string) : Prop :=
  ∃ c res, c ∈ commands ∧ answer_to c ws res
           ∧ key ∈ dom (parse dev (starting_address c) (parse_response c res)).

(** [key] is such a field of a pack command, followed by the number of one
    of the packs. *)
Definition decoded_for_a_pack (dev : Device) (pack_commands : list Command)
    (packs : list nat) (ws : list (list bytes)) (key : string) : Prop :=
  ∃ field pack, decoded_by dev pack_commands ws field ∧ pack ∈ packs
                ∧ key = field +:+ pretty pack.

End key_vocabulary.

(** ** Setting the entities up *)

(** A Python [dict] with string keys, in insertion order: no key occurs
    twice. *)
Definition odict (V : Type) : Type := list (string * V).

(** [d[k] = v]: a key that is there keeps its place. *)
Definition odict_set {V} (d : odict V) (k : string) (v : V) : odict V :=
  if bool_decide (k ∈ d.*1)
  then (λ kv, if bool_decide (kv.1 = k) then (k, v) else kv) <$> d
  else d ++ [(k, v)].

(** [d.update(other)]. *)
Definition odict_update {V} (d other : odict V) : odict V :=
  foldl (λ acc kv, odict_set acc kv.1 kv.2) d other.

(** [homeassistant.const.EntityCategory]. *)
Inductive EntityCategory : Type := CONFIG | DIAGNOSTIC.

(** What is logged while entities are set up. *)
Inductive setup_message : Type :=
  | DeviceHasNoAddress
  | CreatingBinarySensors (address : option string)
  | CreatingButtons (address : option string).

Module binary_sensor.

(** What [async_setup_entry] reads of an entry of [FIELD_ATTRIBUTES]:
    whether its type is [FieldType.BOOL], whether its setter [is True], and
    its name. *)
Record FieldAttributes : Type := mkFieldAttributes {
  is_BOOL : bool;
  setter : bool;
  name : string;
}.

(** The attributes [BluettiBinarySensor.__init__] sets, next to those of
    [Entity]. *)
Record Sensor : Type := mkSensor {
  entity : Entity;
  _attr_name : string;
  _attr_entity_category : option EntityCategory;
}.

(** [BluettiBinarySensor.__init__]. *)
Definition __init__ (response_key name : string) (category : option EntityCategory)
    : Sensor :=
  mkSensor (mkEntity response_key false None 0) name category.

(** [async_setup_entry] of [binary_sensor.py]: the lines it logs and the
    sensors it hands to [async_add_entities].  [has_field] is the method of
    the device [build_device(address, device_name)] returns. *)
Definition async_setup_entry (FIELD_ATTRIBUTES : odict FieldAttributes)
    (address : option string) (has_field : string → bool)
    : list (level * setup_message) * list Sensor :=
  let logged :=
    (if address is None then [(Error, DeviceHasNoAddress)] else [])
    ++ [(Info, CreatingBinarySensors address)] in
  let sensors_to_add :=
    foldl (λ sensors_to_add '(field_key, field_config),
             if has_field field_key then
               if is_BOOL field_config then
                 let category := if setter field_config then Some DIAGNOSTIC else None in
                 sensors_to_add ++ [__init__ field_key (name field_config) category]
               else sensors_to_add
             else sensors_to_add)
          [] FIELD_ATTRIBUTES in
  (logged, sensors_to_add).

End binary_sensor.

Module button.

(** What [async_setup_entry] reads of a field configuration of
    [bluetti_mqtt]: whether its type is [MqttFieldType.BUTTON], whether its
    setter [is True], and [home_assistant_extra]. *)
Record MqttFieldConfig : Type := mkMqttFieldConfig {
  is_BUTTON : bool;
  setter : bool;
  home_assistant_extra : gmap string string;
}.

(** The button [BluettiButton.__init__] builds, with its name. *)
Record Created : Type := mkCreated {
  button : BluettiButton.Button;
  _attr_name : string;
}.

(** [BluettiButton.__init__]. *)
Definition __init__ (bluetti_device : Device) (response_key name : string) : Created :=
  mkCreated (BluettiButton.mkButton (mkEntity response_key false None 0) bluetti_device)
    name.

(** [async_setup_entry] of [button.py].  [all_fields] is another name of the
    module-level dict [NORMAL_DEVICE_FIELDS], so that the two calls of
    [update] change that dict for every later reader: the function is given
    it and returns it as it leaves it, with the lines it logs and the
    buttons it hands to [async_add_entities]. *)
Definition async_setup_entry
    (NORMAL_DEVICE_FIELDS DC_INPUT_FIELDS ADDITIONAL_DEVICE_FIELDS : odict MqttFieldConfig)
    (CONTROL_FIELDS : list string)
    (address : option string) (bluetti_device : Device) (has_field : string → bool)
    : odict MqttFieldConfig * list (level * setup_message) * list Created :=
  let logged :=
    (if address is None then [(Error, DeviceHasNoAddress)] else [])
    ++ [(Info, CreatingButtons address)] in
  let all_fields :=
    odict_update (odict_update NORMAL_DEVICE_FIELDS DC_INPUT_FIELDS)
      ADDITIONAL_DEVICE_FIELDS in
  let sensors_to_add :=
    foldl (λ sensors_to_add '(field_key, field_config),
             if has_field field_key then
               if is_BUTTON field_config then
                 if setter field_config && bool_decide (field_key ∈ CONTROL_FIELDS)
                 then sensors_to_add
                      ++ [__init__ bluetti_device field_key
                            (default ""%string
                               (home_assistant_extra field_config !! "name"%string))]
                 else sensors_to_add
               else sensors_to_add
             else sensors_to_add)
          [] all_fields in
  (all_fields, logged, sensors_to_add).

End button.

(** The sensor [async_setup_entry] of [binary_sensor.py] makes of one entry
    of the table, if any. *)
Definition sensor_of (has_field : string → bool)
    (kv : string * binary_sensor.FieldAttributes) : option binary_sensor.Sensor :=
  if has_field kv.1 && binary_sensor.is_BOOL kv.2
  then Some (binary_sensor.__init__ kv.1 (binary_sensor.name kv.2)
               (if binary_sensor.setter kv.2 then Some DIAGNOSTIC else None))
  else None.

(** The button [async_setup_entry] of [button.py] makes of one entry of the
    table, if any. *)
Definition button_of (CONTROL_FIELDS : list string) (bluetti_device : Device)
    (has_field : string → bool) (kv : string * button.MqttFieldConfig)
    : option button.Created :=
  if has_field kv.1 && button.is_BUTTON kv.2
     && (button.setter kv.2 && bool_decide (kv.1 ∈ CONTROL_FIELDS))
  then Some (button.__init__ bluetti_device kv.1
               (default ""%string (button.home_assistant_extra kv.2 !! "name"%string)))
  else None.

(** The updates an entity gets, one coordinator state after the other. *)
Definition updates (cs : list Coordinator) (e : Entity) : Entity :=
  foldl (λ e c, BluettiBinarySensor._handle_coordinator_update c e) e cs.

(** The data of an update hold a [bool] under [key]. *)
Definition holds_bool (c : Coordinator) (key : string) : option bool :=
  match data c with
  | Some d => match d !! key with Some (VBool b) => Some b | _ => None end
  | None => None
  end.

(** The updates that get past the guard. *)
Definition heeded (cs : list Coordinator) : list Coordinator :=
  filter (λ c, connection_down c = false) cs.

(** ** The attempts to connect *)

(** The attempts to connect that a run made, each with the way it ended, in
    the order they were made. *)
Definition connects (evs : list event) : list outcome :=
  omap (λ ev, match ev with Call Connect o => Some o | _ => None end) evs.

(** ** A poll around one command of the pack loop *)

Section pack_vocabulary.
Context `{!Codec}.

(** A poll with packs, up to one command of the pack loop: what runs under
    the timeout scope before the command that follows [before] is sent for
    [pack]. *)
Definition poll_up_to (dev : Device) (polling pack_commands before : list Command)
    (pack : nat) : M (gmap string value) :=
  reconnect;;
  attach_notifier;;
  parsed_data ← poll_commands dev polling ∅;
  log Debug PollingBatteryPacks;;
  parsed_data ← poll_packs dev pack_commands (seq 1 (pack - 1)) parsed_data;
  _async_send_command (build_setter_command dev "pack_num" (VInt (Z.of_nat pack)));;
  sleep 5;;
  poll_pack_commands dev pack before parsed_data.

(** The rest of the poll once that command is dealt with: the commands
    [after] it for [pack], then the packs that follow. *)
Definition poll_from (dev : Device) (pack_commands after : list Command) (pack : nat)
    (parsed_data : gmap string value) : M (gmap string value) :=
  parsed_data ← poll_pack_commands dev pack after parsed_data;
  poll_packs dev pack_commands (seq (S pack) (pack_num_max dev - pack)) parsed_data.

End pack_vocabulary.

(** A link that answers the main command, lets the selection of each pack
    time out, and answers both packs with the number [second] for the
    second. *)
Definition two_packs (second : byte) : Sys :=
  Sample.answers []
    [[battery_response]; []; [pack_response x01]; []; [pack_response second]]
    (Sample.idle (Some Sample.device) false).

(** * Properties *)

(** ** Notification intake *)

Section intake.
Context `{!Codec}.

Lemma handler_discards (data : bytes) (r : Reader) :
  pending r = false →
  _notification_handler data r = (r, [Log Warning UnexpectedNotification]).
Proof.
  unfold pending, _notification_handler.
  destruct (notify_future r) as [fut|]; [|done].
  by destruct (done fut).
Qed.

Lemma handler_appends (c : Command) (data : bytes) (r : Reader) :
  notify_future r = Some Pending →
  current_command r = Some c →
  is_payload data = true →
  incomplete c (notify_response r ++ data) = true →
  _notification_handler data r
  = (with_notify_response (notify_response r ++ data) r, []).
Proof.
  unfold _notification_handler, is_payload, incomplete.
  intros -> -> Hdata [Hlen Hexc]%andb_prop. simpl.
  apply negb_true_iff in Hdata, Hlen, Hexc.
  by rewrite Hdata, Hlen, Hexc.
Qed.

Lemma handler_completes (c : Command) (data : bytes) (r : Reader) :
  notify_future r = Some Pending →
  current_command r = Some c →
  is_payload data = true →
  length (notify_response r ++ data) = response_size c →
  let buf := notify_response r ++ data in
  _notification_handler data r
  = (with_notify_future
       (Some (if is_valid_response c buf then Resolved buf else Failed ParseError))
       (with_notify_response buf r), []).
Proof.
  unfold _notification_handler, is_payload.
  intros -> -> Hdata Hlen. simpl.
  apply negb_true_iff in Hdata. rewrite Hdata.
  rewrite bool_decide_eq_true_2 by done.
  by destruct (is_valid_response c _).
Qed.

Lemma deliver_app (frames1 frames2 : list bytes) (r : Reader) :
  deliver (frames1 ++ frames2) r
  = let (r1, logged1) := deliver frames1 r in
    let (r2, logged2) := deliver frames2 r1 in
    (r2, logged1 ++ logged2).
Proof.
  revert r. induction frames1 as [|data frames1 IH]; intros r; simpl.
  - by destruct (deliver frames2 r).
  - destruct (_notification_handler data r) as [r1 l1]. rewrite IH.
    destruct (deliver frames1 r1) as [r2 l2], (deliver frames2 r2) as [r3 l3].
    by rewrite app_assoc.
Qed.

(** While every intermediate buffer is incomplete the handler only appends:
    the exchange stays pending for the same command, and nothing is logged. *)
Lemma deliver_appends (c : Command) (frames : list bytes) (r : Reader) :
  notify_future r = Some Pending →
  current_command r = Some c →
  forallb is_payload frames = true →
  forallb (incomplete c) (accumulate (notify_response r) frames) = true →
  deliver frames r
  = (with_notify_response (notify_response r ++ concat frames) r, []).
Proof.
  revert r. induction frames as [|data frames IH]; intros r Hfut Hcmd Hpay Hacc.
  - simpl. rewrite app_nil_r. by destruct r.
  - simpl in Hpay, Hacc.
    apply andb_prop in Hpay as [Hdata Hpay], Hacc as [Hinc Hacc].
    simpl. rewrite (handler_appends c) by done.
    rewrite IH by done. simpl. by rewrite <-app_assoc.
Qed.

(** C3. Once the chunks handled for a pending command add up to exactly
    [response_size] bytes, the future is done: with those bytes when their
    checksum is valid, with [ParseError] when it is not; no exchange is
    pending any more, and any further chunk is dropped with the warning
    "Unexpected notification", leaving the reader, and so the resolved
    future, as it was. *)
Theorem complete_response_resolves
    (c : Command) (frames : list bytes) (last : bytes) (r : Reader) :
  notify_future r = Some Pending →
  current_command r = Some c →
  forallb is_payload (frames ++ [last]) = true →
  forallb (incomplete c) (accumulate (notify_response r) frames) = true →
  length (notify_response r ++ concat (frames ++ [last])) = response_size c →
  let buf := notify_response r ++ concat (frames ++ [last]) in
  let r' := (deliver (frames ++ [last]) r).1 in
  notify_future r'
  = Some (if is_valid_response c buf then Resolved buf else Failed ParseError)
  ∧ pending r' = false
  ∧ ∀ extra : bytes,
      _notification_handler extra r' = (r', [Log Warning UnexpectedNotification]).
Proof.
  intros Hfut Hcmd Hpay Hacc Hlen buf r'.
  rewrite forallb_app in Hpay. apply andb_prop in Hpay as [Hpay Hlast].
  simpl in Hlast. rewrite andb_true_r in Hlast.
  assert (Hbuf : notify_response r ++ concat frames ++ last = buf).
  { unfold buf. by rewrite concat_app; simpl; rewrite app_nil_r. }
  assert (Hr' : r' = with_notify_future
            (Some (if is_valid_response c buf then Resolved buf else Failed ParseError))
            (with_notify_response buf r)).
  { unfold r'. rewrite deliver_app, (deliver_appends c frames r); [|done..].
    simpl. rewrite (handler_completes c); simpl; rewrite <-?app_assoc, ?Hbuf; done. }
  assert (Hdone : pending r' = false).
  { rewrite Hr'. unfold pending. simpl. by destruct (is_valid_response c buf). }
  split; [by rewrite Hr'|]. split; [done|].
  intros extra. by apply handler_discards.
Qed.

End intake.

Lemma complete_response_resolves_witness :
  let r := awaiting Sample.read_battery (Sample.reader (Some Sample.device) false) in
  let r' := (deliver (H := Sample.modbus)
               [take 3 battery_response; drop 3 battery_response] r).1 in
  notify_future r' = Some (Resolved battery_response) ∧ pending r' = false.
Proof.
  intros r r'.
  destruct (complete_response_resolves (H := Sample.modbus) Sample.read_battery
              [take 3 battery_response] (drop 3 battery_response) r)
    as (Hfut & Hpending & _); [vm_compute; reflexivity..|].
  split; [exact Hfut | exact Hpending].
Defined.

(** ** How the coroutines run *)

Section running.
Context `{!Codec}.

Lemma bind_unfold {A B} (m : M A) (k : A → M B) (s : Sys) :
  (m ≫= k) s = match m s with
               | (Ret a, s') => k a s'
               | (Raise e, s') => (Raise e, s')
               | (Cancel, s') => (Cancel, s')
               end.
Proof. reflexivity. Qed.

Lemma next_reply_eq (s : Sys) :
  next_reply s = (Ret (hd Done (replies s)), answered s).
Proof. unfold next_reply, answered. by destruct (replies s). Qed.

Lemma next_window_eq (s : Sys) :
  next_window s = (Ret (hd [] (windows s)), windowed s).
Proof. unfold next_window, windowed. by destruct (windows s). Qed.

Lemma call_eq (scoped : bool) (o : op) (s : Sys) :
  call scoped o s =
  if scoped && fired s then (Cancel, record (Call o Interrupted) s)
  else let s1 := answered (if scoped then spend s else s) in
       match hd Done (replies s) with
       | Done => (Ret tt, record (Call o Returned) s1)
       | Fails e => (Raise e, record (Call o (Raised e)) s1)
       end.
Proof.
  unfold call. destruct scoped; cbn [andb].
  - rewrite bind_unfold. unfold tick, fired, spend.
    destruct (fuse s) as [[|n]|]; try reflexivity;
      rewrite bind_unfold, next_reply_eq; destruct (hd Done (replies _)); reflexivity.
  - rewrite !bind_unfold. cbn. rewrite bind_unfold, next_reply_eq.
    destruct (hd Done (replies s)); reflexivity.
Qed.

Lemma sleep_eq (n : nat) (s : Sys) :
  sleep n s =
  if fired s then (Cancel, record (Call (Sleep n) Interrupted) s)
  else (Ret tt, record (Call (Sleep n) Returned) (spend s)).
Proof.
  unfold sleep. rewrite bind_unfold. unfold tick, fired, spend.
  destruct (fuse s) as [[|k]|]; reflexivity.
Qed.

Lemma connect_eq (scoped : bool) (s : Sys) :
  connect scoped s =
  match call scoped Connect s with
  | (Ret _, s1) => (Ret tt, set_is_connected true s1)
  | (Raise e, s1) => (Raise e, s1)
  | (Cancel, s1) => (Cancel, s1)
  end.
Proof. unfold connect. rewrite bind_unfold. by destruct (call _ _ _) as [[] ?]. Qed.

Lemma disconnect_eq (s : Sys) :
  disconnect s =
  match hd Done (replies s) with
  | Done => (Ret tt, set_is_connected false (record (Call Disconnect Returned) (answered s)))
  | Fails e => (Raise e, record (Call Disconnect (Raised e)) (answered s))
  end.
Proof.
  unfold disconnect. rewrite bind_unfold, call_eq. cbn.
  by destruct (hd Done (replies s)).
Qed.

Lemma wait_eq (s : Sys) :
  wait_for_notify_future s =
  if fired s
  then (Cancel, record (Call WaitFor Interrupted) (set_self cancel_future s))
  else
    let s1 := notified (hd [] (windows s)) (windowed (spend s)) in
    match notify_future (self s1) with
    | Some (Resolved b) => (Ret b, record (Call WaitFor Returned) s1)
    | Some (Failed e) => (Raise e, record (Call WaitFor (Raised e)) s1)
    | Some Pending =>
        (Raise TimeoutError,
         record (Call WaitFor (Raised TimeoutError)) (set_self cancel_future s1))
    | Some Cancelled => (Cancel, record (Call WaitFor Interrupted) s1)
    | None => (Raise OtherError, record (Call WaitFor (Raised OtherError)) s1)
    end.
Proof.
  unfold wait_for_notify_future. rewrite bind_unfold. unfold tick, fired, spend.
  destruct (fuse s) as [[|n]|]; try reflexivity;
    rewrite bind_unfold, next_window_eq;
    unfold modify, get, emit, ret, raise, cancel, mbind, M_bind, bind;
    cbn -[notified];
    destruct (notify_future (self (notified _ _))) as [[]|]; reflexivity.
Qed.

Lemma send_eq (c : Command) (s : Sys) :
  _async_send_command c s =
  let s0 := record (Log Debug (Requesting c)) (set_self (awaiting c) s) in
  match call true (WriteGattChar (encode c)) s0 with
  | (Ret _, s1) =>
      match wait_for_notify_future s1 with
      | (Ret b, s2) => (Ret b, record (Log Debug (GotBytes (length b))) s2)
      | (Raise e, s2) => on_send_error c e s2
      | (Cancel, s2) => (Cancel, s2)
      end
  | (Raise e, s1) => on_send_error c e s1
  | (Cancel, s1) => (Cancel, s1)
  end.
Proof.
  unfold _async_send_command, try_except, log, emit, modify, ret, mbind, M_bind, bind.
  cbn -[call wait_for_notify_future].
  destruct (call true (WriteGattChar (encode c)) _) as [[[]|e|] s1];
    [|destruct e; reflexivity|reflexivity].
  destruct (wait_for_notify_future s1) as [[b|e|] s2];
    [reflexivity|destruct e; reflexivity|reflexivity].
Qed.

Lemma poll_commands_eq (dev : Device) (c : Command) (rest : list Command)
    (parsed_data : gmap string value) (s : Sys) :
  poll_commands dev (c :: rest) parsed_data s =
  match _async_send_command c s with
  | (Ret res, s1) =>
      poll_commands dev rest
        (parse dev (starting_address c) (parse_response c res) ∪ parsed_data)
        (record (Log Debug ParsedData) (record (Log Debug RawData) s1))
  | (Raise ParseError, s1) =>
      poll_commands dev rest parsed_data (record (Log Warning GotParseException) s1)
  | (Raise e, s1) => (Raise e, s1)
  | (Cancel, s1) => (Cancel, s1)
  end.
Proof.
  cbn [poll_commands]. rewrite bind_unfold. unfold try_except at 1.
  rewrite bind_unfold.
  destruct (_async_send_command c s) as [[res|e|] s1];
    [reflexivity|destruct e; reflexivity|reflexivity].
Qed.

End running.

(** ** What the state transformers leave alone *)

Section frames.
Context `{!Codec}.

Lemma self_spend (s : Sys) : self (spend s) = self s.
Proof. unfold spend. by destruct (fuse s) as [[|n]|]. Qed.
Lemma self_answered (s : Sys) : self (answered s) = self s.
Proof. unfold answered. by destruct (replies s). Qed.
Lemma self_windowed (s : Sys) : self (windowed s) = self s.
Proof. unfold windowed. by destruct (windows s). Qed.
Lemma self_notified (frames : list bytes) (s : Sys) :
  self (notified frames s) = (deliver frames (self s)).1.
Proof. unfold notified. by destruct (deliver frames (self s)). Qed.

Lemma trace_spend (s : Sys) : trace (spend s) = trace s.
Proof. unfold spend. by destruct (fuse s) as [[|n]|]. Qed.
Lemma trace_answered (s : Sys) : trace (answered s) = trace s.
Proof. unfold answered. by destruct (replies s). Qed.
Lemma trace_windowed (s : Sys) : trace (windowed s) = trace s.
Proof. unfold windowed. by destruct (windows s). Qed.
Lemma trace_notified (frames : list bytes) (s : Sys) :
  trace (notified frames s) = trace s ++ (deliver frames (self s)).2.
Proof. unfold notified. by destruct (deliver frames (self s)). Qed.

Lemma is_connected_spend (s : Sys) : is_connected (spend s) = is_connected s.
Proof. unfold spend. by destruct (fuse s) as [[|n]|]. Qed.
Lemma is_connected_answered (s : Sys) : is_connected (answered s) = is_connected s.
Proof. unfold answered. by destruct (replies s). Qed.
Lemma is_connected_windowed (s : Sys) : is_connected (windowed s) = is_connected s.
Proof. unfold windowed. by destruct (windows s). Qed.
Lemma is_connected_notified (frames : list bytes) (s : Sys) :
  is_connected (notified frames s) = is_connected s.
Proof. unfold notified. by destruct (deliver frames (self s)). Qed.

Lemma fuse_answered (s : Sys) : fuse (answered s) = fuse s.
Proof. unfold answered. by destruct (replies s). Qed.
Lemma fuse_windowed (s : Sys) : fuse (windowed s) = fuse s.
Proof. unfold windowed. by destruct (windows s). Qed.
Lemma fuse_notified (frames : list bytes) (s : Sys) :
  fuse (notified frames s) = fuse s.
Proof. unfold notified. by destruct (deliver frames (self s)). Qed.

Lemma replies_spend (s : Sys) : replies (spend s) = replies s.
Proof. unfold spend. by destruct (fuse s) as [[|n]|]. Qed.
Lemma replies_windowed (s : Sys) : replies (windowed s) = replies s.
Proof. unfold windowed. by destruct (windows s). Qed.
Lemma replies_notified (frames : list bytes) (s : Sys) :
  replies (notified frames s) = replies s.
Proof. unfold notified. by destruct (deliver frames (self s)). Qed.

Lemma windows_spend (s : Sys) : windows (spend s) = windows s.
Proof. unfold spend. by destruct (fuse s) as [[|n]|]. Qed.
Lemma windows_answered (s : Sys) : windows (answered s) = windows s.
Proof. unfold answered. by destruct (replies s). Qed.

Lemma fired_spend (k : nat) (s : Sys) :
  fuse_allows (S (S k)) s = true → fired (spend s) = false.
Proof.
  unfold fuse_allows, fired, spend.
  destruct (fuse s) as [[|[|n]]|] eqn:Hf; simpl; rewrite ?Hf; try done;
    intros ?%bool_decide_eq_true; lia.
Qed.

Lemma fired_allows (k : nat) (s : Sys) :
  fuse_allows (S k) s = true → fired s = false.
Proof.
  unfold fuse_allows, fired. destruct (fuse s) as [[|n]|]; try done;
    intros ?%bool_decide_eq_true; lia.
Qed.

End frames.

Create Rewrite HintDb sys.
#[global] Hint Rewrite @self_spend @self_answered @self_windowed @self_notified
  @trace_spend @trace_answered @trace_windowed @trace_notified
  @is_connected_spend @is_connected_answered @is_connected_windowed
  @is_connected_notified @fuse_answered @fuse_windowed @fuse_notified
  @replies_spend @replies_windowed @replies_notified
  @windows_spend @windows_answered : sys.

(** ** One exchange *)

Section exchange.
Context `{!Codec}.

Lemma pending_future (r : Reader) :
  pending r = true ↔ notify_future r = Some Pending.
Proof.
  unfold pending. destruct (notify_future r) as [[]|]; simpl; split; congruence.
Qed.

Lemma handler_keeps_command (data : bytes) (r : Reader) :
  current_command (_notification_handler data r).1 = current_command r.
Proof.
  unfold _notification_handler.
  destruct (notify_future r) as [fut|]; [|done].
  destruct (done fut); [done|].
  destruct (_ || _); [done|].
  destruct (current_command r) as [c|] eqn:Hc; [|done].
  repeat case_match; simpl; done.
Qed.

Lemma deliver_keeps_command (frames : list bytes) (r : Reader) :
  current_command (deliver frames r).1 = current_command r.
Proof.
  revert r. induction frames as [|data frames IH]; intros r; simpl; [done|].
  pose proof (handler_keeps_command data r) as Hh.
  destruct (_notification_handler data r) as [r1 l1].
  specialize (IH r1). destruct (deliver frames r1) as [r2 l2].
  simpl in *. congruence.
Qed.

Lemma cancel_future_keeps_command (r : Reader) :
  current_command (cancel_future r) = current_command r.
Proof. unfold cancel_future. by destruct (notify_future r) as [[]|]. Qed.

(** What is outstanding when [_async_send_command] is entered has no part in
    what it does. *)
Lemma send_forgets (c : Command) (s : Sys) :
  _async_send_command c s = _async_send_command c (set_self forget s).
Proof. rewrite !send_eq. by destruct s as [[] ? ? ? ? ?]. Qed.

Lemma send_installs (c : Command) (s : Sys) :
  current_command (self (_async_send_command c s).2) = Some c.
Proof.
  rewrite send_eq. cbn zeta. rewrite call_eq. cbn [andb].
  set (s0 := record _ _).
  assert (Hs0 : current_command (self s0) = Some c) by done.
  destruct (fired s0); [done|].
  cbn zeta. set (s1 := answered (spend s0)).
  assert (Hs1 : current_command (self s1) = Some c)
    by (unfold s1; by autorewrite with sys).
  assert (Herr : ∀ e s2, current_command (self s2) = Some c →
            current_command (self (on_send_error c e s2).2) = Some c)
    by (intros [] ? ?; done).
  destruct (hd Done (replies s0)); [|by apply Herr].
  rewrite wait_eq.
  set (s1' := record _ s1).
  assert (Hs1' : current_command (self s1') = Some c) by done.
  destruct (fired s1'); [simpl; by rewrite cancel_future_keeps_command|].
  cbn zeta. set (s2 := notified _ _).
  assert (Hs2 : current_command (self s2) = Some c).
  { unfold s2. autorewrite with sys. by rewrite deliver_keeps_command. }
  destruct (notify_future (self s2)) as [[]|]; simpl; try done.
  - by rewrite cancel_future_keeps_command.
  - by apply Herr.
Qed.

(** C1 (as the code has it). [_async_send_command] makes no check for an
    outstanding exchange.  Called while one is pending it runs exactly as it
    would with none outstanding, and the exchange the reader holds when it
    is over is the new command's: the earlier one is replaced, not kept and
    not reported. *)
Theorem send_replaces_pending_exchange (c : Command) (s : Sys) :
  pending (self s) = true →
  _async_send_command c s = _async_send_command c (set_self forget s)
  ∧ pending (self (set_self forget s)) = false
  ∧ current_command (self (_async_send_command c s).2) = Some c.
Proof.
  intros _. split; [apply send_forgets|]. split; [done|apply send_installs].
Qed.

End exchange.

Lemma send_replaces_pending_exchange_witness :
  pending (self after_failed_write) = true
  ∧ current_command
      (self (_async_send_command (H := Sample.modbus) Sample.read_pack
               after_failed_write).2)
    = Some Sample.read_pack.
Proof.
  split; [vm_compute; reflexivity|].
  apply (send_replaces_pending_exchange (H := Sample.modbus)).
  vm_compute; reflexivity.
Defined.

(** C1 (as stated) fails: with the exchange for [read_battery] still pending,
    a call for [read_pack] is not rejected.  It returns the bytes of the
    answer to [read_pack], and the reader then holds the exchange of
    [read_pack] in place of the one that was outstanding. *)
Lemma second_exchange_is_not_rejected :
  let s := Sample.answers [] [[pack_response x01]] after_failed_write in
  let run := _async_send_command (H := Sample.modbus) Sample.read_pack s in
  pending (self s) = true
  ∧ current_command (self s) = Some Sample.read_battery
  ∧ run.1 = Ret (pack_response x01)
  ∧ current_command (self run.2) = Some Sample.read_pack
  ∧ notify_future (self run.2) = Some (Resolved (pack_response x01)).
Proof. vm_compute. repeat split. Qed.

Section timeout.
Context `{!Codec}.

(** C4 (as the code has it). When the write goes through and the chunks that
    arrive before the per-command timeout leave the exchange pending,
    [_async_send_command] cancels the future, so that no exchange is pending
    any more, logs a warning and returns the empty byte string; it raises
    nothing, and [read_data] goes on to decode that empty answer and to poll
    the remaining commands. *)
Theorem per_command_timeout_returns_empty
    (dev : Device) (c : Command) (rest : list Command)
    (parsed_data : gmap string value) (s : Sys) :
  fuse_allows 2 s = true →
  hd Done (replies s) = Done →
  pending (deliver (hd [] (windows s)) (awaiting c (self s))).1 = true →
  ∃ s', _async_send_command c s = (Ret [], s')
    ∧ notify_future (self s') = Some Cancelled
    ∧ pending (self s') = false
    ∧ (∃ evs, trace s' = trace s ++ evs
                ++ [Call WaitFor (Raised TimeoutError);
                    Log Warning SingleCommandTimedOut])
    ∧ poll_commands dev (c :: rest) parsed_data s
      = poll_commands dev rest
          (parse dev (starting_address c) (parse_response c []) ∪ parsed_data)
          (record (Log Debug ParsedData) (record (Log Debug RawData) s')).
Proof.
  intros Hfuse Hreply Hpending.
  apply pending_future in Hpending.
  pose proof (send_eq c s) as Hsend. cbn zeta in Hsend.
  rewrite call_eq in Hsend. cbn [andb] in Hsend.
  set (s0 := record (Log Debug (Requesting c)) (set_self (awaiting c) s)) in Hsend.
  assert (Hf0 : fired s0 = false) by (apply (fired_allows 1 s), Hfuse).
  rewrite Hf0 in Hsend. cbn zeta in Hsend.
  assert (Hr0 : hd Done (replies s0) = Done) by done.
  rewrite Hr0, wait_eq in Hsend.
  set (s1 := record _ (answered (spend s0))) in Hsend.
  assert (Hf1 : fired s1 = false).
  { unfold fired, s1. simpl. rewrite fuse_answered.
    change (fired (spend s0) = false). by apply (fired_spend 0). }
  rewrite Hf1 in Hsend. cbn zeta in Hsend.
  assert (Hw : hd [] (windows s1) = hd [] (windows s)).
  { unfold s1. simpl. by autorewrite with sys. }
  rewrite Hw in Hsend.
  set (s2 := notified _ _) in Hsend.
  assert (Hs2 : notify_future (self s2) = Some Pending).
  { unfold s2, s1. autorewrite with sys. simpl. autorewrite with sys.
    by change (self s0) with (awaiting c (self s)). }
  rewrite Hs2 in Hsend. simpl in Hsend.
  eexists. split; [exact Hsend|].
  split; [|split; [|split]].
  - simpl. unfold cancel_future. by rewrite Hs2.
  - unfold pending. simpl. unfold cancel_future. by rewrite Hs2.
  - exists ([Log Debug (Requesting c); Call (WriteGattChar (encode c)) Returned]
            ++ (deliver (hd [] (windows s)) (awaiting c (self s))).2).
    simpl. unfold s2, s1. autorewrite with sys. simpl. autorewrite with sys.
    change (self s0) with (awaiting c (self s)). simpl.
    by rewrite <-!app_assoc.
  - by rewrite poll_commands_eq, Hsend.
Qed.

(** How an exchange ends when the write goes through and the timeout scope
    does not fire: as the future stands once the chunks of the window have
    been handled. *)
Lemma send_outcome (c : Command) (s : Sys) :
  fuse_allows 2 s = true →
  hd Done (replies s) = Done →
  (_async_send_command c s).1 =
  match notify_future (deliver (hd [] (windows s)) (awaiting c (self s))).1 with
  | Some (Resolved b) => Ret b
  | Some (Failed e) => (on_send_error c e s).1
  | Some Pending => Ret []
  | Some Cancelled => Cancel
  | None => Raise OtherError
  end.
Proof.
  intros Hfuse Hreply.
  rewrite send_eq. cbn zeta. rewrite call_eq. cbn [andb].
  set (s0 := record (Log Debug (Requesting c)) (set_self (awaiting c) s)).
  assert (Hf0 : fired s0 = false) by (apply (fired_allows 1 s), Hfuse).
  rewrite Hf0. cbn zeta.
  assert (Hr0 : hd Done (replies s0) = Done) by done.
  rewrite Hr0, wait_eq.
  set (s1 := record _ (answered (spend s0))).
  assert (Hf1 : fired s1 = false).
  { unfold fired, s1. simpl. rewrite fuse_answered.
    change (fired (spend s0) = false). by apply (fired_spend 0). }
  rewrite Hf1. cbn zeta.
  assert (Hw : hd [] (windows s1) = hd [] (windows s)).
  { unfold s1. simpl. by autorewrite with sys. }
  rewrite Hw. set (s2 := notified _ _).
  assert (Hs2 : self s2 = (deliver (hd [] (windows s)) (awaiting c (self s))).1).
  { unfold s2, s1. autorewrite with sys. simpl. by autorewrite with sys. }
  rewrite Hs2.
  destruct (notify_future _) as [[|b|e|]|]; try done.
  simpl. by destruct e.
Qed.

(** The answer to a command, arriving whole within the window, is what
    [_async_send_command] returns when its checksum is valid, and makes it
    raise [ParseError] when it is not. *)
Lemma send_complete_response (c : Command) (frames : list bytes) (last : bytes) (s : Sys) :
  fuse_allows 2 s = true →
  hd Done (replies s) = Done →
  hd [] (windows s) = frames ++ [last] →
  forallb is_payload (frames ++ [last]) = true →
  forallb (incomplete c) (accumulate [] frames) = true →
  length (concat (frames ++ [last])) = response_size c →
  (_async_send_command c s).1 =
  if is_valid_response c (concat (frames ++ [last]))
  then Ret (concat (frames ++ [last]))
  else Raise ParseError.
Proof.
  intros Hfuse Hreply Hwindow Hpay Hacc Hlen.
  rewrite send_outcome, Hwindow by done.
  destruct (complete_response_resolves c frames last (awaiting c (self s)))
    as (-> & _); try done.
  simpl. by destruct (is_valid_response c _).
Qed.

End timeout.

Lemma per_command_timeout_returns_empty_witness :
  let s := Sample.idle (Some Sample.device) false in
  (_async_send_command (H := Sample.modbus) Sample.read_battery s).1 = Ret [].
Proof.
  intros s.
  destruct (per_command_timeout_returns_empty (H := Sample.modbus)
              Sample.device Sample.read_battery [] ∅ s)
    as (s' & Hsend & _); [vm_compute; reflexivity..|].
  by rewrite Hsend.
Defined.

(** C4 (as stated) fails: the caller of a command that times out is handed
    no timeout error but the same empty byte string it is handed after a
    Modbus exception or a failed write.  Here no chunk arrives at all: the
    wait raises [TimeoutError] inside [_async_send_command], and the call
    returns [b""]. *)
Lemma timeout_is_not_returned_as_an_error :
  let run := _async_send_command (H := Sample.modbus) Sample.read_battery
               (Sample.idle (Some Sample.device) false) in
  Call WaitFor (Raised TimeoutError) ∈ trace run.2
  ∧ run.1 = Ret []
  ∧ (_async_send_command (H := Sample.modbus) Sample.read_battery
       (Sample.answers [Fails BleakError] [] (Sample.idle (Some Sample.device) false))).1
    = run.1.
Proof.
  vm_compute. split; [|done].
  apply list_elem_of_In. simpl. tauto.
Qed.

(** ** The connect loop *)

Section connecting.
Context `{!Codec}.

Lemma connect_attempts_eq (max_retries attempt : nat) (rest : list nat) (s : Sys) :
  connect_attempts max_retries (attempt :: rest) s =
  if is_connected s then (Ret tt, s)
  else
    match connect true s with
    | (Ret _, s1) => (Ret tt, s1)
    | (Raise e, s1) =>
        if bool_decide (attempt = max_retries) || bool_decide (attempt = 1%nat)
        then (Raise e, s1)
        else (sleep 2 ≫= λ _, connect_attempts max_retries rest)
               (record (Log Warning (ConnectUnsuccessful attempt e)) s1)
    | (Cancel, s1) => (Cancel, s1)
    end.
Proof.
  cbn [connect_attempts]. unfold try_except. rewrite bind_unfold. unfold get at 1.
  destruct (is_connected s); [reflexivity|].
  destruct (connect true s) as [[[]|e|] s1]; try reflexivity.
  destruct (_ || _); reflexivity.
Qed.

(** One pass of the connect loop at [attempt], with the attempts [rest]
    still to come: when the client is connected, or [connect] returns, the
    loop stops there; when [connect] raises on attempt 1 or on attempt
    [max_retries], the exception leaves the loop at once, with nothing
    logged and no delay; when it raises on an attempt strictly between the
    two, a warning is logged, the task sleeps 2 seconds, and the loop goes
    on with the next attempt. *)
Lemma connect_attempt
    (max_retries attempt : nat) (rest : list nat) (s : Sys) (e : exn) :
  (2 ≤ max_retries)%nat →
  fired s = false →
  let made r := record (Call Connect r) (answered (spend s)) in
  (is_connected s = true →
     connect_attempts max_retries (attempt :: rest) s = (Ret tt, s))
  ∧ (is_connected s = false → hd Done (replies s) = Done →
       connect_attempts max_retries (attempt :: rest) s
       = (Ret tt, set_is_connected true (made Returned)))
  ∧ (is_connected s = false → hd Done (replies s) = Fails e →
       (attempt = 1%nat ∨ attempt = max_retries) →
       connect_attempts max_retries (attempt :: rest) s = (Raise e, made (Raised e)))
  ∧ (is_connected s = false → hd Done (replies s) = Fails e →
       (1 < attempt < max_retries)%nat →
       let logged := record (Log Warning (ConnectUnsuccessful attempt e)) (made (Raised e)) in
       connect_attempts max_retries (attempt :: rest) s
       = if fired logged then (Cancel, record (Call (Sleep 2) Interrupted) logged)
         else connect_attempts max_retries rest
                (record (Call (Sleep 2) Returned) (spend logged))).
Proof.
  intros _ Hfired made.
  assert (Hmade : ∀ r, hd Done (replies s) = r → connect true s =
            match r with
            | Done => (Ret tt, set_is_connected true (made Returned))
            | Fails e' => (Raise e', made (Raised e'))
            end).
  { intros r Hr. rewrite connect_eq, call_eq, Hfired. cbn [andb]. cbn zeta.
    rewrite Hr. by destruct r. }
  split; [|split; [|split]]; intros Hconn; rewrite connect_attempts_eq, Hconn.
  - done.
  - intros Hreply. by rewrite (Hmade _ Hreply).
  - intros Hreply Hattempt. rewrite (Hmade _ Hreply).
    destruct Hattempt as [-> | ->].
    + by rewrite orb_true_r.
    + by rewrite bool_decide_eq_true_2.
  - intros Hreply Hattempt logged. rewrite (Hmade _ Hreply).
    rewrite !bool_decide_eq_false_2 by lia. cbn [orb].
    rewrite bind_unfold, sleep_eq. fold logged. by destruct (fired logged).
Qed.

(** The loop as [read_data] enters it, at attempt 1: a failed [connect] is
    never retried, so the loop makes one call of [connect] at most. *)
Lemma connect_attempts_from_first (max_retries : nat) (s : Sys) :
  connect_attempts max_retries (seq 1 max_retries) s =
  if bool_decide (max_retries = 0%nat) || is_connected s then (Ret tt, s)
  else connect true s.
Proof.
  destruct max_retries as [|n]; [done|].
  cbn [seq]. rewrite connect_attempts_eq.
  rewrite (bool_decide_eq_false_2 (S n = 0%nat)) by lia.
  rewrite (bool_decide_eq_true_2 (1 = 1)%nat) by done.
  rewrite orb_true_r. cbn [orb].
  destruct (is_connected s); [done|].
  by destruct (connect true s) as [[[]|e|] s1].
Qed.

End connecting.

(** ** Pack iteration *)

Section packs.
Context `{!Codec}.

Lemma length_append (k suffix : string) :
  String.length (k +:+ suffix) = (String.length k + String.length suffix)%nat.
Proof.
  induction k as [|a k IH]; [done|].
  change (S (String.length (k +:+ suffix))
          = S (String.length k + String.length suffix)).
  by rewrite IH.
Qed.

(** Appending a fixed suffix sends different keys to different keys. *)
#[local] Instance suffix_inj (suffix : string) : Inj (=) (=) (λ k, k +:+ suffix).
Proof.
  intros k1. induction k1 as [|a k1 IH]; intros [|b k2] Heq.
  - done.
  - apply (f_equal String.length) in Heq.
    rewrite !length_append in Heq. simpl in Heq. lia.
  - apply (f_equal String.length) in Heq.
    rewrite !length_append in Heq. simpl in Heq. lia.
  - change (String a (k1 +:+ suffix) = String b (k2 +:+ suffix)) in Heq.
    injection Heq as -> Heq. f_equal. by apply IH.
Qed.

Lemma suffixed_differs (k suffix : string) :
  suffix ≠ ""%string → k +:+ suffix ≠ k.
Proof.
  intros Hne Heq. apply (f_equal String.length) in Heq.
  rewrite length_append in Heq. destruct suffix; [done|]. simpl in Heq. lia.
Qed.

Lemma pretty_N_go_nonempty (x : N) (acc : string) :
  acc ≠ ""%string → pretty_N_go x acc ≠ ""%string.
Proof.
  revert acc. induction (N.lt_wf_0 x) as [x _ IH]. intros acc Hacc.
  destruct (decide (x = 0)%N) as [-> | Hx]; [by rewrite pretty_N_go_0|].
  rewrite pretty_N_go_step by lia.
  apply IH; [apply N.div_lt; lia | done].
Qed.

(** [str(n)] is never empty. *)
Lemma pretty_nat_nonempty (n : nat) : pretty n ≠ ""%string.
Proof.
  unfold pretty, pretty_nat, pretty, pretty_N.
  case_decide; [done|].
  rewrite pretty_N_go_step by lia. by apply pretty_N_go_nonempty.
Qed.

Lemma foldl_insert_union {V} (g : string → string) `{!Inj (=) (=) g}
    (l : list (string * V)) (acc : gmap string V) :
  NoDup (l.*1) →
  foldl (λ acc kv, <[g kv.1 := kv.2]> acc) acc l
  = list_to_map (prod_map g id <$> l) ∪ acc.
Proof.
  revert acc. induction l as [|[k v] l IH]; intros acc Hnd.
  - simpl. by rewrite (left_id_L ∅ (∪)).
  - rewrite fmap_cons in Hnd. apply NoDup_cons in Hnd as [Hk Hnd].
    cbn [foldl]. rewrite IH by done.
    change (list_to_map (prod_map g id <$> (k, v) :: l))
      with (<[g k := v]> (list_to_map (M := gmap string V) (prod_map g id <$> l))).
    rewrite <-insert_union_l. symmetry. apply insert_union_r.
    apply not_elem_of_list_to_map_1.
    rewrite <-list_fmap_compose.
    intros (kv & Hg & Hin)%list_elem_of_fmap. simpl in Hg.
    apply (inj g) in Hg. apply Hk. simpl. rewrite Hg.
    apply list_elem_of_fmap. eauto.
Qed.

(** The loop that merges one decoded answer stores each of its fields under
    its key with the pack number appended, and touches no other key. *)
Lemma merge_pack_kmap (pack : nat) (parsed parsed_data : gmap string value) :
  merge_pack pack parsed parsed_data
  = kmap (λ k, k +:+ pretty pack) parsed ∪ parsed_data.
Proof.
  unfold merge_pack.
  rewrite (foldl_insert_union (λ k, k +:+ pretty pack)); [done|].
  apply NoDup_fst_map_to_list.
Qed.

Lemma poll_pack_commands_eq (dev : Device) (pack : nat) (c : Command)
    (rest : list Command) (parsed_data : gmap string value) (s : Sys) :
  poll_pack_commands dev pack (c :: rest) parsed_data s =
  match _async_send_command c s with
  | (Ret res, s1) =>
      let parsed := parse dev (starting_address c) (parse_response c res) in
      let s2 := record (Log Debug ParsedData) s1 in
      if pack_number_accepted parsed pack
      then poll_pack_commands dev pack rest (merge_pack pack parsed parsed_data) s2
      else poll_pack_commands dev pack rest parsed_data
             (record (Log Debug (PackNumMismatch pack)) s2)
  | (Raise ParseError, s1) =>
      poll_pack_commands dev pack rest parsed_data
        (record (Log Warning GotParseException) s1)
  | (Raise e, s1) => (Raise e, s1)
  | (Cancel, s1) => (Cancel, s1)
  end.
Proof.
  cbn [poll_pack_commands]. rewrite bind_unfold. unfold try_except at 1.
  rewrite bind_unfold.
  destruct (_async_send_command c s) as [[res|e|] s1];
    [|destruct e; reflexivity|reflexivity].
  cbn zeta. unfold pack_number_accepted.
  rewrite bind_unfold. unfold log, emit, modify. cbn beta iota.
  destruct (isinstance_int _), (bool_decide _); reflexivity.
Qed.

(** What [pack_num] values pass the check: an [int] equal to the pack
    polled, [True] counting as 1. *)
Lemma pack_number_accepted_iff (parsed : gmap string value) (pack : nat) :
  (1 ≤ pack)%nat →
  pack_number_accepted parsed pack = true
  ↔ parsed !! "pack_num"%string = Some (VInt (Z.of_nat pack))
    ∨ (parsed !! "pack_num"%string = Some (VBool true) ∧ pack = 1%nat).
Proof.
  intros Hpack. unfold pack_number_accepted, dict_get.
  destruct (parsed !! "pack_num"%string) as [v|]; simpl;
    [|split; [done | by intros [|[]]]].
  destruct v as [|[]|z| | |]; simpl; rewrite ?bool_decide_eq_true;
    split; try done; try (by intros [|[]]).
  - intros ?. right. split; [done|lia].
  - intros [[=]|[_ ->]]. done.
  - lia.
  - intros ->. by left.
  - by intros [[= ->]|[]].
Qed.

End packs.

(** ** What the polling loops can do *)

Section loops.
Context `{!Codec}.

Lemma exchanges_only_ret {A} (a : A) : exchanges_only (ret a).
Proof. intros s. exists []. simpl. by rewrite app_nil_r. Qed.

Lemma exchanges_only_bind {A B} (m : M A) (k : A → M B) :
  exchanges_only m → (∀ a, exchanges_only (k a)) → exchanges_only (m ≫= k).
Proof.
  intros Hm Hk s. rewrite bind_unfold.
  destruct (Hm s) as (evs1 & Htr1 & Hev1 & Hint1 & Hset1 & Hconn1).
  destruct (m s) as [[a|e|] s1]; simpl in *; [|by exists evs1..].
  destruct (Hk a s1) as (evs2 & Htr2 & Hev2 & Hint2 & Hset2 & Hconn2).
  exists (evs1 ++ evs2).
  rewrite Htr2, Htr1, app_assoc, forallb_app, existsb_app, Hev1, Hev2, Hint1, Hint2.
  repeat split; congruence.
Qed.

Lemma exchanges_only_try_except {A} (m : M A) (h : exn → option (M A)) :
  exchanges_only m →
  (∀ e k, h e = Some k → exchanges_only k) →
  exchanges_only (try_except m h).
Proof.
  intros Hm Hh s. unfold try_except.
  destruct (Hm s) as (evs1 & Htr1 & Hev1 & Hint1 & Hset1 & Hconn1).
  destruct (m s) as [[a|e|] s1]; simpl in *; [by exists evs1| |by exists evs1].
  destruct (h e) as [k|] eqn:He; [|by exists evs1].
  destruct (Hh e k He s1) as (evs2 & Htr2 & Hev2 & Hint2 & Hset2 & Hconn2).
  exists (evs1 ++ evs2).
  rewrite Htr2, Htr1, app_assoc, forallb_app, existsb_app, Hev1, Hev2, Hint1, Hint2.
  repeat split; congruence.
Qed.

Lemma exchanges_only_log (l : level) (m : message) : exchanges_only (log l m).
Proof. intros s. by exists [Log l m]. Qed.

Lemma exchanges_only_modify (f : Reader → Reader) :
  (∀ r, settings (f r) = settings r) → exchanges_only (modify (set_self f)).
Proof. intros Hf s. exists []. simpl. by rewrite app_nil_r, Hf. Qed.

Lemma exchanges_only_write (payload : bytes) :
  exchanges_only (call true (WriteGattChar payload)).
Proof.
  intros s. rewrite call_eq. cbn [andb].
  destruct (fired s); [by eexists [_]|]. cbn zeta.
  destruct (hd Done (replies s)); eexists [_]; simpl;
    by autorewrite with sys.
Qed.

Lemma exchanges_only_sleep (n : nat) : exchanges_only (sleep n).
Proof.
  intros s. rewrite sleep_eq.
  destruct (fired s); eexists [_]; simpl; by autorewrite with sys.
Qed.

Lemma handler_settings (data : bytes) (r : Reader) :
  settings (_notification_handler data r).1 = settings r
  ∧ forallb loop_event (_notification_handler data r).2 = true
  ∧ existsb interrupted (_notification_handler data r).2 = false.
Proof.
  unfold _notification_handler.
  destruct (notify_future r) as [fut|]; [|done].
  destruct (done fut); [done|].
  destruct (_ || _); [done|].
  destruct (current_command r) as [c|]; [|done].
  destruct (bool_decide _); [by destruct (is_valid_response _ _)|].
  destruct (is_exception_response _ _); [|done].
  by destruct (_ !! _).
Qed.

Lemma deliver_settings (frames : list bytes) (r : Reader) :
  settings (deliver frames r).1 = settings r
  ∧ forallb loop_event (deliver frames r).2 = true
  ∧ existsb interrupted (deliver frames r).2 = false.
Proof.
  revert r. induction frames as [|data frames IH]; intros r; simpl; [done|].
  destruct (handler_settings data r) as (Hs1 & He1 & Hi1).
  destruct (_notification_handler data r) as [r1 l1].
  destruct (IH r1) as (Hs2 & He2 & Hi2).
  destruct (deliver frames r1) as [r2 l2]. simpl in *.
  rewrite forallb_app, existsb_app, He1, He2, Hi1, Hi2. split; [congruence|done].
Qed.

Lemma cancel_future_settings (r : Reader) : settings (cancel_future r) = settings r.
Proof. unfold cancel_future. by destruct (notify_future r) as [[]|]. Qed.

Lemma exchanges_only_wait : exchanges_only wait_for_notify_future.
Proof.
  intros s. rewrite wait_eq.
  destruct (fired s).
  { exists [Call WaitFor Interrupted]. simpl. by rewrite cancel_future_settings. }
  cbn zeta.
  destruct (deliver_settings (hd [] (windows s)) (self s)) as (Hs & He & Hi).
  set (logged := (deliver (hd [] (windows s)) (self s)).2) in *.
  set (s1 := notified _ _).
  assert (Htr : trace s1 = trace s ++ logged)
    by (unfold s1; by autorewrite with sys).
  assert (Hset : settings (self s1) = settings (self s))
    by (unfold s1; by autorewrite with sys).
  assert (Hconn : is_connected s1 = is_connected s)
    by (unfold s1; by autorewrite with sys).
  assert (Hend : ∀ {A} (r : res A) (o : outcome) (s2 : Sys),
            trace s2 = trace s1 → settings (self s2) = settings (self s1) →
            is_connected s2 = is_connected s1 →
            interrupted (Call WaitFor o) = is_cancel r →
            ∃ evs, trace (r, record (Call WaitFor o) s2).2 = trace s ++ evs
                   ∧ forallb loop_event evs = true
                   ∧ existsb interrupted evs = is_cancel (r, record (Call WaitFor o) s2).1
                   ∧ settings (self (r, record (Call WaitFor o) s2).2) = settings (self s)
                   ∧ is_connected (r, record (Call WaitFor o) s2).2 = is_connected s).
  { intros A r o s2 Htr2 Hset2 Hconn2 Hio. exists (logged ++ [Call WaitFor o]).
    cbn [fst snd record trace self is_connected].
    rewrite Htr2, Htr, <-app_assoc, forallb_app, existsb_app, He, Hi, Hset2, Hconn2.
    cbn [forallb existsb loop_event orb andb]. rewrite orb_false_r.
    by rewrite Hio. }
  destruct (notify_future (self s1)) as [[]|]; apply Hend; try done.
  simpl. apply cancel_future_settings.
Qed.

Lemma exchanges_only_send (c : Command) : exchanges_only (_async_send_command c).
Proof.
  unfold _async_send_command.
  apply exchanges_only_try_except.
  - apply exchanges_only_bind; [by apply exchanges_only_modify|intros _].
    apply exchanges_only_bind; [by apply exchanges_only_modify|intros _].
    apply exchanges_only_bind; [by apply exchanges_only_modify|intros _].
    apply exchanges_only_bind; [apply exchanges_only_log|intros _].
    apply exchanges_only_bind; [apply exchanges_only_write|intros _].
    apply exchanges_only_bind; [apply exchanges_only_wait|intros res].
    apply exchanges_only_bind; [apply exchanges_only_log|intros _].
    apply exchanges_only_ret.
  - intros [] k [= <-];
      (apply exchanges_only_bind; [apply exchanges_only_log|intros ?; apply exchanges_only_ret]).
Qed.

Lemma exchanges_only_poll_commands (dev : Device) (commands : list Command)
    (parsed_data : gmap string value) :
  exchanges_only (poll_commands dev commands parsed_data).
Proof.
  revert parsed_data. induction commands as [|c commands IH]; intros parsed_data.
  - apply exchanges_only_ret.
  - cbn [poll_commands]. apply exchanges_only_bind; [|done].
    apply exchanges_only_try_except.
    + apply exchanges_only_bind; [apply exchanges_only_send|intros res].
      apply exchanges_only_bind; [apply exchanges_only_log|intros _].
      apply exchanges_only_bind; [apply exchanges_only_log|intros _].
      apply exchanges_only_ret.
    + intros [] k [= <-].
      apply exchanges_only_bind; [apply exchanges_only_log|intros ?; apply exchanges_only_ret].
Qed.

Lemma exchanges_only_poll_pack_commands (dev : Device) (pack : nat)
    (commands : list Command) (parsed_data : gmap string value) :
  exchanges_only (poll_pack_commands dev pack commands parsed_data).
Proof.
  revert parsed_data. induction commands as [|c commands IH]; intros parsed_data.
  - apply exchanges_only_ret.
  - cbn [poll_pack_commands]. apply exchanges_only_bind; [|done].
    apply exchanges_only_try_except.
    + apply exchanges_only_bind; [apply exchanges_only_send|intros res].
      apply exchanges_only_bind; [apply exchanges_only_log|intros ?].
      destruct (_ || _); [|apply exchanges_only_ret].
      apply exchanges_only_bind; [apply exchanges_only_log|intros ?; apply exchanges_only_ret].
    + intros [] k [= <-].
      apply exchanges_only_bind; [apply exchanges_only_log|intros ?; apply exchanges_only_ret].
Qed.

Lemma exchanges_only_poll_packs (dev : Device) (pack_commands : list Command)
    (packs : list nat) (parsed_data : gmap string value) :
  exchanges_only (poll_packs dev pack_commands packs parsed_data).
Proof.
  revert parsed_data. induction packs as [|pack packs IH]; intros parsed_data.
  - apply exchanges_only_ret.
  - cbn [poll_packs].
    apply exchanges_only_bind; [apply exchanges_only_send|intros ?].
    apply exchanges_only_bind; [apply exchanges_only_sleep|intros ?].
    apply exchanges_only_bind; [apply exchanges_only_poll_pack_commands|done].
Qed.

End loops.

(** ** The main polling loop *)

Section polling.
Context `{!Codec}.

Lemma poll_commands_exchanged (dev : Device) (commands : list Command)
    (outcomes : list (res bytes)) (parsed_data : gmap string value) (s s' : Sys) :
  exchanged commands s outcomes s' →
  Forall tolerated outcomes →
  poll_commands dev commands parsed_data s
  = (Ret (merged dev commands outcomes parsed_data), s').
Proof.
  intros Hex. revert parsed_data.
  induction Hex as [s|c commands s s1 s2 r outcomes Hsend Hex IH];
    intros parsed_data Htol; [done|].
  apply Forall_cons in Htol as [Hr Htol].
  rewrite poll_commands_eq, Hsend.
  destruct r as [res|[]|]; try done; simpl in *; by apply IH.
Qed.

Lemma send_trace (c : Command) (s : Sys) :
  ∃ evs, trace (_async_send_command c s).2 = trace s ++ evs.
Proof. destruct (exchanges_only_send c s) as (evs & Htr & _). eauto. Qed.

Lemma exchanged_trace (commands : list Command) (outcomes : list (res bytes))
    (s s' : Sys) :
  exchanged commands s outcomes s' →
  ∃ evs, trace s' = trace s ++ evs
         ∧ (Raise ParseError ∈ outcomes → Log Warning GotParseException ∈ evs).
Proof.
  induction 1 as [s|c commands s s1 s2 r outcomes Hsend Hex (evs2 & Htr2 & Hlog)].
  - exists []. split; [by rewrite app_nil_r | by intros ?%elem_of_nil].
  - destruct (send_trace c s) as (evs1 & Htr1). rewrite Hsend in Htr1. simpl in Htr1.
    assert (∃ evs, trace (settled r s1) = trace s1 ++ evs
                   ∧ (r = Raise ParseError → Log Warning GotParseException ∈ evs))
      as (evs & Htr & Hr).
    { destruct r as [res|[]|]; simpl; eexists; (split; [try reflexivity|]);
        try done; try (by rewrite app_nil_r); try (by rewrite <-app_assoc).
      intros _. apply list_elem_of_singleton. done. }
    exists (evs1 ++ evs ++ evs2). rewrite Htr2, Htr, Htr1, <-!app_assoc.
    split; [done|]. intros [<- | Hin]%elem_of_cons.
    + rewrite !elem_of_app. auto.
    + rewrite !elem_of_app. auto.
Qed.

Lemma merged_answers_dom (dev : Device) (commands : list Command)
    (answers : list bytes) (parsed_data : gmap string value) :
  dom parsed_data ⊆ dom (merged dev commands (Ret <$> answers) parsed_data)
  ∧ ∀ c answer, (c, answer) ∈ zip commands answers →
      dom (parse dev (starting_address c) (parse_response c answer))
      ⊆ dom (merged dev commands (Ret <$> answers) parsed_data).
Proof.
  revert answers parsed_data.
  induction commands as [|c0 commands IH]; intros [|a0 answers] parsed_data;
    [split; [done | by intros ? ? ?%elem_of_nil]..|].
  simpl.
  destruct (IH answers
              (parse dev (starting_address c0) (parse_response c0 a0) ∪ parsed_data))
    as [Hacc Hzip].
  rewrite dom_union_L in Hacc.
  split; [intros key Hkey; apply Hacc, elem_of_union; by right|].
  intros c answer [[= -> ->] | Hin]%elem_of_cons; [|by apply Hzip].
  intros key Hkey. apply Hacc, elem_of_union. by left.
Qed.

Lemma merged_skips_failure (dev : Device) (before after : list Command) (c : Command)
    (answers_before answers_after : list bytes) (parsed_data : gmap string value) :
  length answers_before = length before →
  merged dev (before ++ c :: after)
    ((Ret <$> answers_before) ++ Raise ParseError :: (Ret <$> answers_after)) parsed_data
  = merged dev (before ++ after) (Ret <$> answers_before ++ answers_after) parsed_data.
Proof.
  revert answers_before parsed_data.
  induction before as [|c0 before IH]; intros [|a0 answers] parsed_data Hlen;
    simpl in *; try done.
  apply IH. lia.
Qed.

(** The main loop when one exchange raises [ParseError] and every other
    command is answered. *)
Lemma checksum_failure_in_main_loop
    (dev : Device) (before after : list Command) (c : Command)
    (answers_before answers_after : list bytes)
    (parsed_data : gmap string value) (s s' : Sys) :
  length answers_before = length before →
  exchanged (before ++ c :: after) s
    ((Ret <$> answers_before) ++ Raise ParseError :: (Ret <$> answers_after)) s' →
  ∃ m,
    poll_commands dev (before ++ c :: after) parsed_data s = (Ret m, s')
    ∧ m = merged dev (before ++ after) (Ret <$> answers_before ++ answers_after) parsed_data
    ∧ Log Warning GotParseException ∈ drop (length (trace s)) (trace s')
    ∧ ∀ c' answer key,
        (c', answer) ∈ zip (before ++ after) (answers_before ++ answers_after) →
        key ∈ dom (parse dev (starting_address c') (parse_response c' answer)) →
        key ∈ dom m.
Proof.
  intros Hlen Hex. eexists. split; [|split; [|split]].
  - apply poll_commands_exchanged; [done|].
    apply Forall_app. split; [by apply Forall_fmap, Forall_true|].
    apply Forall_cons. split; [done | by apply Forall_fmap, Forall_true].
  - by apply merged_skips_failure.
  - destruct (exchanged_trace _ _ _ _ Hex) as (evs & -> & Hlog).
    rewrite drop_app_length. apply Hlog.
    rewrite elem_of_app, elem_of_cons. auto.
  - intros c' answer key Hin Hkey. rewrite merged_skips_failure by done.
    by apply (proj2 (merged_answers_dom dev _ _ parsed_data) c' answer Hin).
Qed.

End polling.

(** ** A whole poll *)

Section poll.
Context `{!Codec}.

Lemma teardown_eq (s : Sys) :
  teardown s =
  if persistent_conn (self s) then (Ret tt, s)
  else if has_notifier (self s) then
    match hd Done (replies s) with
    | Done =>
        disconnect (set_self (with_has_notifier false)
                      (record (Call StopNotify Returned) (answered s)))
    | Fails e => (Raise e, record (Call StopNotify (Raised e)) (answered s))
    end
  else disconnect s.
Proof.
  unfold teardown. rewrite bind_unfold. unfold get at 1.
  destruct (persistent_conn (self s)); [done|].
  rewrite bind_unfold.
  destruct (has_notifier (self s)); [|done].
  rewrite bind_unfold, call_eq. cbn [andb]. cbn zeta.
  by destruct (hd Done (replies s)).
Qed.

Lemma read_data_eq (filter_registers : option (list Command)) (dev : Device) (s : Sys) :
  bluetti_device (self s) = Some dev →
  read_data filter_registers s =
  let polling := from_option id (polling_commands dev) filter_registers in
  let pack_commands :=
    match filter_registers with
    | Some _ => []
    | None => pack_polling_commands dev
    end in
  let polled :=
    poll_body dev polling pack_commands (record Acquire (record (Log Info ReadingData) s)) in
  let handled := on_poll_outcome polled.1 polled.2 in
  let cleaned := teardown handled.2 in
  (after_finally handled.1 cleaned.1, record Release cleaned.2).
Proof.
  intros Hdev. unfold read_data. rewrite bind_unfold. unfold log at 1, emit, modify.
  rewrite bind_unfold. unfold get at 1. cbn [self record]. rewrite Hdev.
  cbn zeta. unfold with_lock, try_finally, try_except, with_timeout.
  rewrite bind_unfold.
  destruct (poll_body dev _ _ _) as [[m|e|] s1]; cbn [fst snd on_poll_outcome].
  - cbn -[teardown]. by destruct (teardown s1) as [[] ?].
  - destruct e; cbn -[teardown]; rewrite ?bind_unfold;
      unfold log, emit, modify, ret; cbn -[teardown];
      by destruct (teardown _) as [[] ?].
  - cbn -[teardown]. rewrite ?bind_unfold.
    unfold log, emit, modify, ret. cbn -[teardown].
    by destruct (teardown _) as [[] ?].
Qed.

Lemma poll_body_eq (dev : Device) (polling pack_commands : list Command) (s : Sys) :
  poll_body dev polling pack_commands s =
  match connect_attempts (max_retries (self s)) (seq 1 (max_retries (self s))) s with
  | (Ret _, s1) =>
      match attach_notifier s1 with
      | (Ret _, s2) =>
          (poll_commands dev polling ∅ ≫= poll_battery_packs dev pack_commands) s2
      | (Raise e, s2) => (Raise e, s2)
      | (Cancel, s2) => (Cancel, s2)
      end
  | (Raise e, s1) => (Raise e, s1)
  | (Cancel, s1) => (Cancel, s1)
  end.
Proof.
  unfold poll_body, reconnect. rewrite !bind_unfold. unfold get at 1.
  by destruct (connect_attempts _ _ s) as [[[]|e|] s1].
Qed.

Lemma attach_notifier_eq (s : Sys) :
  attach_notifier s =
  if has_notifier (self s) then (Ret tt, s)
  else match call true StartNotify s with
       | (Ret _, s1) => (Ret tt, set_self (with_has_notifier true) s1)
       | (Raise e, s1) => (Raise e, s1)
       | (Cancel, s1) => (Cancel, s1)
       end.
Proof.
  unfold attach_notifier. rewrite bind_unfold. unfold get at 1.
  destruct (has_notifier (self s)); [done|].
  rewrite bind_unfold. by destruct (call true StartNotify s) as [[[]|e|] s1].
Qed.

Lemma poll_packs_eq (dev : Device) (pack_commands : list Command) (pack : nat)
    (rest : list nat) (parsed_data : gmap string value) (s : Sys) :
  poll_packs dev pack_commands (pack :: rest) parsed_data s =
  match _async_send_command
          (build_setter_command dev "pack_num" (VInt (Z.of_nat pack))) s with
  | (Ret _, s1) =>
      match sleep 5 s1 with
      | (Ret _, s2) =>
          match poll_pack_commands dev pack pack_commands parsed_data s2 with
          | (Ret parsed_data', s3) => poll_packs dev pack_commands rest parsed_data' s3
          | (Raise e, s3) => (Raise e, s3)
          | (Cancel, s3) => (Cancel, s3)
          end
      | (Raise e, s2) => (Raise e, s2)
      | (Cancel, s2) => (Cancel, s2)
      end
  | (Raise e, s1) => (Raise e, s1)
  | (Cancel, s1) => (Cancel, s1)
  end.
Proof.
  cbn [poll_packs]. rewrite bind_unfold.
  by destruct (_async_send_command _ s) as [[res|e|] s1].
Qed.

(** Polling the packs only adds keys. *)
Lemma poll_pack_commands_dom (dev : Device) (pack : nat) (commands : list Command)
    (parsed_data m : gmap string value) (s s' : Sys) :
  poll_pack_commands dev pack commands parsed_data s = (Ret m, s') →
  dom parsed_data ⊆ dom m.
Proof.
  revert parsed_data s. induction commands as [|c commands IH]; intros parsed_data s.
  - by intros [= -> _].
  - rewrite poll_pack_commands_eq.
    destruct (_async_send_command c s) as [[res|e|] s1]; [|destruct e; try done|done].
    + cbn zeta. destruct (pack_number_accepted _ _); [|by apply IH].
      intros Hrun%IH. rewrite merge_pack_kmap, dom_union_L in Hrun.
      intros key Hkey. apply Hrun, elem_of_union. by right.
    + apply IH.
Qed.

Lemma poll_packs_dom (dev : Device) (pack_commands : list Command) (packs : list nat)
    (parsed_data m : gmap string value) (s s' : Sys) :
  poll_packs dev pack_commands packs parsed_data s = (Ret m, s') →
  dom parsed_data ⊆ dom m.
Proof.
  revert parsed_data s. induction packs as [|pack packs IH]; intros parsed_data s.
  - by intros [= -> _].
  - rewrite poll_packs_eq.
    destruct (_async_send_command _ s) as [[res|e|] s1]; try done.
    destruct (sleep 5 s1) as [[[]|e|] s2]; try done.
    destruct (poll_pack_commands _ _ _ _ s2) as [[m1|e|] s3] eqn:Hcmds; try done.
    intros Hrest%IH. apply poll_pack_commands_dom in Hcmds.
    intros key Hkey. by apply Hrest, Hcmds.
Qed.

Lemma poll_battery_packs_dom (dev : Device) (pack_commands : list Command)
    (parsed_data m : gmap string value) (s s' : Sys) :
  poll_battery_packs dev pack_commands parsed_data s = (Ret m, s') →
  dom parsed_data ⊆ dom m.
Proof.
  unfold poll_battery_packs. case_bool_decide; [|by intros [= -> _]].
  rewrite bind_unfold. unfold log, emit, modify. apply poll_packs_dom.
Qed.

End poll.

Section checksum.
Context `{!Codec}.

(** C5. In a poll that connects and subscribes, where the exchange of one
    main command raises [ParseError] and every other main command is
    answered, the [ParseError] does not end the poll: the warning is logged
    and the main loop runs to its end with the map built from the other
    answers alone, the failed command adding nothing.  With the rest of the
    poll (the packs, if they are polled, and the teardown) going through,
    [read_data] returns a map, and every field decoded from the answer of
    one of the other commands has its key in it; when no packs are polled
    the map returned is exactly the one built from those answers. *)
Theorem checksum_failure_skips_one_command
    (filter_registers : option (list Command)) (dev : Device)
    (before after : list Command) (c : Command)
    (answers_before answers_after : list bytes)
    (returned : gmap string value) (s s1 s2 s3 s4 : Sys) :
  let pack_commands :=
    match filter_registers with
    | Some _ => []
    | None => pack_polling_commands dev
    end in
  let m := merged dev (before ++ after) (Ret <$> answers_before ++ answers_after) ∅ in
  bluetti_device (self s) = Some dev →
  from_option id (polling_commands dev) filter_registers = before ++ c :: after →
  (reconnect ≫= λ _, attach_notifier)
    (record Acquire (record (Log Info ReadingData) s)) = (Ret tt, s1) →
  length answers_before = length before →
  exchanged (before ++ c :: after) s1
    ((Ret <$> answers_before) ++ Raise ParseError :: (Ret <$> answers_after)) s2 →
  poll_battery_packs dev pack_commands m s2 = (Ret returned, s3) →
  teardown s3 = (Ret tt, s4) →
  read_data filter_registers s = (Ret (Some returned), record Release s4)
  ∧ poll_commands dev (before ++ c :: after) ∅ s1 = (Ret m, s2)
  ∧ Log Warning GotParseException ∈ drop (length (trace s1)) (trace s2)
  ∧ (∀ c' answer key,
       (c', answer) ∈ zip (before ++ after) (answers_before ++ answers_after) →
       key ∈ dom (parse dev (starting_address c') (parse_response c' answer)) →
       key ∈ dom returned)
  ∧ (pack_commands = [] → returned = m).
Proof.
  intros pack_commands m Hdev Hpolling Hstart Hlen Hex Hpacks Hteardown.
  destruct (checksum_failure_in_main_loop dev before after c answers_before
              answers_after ∅ s1 s2 Hlen Hex) as (m0 & Hloop & -> & Hlog & Hkeys).
  fold m in Hloop, Hkeys.
  split; [|split; [done|split; [done|split]]].
  - rewrite (read_data_eq _ dev) by done. cbn zeta. rewrite Hpolling. fold pack_commands.
    unfold poll_body. rewrite bind_unfold in Hstart. rewrite bind_unfold.
    destruct (reconnect _) as [[[]|e|] s0]; try done.
    rewrite bind_unfold, Hstart, bind_unfold, Hloop, Hpacks.
    cbn [fst snd on_poll_outcome]. by rewrite Hteardown.
  - intros c' answer key Hin Hkey.
    by apply (poll_battery_packs_dom _ _ _ _ _ _ Hpacks), (Hkeys c' answer).
  - intros Hnone. rewrite Hnone in Hpacks. by injection Hpacks as <- _.
Qed.

End checksum.

Lemma checksum_failure_skips_one_command_witness :
  let s := Sample.answers [] [[corrupted battery_response]; [pack_response x01]]
             (Sample.idle (Some Sample.device) false) in
  ∃ returned,
    (read_data (H := Sample.modbus) (Some [Sample.read_battery; Sample.read_pack]) s).1
    = Ret (Some returned)
    ∧ "pack_voltage"%string ∈ dom returned.
Proof.
  intros s.
  set (s1 := ((reconnect ≫= λ _, attach_notifier)
                (record Acquire (record (Log Info ReadingData) s))).2).
  set (r1 := _async_send_command (H := Sample.modbus) Sample.read_battery s1).
  set (r2 := _async_send_command (H := Sample.modbus) Sample.read_pack
               (settled r1.1 r1.2)).
  set (s2 := settled r2.1 r2.2).
  set (m := merged (H := Sample.modbus) Sample.device [Sample.read_pack]
              [Ret (pack_response x01)] ∅).
  destruct (checksum_failure_skips_one_command (H := Sample.modbus)
              (Some [Sample.read_battery; Sample.read_pack]) Sample.device
              [] [Sample.read_pack] Sample.read_battery [] [pack_response x01]
              m s s1 s2 s2 (teardown s2).2)
    as (Hrun & _ & _ & Hkeys & _).
  - reflexivity.
  - reflexivity.
  - vm_compute. reflexivity.
  - reflexivity.
  - apply (exchanged_cons (H := Sample.modbus) _ _ _ r1.2); [vm_compute; reflexivity|].
    apply (exchanged_cons (H := Sample.modbus) _ _ _ r2.2 s2);
      [vm_compute; reflexivity|].
    apply exchanged_nil.
  - reflexivity.
  - vm_compute. reflexivity.
  - exists m. split; [by rewrite Hrun|].
    apply (Hkeys Sample.read_pack (pack_response x01)).
    + apply list_elem_of_singleton. reflexivity.
    + apply elem_of_dom. exists (VInt 5300). vm_compute. reflexivity.
Defined.

(** ** What ends a poll *)

Section fatal.
Context `{!Codec}.

Lemma raises_benign_ret {A} (a : A) : raises_benign (ret a).
Proof. by intros s e. Qed.

Lemma raises_benign_bind {A B} (m : M A) (k : A → M B) :
  raises_benign m → (∀ a, raises_benign (k a)) → raises_benign (m ≫= k).
Proof.
  intros Hm Hk s e. rewrite bind_unfold. specialize (Hm s).
  destruct (m s) as [[a|e'|] s1]; simpl in *; [apply Hk| |done].
  intros [= <-]. by apply Hm.
Qed.

Lemma raises_benign_try_except {A} (m : M A) (h : exn → option (M A)) :
  raises_benign m → (∀ e k, h e = Some k → raises_benign k) →
  raises_benign (try_except m h).
Proof.
  intros Hm Hh s e. unfold try_except. specialize (Hm s).
  destruct (m s) as [[a|e'|] s1]; simpl in *; [done| |done].
  destruct (h e') as [k|] eqn:He; [by apply (Hh e' k)|].
  intros [= <-]. by apply Hm.
Qed.

Lemma raises_benign_log (l : level) (m : message) : raises_benign (log l m).
Proof. by intros s e. Qed.

Lemma raises_benign_sleep (n : nat) : raises_benign (sleep n).
Proof. intros s e. rewrite sleep_eq. by destruct (fired s). Qed.

Lemma on_send_error_benign (c : Command) (e e' : exn) (s : Sys) :
  (on_send_error c e s).1 = Raise e' → benign e'.
Proof. destruct e; simpl; intros [= <-]; unfold benign; auto. Qed.

Lemma raises_benign_send (c : Command) : raises_benign (_async_send_command c).
Proof.
  intros s e. rewrite send_eq. cbn zeta.
  destruct (call true _ _) as [[[]|e1|] s1]; [|apply on_send_error_benign|done].
  destruct (wait_for_notify_future s1) as [[b|e2|] s2];
    [done|apply on_send_error_benign|done].
Qed.

Lemma raises_benign_poll_commands (dev : Device) (commands : list Command)
    (parsed_data : gmap string value) :
  raises_benign (poll_commands dev commands parsed_data).
Proof.
  revert parsed_data. induction commands as [|c commands IH]; intros parsed_data s e.
  - done.
  - rewrite poll_commands_eq. pose proof (raises_benign_send c s) as Hsend.
    destruct (_async_send_command c s) as [[res|e1|] s1]; [apply IH| |done].
    destruct e1; try (intros [= <-]; by apply Hsend). apply IH.
Qed.

Lemma raises_benign_poll_pack_commands (dev : Device) (pack : nat)
    (commands : list Command) (parsed_data : gmap string value) :
  raises_benign (poll_pack_commands dev pack commands parsed_data).
Proof.
  revert parsed_data. induction commands as [|c commands IH]; intros parsed_data s e.
  - done.
  - rewrite poll_pack_commands_eq. pose proof (raises_benign_send c s) as Hsend.
    destruct (_async_send_command c s) as [[res|e1|] s1]; [| |done].
    + cbn zeta. destruct (pack_number_accepted _ _); apply IH.
    + destruct e1; try (intros [= <-]; by apply Hsend). apply IH.
Qed.

Lemma raises_benign_poll_packs (dev : Device) (pack_commands : list Command)
    (packs : list nat) (parsed_data : gmap string value) :
  raises_benign (poll_packs dev pack_commands packs parsed_data).
Proof.
  revert parsed_data. induction packs as [|pack packs IH]; intros parsed_data.
  - apply raises_benign_ret.
  - cbn [poll_packs].
    apply raises_benign_bind; [apply raises_benign_send|intros _].
    apply raises_benign_bind; [apply raises_benign_sleep|intros _].
    apply raises_benign_bind; [apply raises_benign_poll_pack_commands|done].
Qed.

(** The two loops of a poll, one after the other. *)
Lemma poll_loops (dev : Device) (polling pack_commands : list Command) :
  exchanges_only (poll_commands dev polling ∅ ≫= poll_battery_packs dev pack_commands)
  ∧ raises_benign (poll_commands dev polling ∅ ≫= poll_battery_packs dev pack_commands).
Proof.
  split.
  - apply exchanges_only_bind; [apply exchanges_only_poll_commands|intros m].
    unfold poll_battery_packs. case_bool_decide; [|apply exchanges_only_ret].
    apply exchanges_only_bind; [apply exchanges_only_log|intros _].
    apply exchanges_only_poll_packs.
  - apply raises_benign_bind; [apply raises_benign_poll_commands|intros m].
    unfold poll_battery_packs. case_bool_decide; [|apply raises_benign_ret].
    apply raises_benign_bind; [apply raises_benign_log|intros _].
    apply raises_benign_poll_packs.
Qed.

Lemma loop_events_fatal (evs : list event) :
  forallb loop_event evs = true →
  existsb fatal evs = existsb interrupted evs
  ∧ existsb teardown_call evs = false
  ∧ Call StartNotify Returned ∉ evs.
Proof.
  induction evs as [|ev evs IH]; simpl.
  - intros _. split; [done|]. split; [done|]. apply not_elem_of_nil.
  - intros [Hev Hevs]%andb_prop. destruct (IH Hevs) as (-> & -> & Hnot).
    split; [|split].
    + by destruct ev as [| [] []| | | |].
    + by destruct ev as [| [] []| | | |].
    + intros [<-|?]%elem_of_cons; done.
Qed.

End fatal.

Section phases.
Context `{!Codec}.

Lemma phase_bind {A B} (m : M A) (k : A → M B) :
  phase m → (∀ a, phase (k a)) → phase (m ≫= k).
Proof.
  intros Hm Hk s. rewrite bind_unfold.
  destruct (Hm s) as (evs1 & Htr1 & Htd1 & Hp1 & Hn1 & Hv1).
  destruct (m s) as [[a|e|] s1]; simpl in *; [|by exists evs1..].
  destruct (Hk a s1) as (evs2 & Htr2 & Htd2 & Hp2 & Hn2 & Hv2).
  exists (evs1 ++ evs2).
  rewrite Htr2, Htr1, app_assoc, !existsb_app, Htd1, Htd2, Hp2, Hp1, Hn2, Hn1, orb_assoc.
  repeat split; try done.
  destruct ((k a s1).1) as [b|[]|]; simpl in *; rewrite ?existsb_app, ?Hv1, ?Hv2; done.
Qed.

Lemma phase_exchanges {A} (m : M A) :
  exchanges_only m → raises_benign m → phase m.
Proof.
  intros Hm Hbenign s.
  destruct (Hm s) as (evs & Htr & Hev & Hint & Hset & Hconn).
  destruct (loop_events_fatal evs Hev) as (Hfatal & Htd & Hsub).
  exists evs. split; [done|]. split; [done|].
  injection Hset as _ Hp _ _ Hn. split; [done|]. split.
  - rewrite Hn. symmetry. replace (existsb subscribes evs) with false; [apply orb_false_r|].
    symmetry. apply not_true_is_false. intros (ev & Hin & Hev')%existsb_exists.
    destruct ev as [|[] []| | | |]; try done. by apply Hsub, list_elem_of_In.
  - specialize (Hbenign s). unfold verdict. rewrite Hfatal, Hint.
    destruct ((m s).1) as [a|e|]; simpl; try done.
    destruct (Hbenign e eq_refl) as [-> | ->]; done.
Qed.

Lemma phase_call (o : op) :
  (o = Connect ∨ o = StartNotify) →
  ∀ s, ∃ evs,
    trace (call true o s).2 = trace s ++ evs
    ∧ existsb teardown_call evs = false
    ∧ self (call true o s).2 = self s
    ∧ existsb subscribes evs
      = bool_decide (o = StartNotify) && is_ret (call true o s).1
    ∧ verdict (call true o s).1 evs.
Proof.
  intros Ho s. rewrite call_eq. cbn [andb].
  destruct (fired s).
  { exists [Call o Interrupted]. simpl. rewrite andb_false_r.
    by destruct Ho as [-> | ->]. }
  cbn zeta. destruct (hd Done (replies s)) as [|e].
  - exists [Call o Returned]. simpl. autorewrite with sys.
    rewrite andb_true_r. by destruct Ho as [-> | ->].
  - exists [Call o (Raised e)]. simpl. autorewrite with sys.
    rewrite andb_false_r. destruct Ho as [-> | ->]; by destruct e.
Qed.

Lemma reconnect_eq (s : Sys) :
  reconnect s =
  if bool_decide (max_retries (self s) = 0%nat) || is_connected s then (Ret tt, s)
  else connect true s.
Proof. unfold reconnect. rewrite bind_unfold. apply connect_attempts_from_first. Qed.

Lemma phase_reconnect : phase reconnect.
Proof.
  intros s. rewrite reconnect_eq.
  destruct (_ || _).
  { exists []. simpl. by rewrite app_nil_r, orb_false_r. }
  rewrite connect_eq.
  destruct (phase_call Connect (or_introl eq_refl) s)
    as (evs & Htr & Htd & Hself & Hsub & Hv).
  exists evs. rewrite bool_decide_eq_false_2, andb_false_l in Hsub by done.
  destruct (call true Connect s) as [[[]|e|] s1]; simpl in *;
    rewrite Hself, Hsub, orb_false_r; done.
Qed.

Lemma phase_attach_notifier : phase attach_notifier.
Proof.
  intros s. rewrite attach_notifier_eq.
  destruct (has_notifier (self s)) eqn:Hn.
  { exists []. simpl. by rewrite app_nil_r, Hn. }
  destruct (phase_call StartNotify (or_intror eq_refl) s)
    as (evs & Htr & Htd & Hself & Hsub & Hv).
  exists evs. rewrite bool_decide_eq_true_2, andb_true_l in Hsub by done.
  destruct (call true StartNotify s) as [[[]|e|] s1]; simpl in *;
    rewrite Hself, Hsub, ?Hn; done.
Qed.

Lemma phase_poll_body (dev : Device) (polling pack_commands : list Command) :
  phase (poll_body dev polling pack_commands).
Proof.
  unfold poll_body.
  apply phase_bind; [apply phase_reconnect|intros _].
  apply phase_bind; [apply phase_attach_notifier|intros _].
  apply phase_exchanges; apply poll_loops.
Qed.

End phases.

Section outcome.
Context `{!Codec}.

Lemma disconnect_events (s : Sys) :
  ∃ o, trace (disconnect s).2 = trace s ++ [Call Disconnect o]
       ∧ self (disconnect s).2 = self s
       ∧ o ≠ Interrupted.
Proof.
  rewrite disconnect_eq. destruct (hd Done (replies s)) as [|e].
  - exists Returned. simpl. by autorewrite with sys.
  - exists (Raised e). simpl. by autorewrite with sys.
Qed.

Lemma teardown_events (s : Sys) :
  ∃ td, trace (teardown s).2 = trace s ++ td
        ∧ torn_down (persistent_conn (self s)) (has_notifier (self s)) td
        ∧ existsb fatal td = false.
Proof.
  rewrite teardown_eq.
  destruct (persistent_conn (self s)) eqn:Hp.
  { exists []. simpl. rewrite app_nil_r.
    split; [done|]. split; [by apply torn_down_persistent|done]. }
  destruct (has_notifier (self s)) eqn:Hn.
  - destruct (hd Done (replies s)) as [|e].
    + set (s1 := set_self _ _).
      destruct (disconnect_events s1) as (o & Htr & _ & Ho).
      exists [Call StopNotify Returned; Call Disconnect o].
      rewrite Htr. unfold s1. simpl. autorewrite with sys. rewrite <-app_assoc.
      split; [done|]. split; [by apply torn_down_unsubscribe | by destruct o].
    + exists [Call StopNotify (Raised e)]. simpl. autorewrite with sys.
      split; [done|]. split; [by apply (torn_down_unsubscribe_failed _ _ e []) | done].
  - destruct (disconnect_events s) as (o & Htr & _ & Ho).
    exists [Call Disconnect o].
    split; [done|]. split; [by apply torn_down_disconnect | by destruct o].
Qed.

Lemma on_poll_outcome_events (r : res (gmap string value)) (s : Sys) :
  ∃ logged, trace (on_poll_outcome r s).2 = trace s ++ logged
            ∧ existsb fatal logged = false
            ∧ existsb teardown_call logged = false
            ∧ existsb subscribes logged = false
            ∧ self (on_poll_outcome r s).2 = self s.
Proof.
  destruct r as [m|[]|]; simpl;
    try (exists []; by rewrite app_nil_r); by eexists [_].
Qed.



End outcome.



(** ** The write path *)

Section writing.
Context `{!Codec}.

Import BluettiButton.

Lemma write_teardown_eq (s : Sys) :
  write_teardown s = if persistent_conn (self s) then (Ret tt, s) else disconnect s.
Proof.
  unfold write_teardown. rewrite bind_unfold. unfold get.
  by destruct (persistent_conn (self s)).
Qed.

Lemma write_to_device_eq (b : Button) (state : bool) (s : Sys) :
  write_to_device b state s =
  let command :=
    build_setter_command (_bluetti_device b) (_response_key (entity b)) (VBool state) in
  let body := write_body command (record Acquire s) in
  let handled := on_write_outcome body.1 body.2 in
  let cleaned := write_teardown handled.2 in
  let s' := record Release cleaned.2 in
  match after_finally handled.1 cleaned.1 with
  | Ret true => (Ret tt, record RequestRefresh s')
  | Ret false => (Ret tt, s')
  | Raise e => (Raise e, s')
  | Cancel => (Cancel, s')
  end.
Proof.
  unfold write_to_device. cbn zeta. rewrite bind_unfold.
  unfold with_lock, try_finally, try_except, with_timeout.
  rewrite bind_unfold.
  destruct (write_body _ _) as [[[]|e|] s1]; cbn [fst snd on_write_outcome].
  - cbn -[write_teardown].
    destruct (write_teardown s1) as [[[]|e|] s2]; reflexivity.
  - destruct e; cbn -[write_teardown]; rewrite ?bind_unfold;
      unfold log, emit, modify, ret; cbn -[write_teardown];
      destruct (write_teardown _) as [[[]|e|] s2]; reflexivity.
  - cbn -[write_teardown]. rewrite ?bind_unfold.
    unfold log, emit, modify, ret. cbn -[write_teardown].
    destruct (write_teardown _) as [[[]|e|] s2]; reflexivity.
Qed.

Lemma writes_only_bind {A B} (m : M A) (k : A → M B) :
  writes_only m → (∀ a, writes_only (k a)) → writes_only (m ≫= k).
Proof.
  intros Hm Hk s. rewrite bind_unfold.
  destruct (Hm s) as (evs1 & Htr1 & Hev1 & Hs1 & Hw1).
  destruct (m s) as [[a|e|] s1]; simpl in *; [|by exists evs1..].
  destruct (Hk a s1) as (evs2 & Htr2 & Hev2 & Hs2 & Hw2).
  exists (evs1 ++ evs2).
  rewrite Htr2, Htr1, app_assoc, forallb_app, Hev1, Hev2.
  repeat split; congruence.
Qed.

Lemma writes_only_call (o : op) :
  write_event (Call o Returned) = true → writes_only (call true o).
Proof.
  intros Ho s. rewrite call_eq. cbn [andb].
  destruct (fired s).
  { exists [Call o Interrupted]. simpl. by destruct o. }
  cbn zeta. destruct (hd Done (replies s)) as [|e].
  - exists [Call o Returned]. simpl. autorewrite with sys. by destruct o.
  - exists [Call o (Raised e)]. simpl. autorewrite with sys. by destruct o.
Qed.

Lemma writes_only_write_body (command : Command) : writes_only (write_body command).
Proof.
  unfold write_body. intros s. rewrite bind_unfold. unfold get at 1.
  revert s. change (writes_only (λ s, ((if is_connected s then ret tt else connect true)
     ≫= λ _, log Debug (Requesting command)
     ≫= λ _, call true (WriteGattChar (encode command)) ≫= λ _, sleep 5) s)).
  intros s.
  assert (Hrest : writes_only (log Debug (Requesting command)
     ≫= λ _, call true (WriteGattChar (encode command)) ≫= λ _, sleep 5)).
  { apply writes_only_bind; [|intros _].
    { intros s0. exists [Log Debug (Requesting command)]. by simpl. }
    apply writes_only_bind; [by apply writes_only_call|intros _].
    intros s0. rewrite sleep_eq.
    destruct (fired s0); eexists [_]; simpl; by autorewrite with sys. }
  destruct (is_connected s).
  - apply (writes_only_bind (ret tt)); [|done].
    intros s0. exists []. simpl. by rewrite app_nil_r.
  - apply (writes_only_bind (connect true)); [|done].
    apply writes_only_bind; [by apply writes_only_call|intros _].
    intros s0. exists []. simpl. by rewrite app_nil_r.
Qed.

End writing.

Section teardown.
Context `{!Codec}.

Import BluettiButton.

Lemma write_teardown_events (s : Sys) :
  ∃ td, trace (write_teardown s).2 = trace s ++ td
        ∧ torn_down (persistent_conn (self s)) false td
        ∧ self (write_teardown s).2 = self s
        ∧ windows (write_teardown s).2 = windows s
        ∧ forallb (λ ev, bool_decide (ev ≠ Call WaitFor Returned)) td = true.
Proof.
  rewrite write_teardown_eq.
  destruct (persistent_conn (self s)) eqn:Hp.
  { exists []. simpl. rewrite app_nil_r. split; [done|].
    split; [by apply torn_down_persistent|done]. }
  rewrite disconnect_eq. destruct (hd Done (replies s)) as [|e].
  - exists [Call Disconnect Returned]. simpl. autorewrite with sys.
    split; [done|]. split; [by apply torn_down_disconnect|done].
  - exists [Call Disconnect (Raised e)]. simpl. autorewrite with sys.
    split; [done|]. split; [by apply torn_down_disconnect|done].
Qed.

Lemma write_events_no_teardown (evs : list event) :
  forallb write_event evs = true →
  existsb teardown_call evs = false ∧ ∀ o, Call WaitFor o ∉ evs.
Proof.
  induction evs as [|ev evs IH]; simpl.
  - intros _. split; [done|]. intros o. apply not_elem_of_nil.
  - intros [Hev Hevs]%andb_prop. destruct (IH Hevs) as [-> Hwait].
    split; [by destruct ev as [|[] ?| | | |]|].
    intros o [<-|?]%elem_of_cons; [done|]. by apply (Hwait o).
Qed.

Lemma on_write_outcome_events (r : res unit) (s : Sys) :
  ∃ logged, trace (on_write_outcome r s).2 = trace s ++ logged
            ∧ forallb write_event logged = true
            ∧ self (on_write_outcome r s).2 = self s
            ∧ windows (on_write_outcome r s).2 = windows s.
Proof.
  destruct r as [[]|[]|]; simpl;
    try (exists []; by rewrite app_nil_r); by eexists [_].
Qed.

(** The run of [write_to_device]: the lock, the block under the timeout
    scope and what its [except] clause logs, the teardown, the release, and
    the refresh request when the block went through. *)
Lemma write_to_device_run (b : Button) (state : bool) (s : Sys) :
  ∃ pre td tail,
    trace (write_to_device b state s).2 = trace s ++ Acquire :: pre ++ td ++ Release :: tail
    ∧ forallb write_event pre = true
    ∧ torn_down (persistent_conn (self s)) false td
    ∧ (tail = [] ∨ tail = [RequestRefresh])
    ∧ self (write_to_device b state s).2 = self s
    ∧ windows (write_to_device b state s).2 = windows s.
Proof.
  rewrite write_to_device_eq. cbn zeta.
  set (command := build_setter_command _ _ _).
  destruct (writes_only_write_body command (record Acquire s))
    as (body & Htr & Hev & Hself & Hwin).
  destruct (write_body command (record Acquire s)) as [r s1]. cbn [fst snd] in *.
  destruct (on_write_outcome_events r s1) as (logged & Htr1 & Hev1 & Hself1 & Hwin1).
  destruct (write_teardown_events (on_write_outcome r s1).2)
    as (td & Htr2 & Htd & Hself2 & Hwin2 & _).
  rewrite Hself1, Hself in Htd. simpl in Htd.
  assert (Hfinal : ∀ tail (s3 : Sys),
            trace s3 = trace (write_teardown (on_write_outcome r s1).2).2 ++ Release :: tail →
            trace s3 = trace s ++ Acquire :: (body ++ logged) ++ td ++ Release :: tail).
  { intros tail s3 ->. rewrite Htr2, Htr1, Htr. simpl. by rewrite <-!app_assoc. }
  exists (body ++ logged), td.
  destruct (after_finally _ _) as [[]|e|].
  - exists [RequestRefresh]. split; [apply Hfinal; simpl; by rewrite <-app_assoc|].
    rewrite forallb_app, Hev, Hev1. simpl. rewrite Hself2, Hself1, Hwin2, Hwin1.
    repeat split; auto.
  - exists []. split; [by apply Hfinal|].
    rewrite forallb_app, Hev, Hev1. simpl. rewrite Hself2, Hself1, Hwin2, Hwin1.
    repeat split; auto.
  - exists []. split; [by apply Hfinal|].
    rewrite forallb_app, Hev, Hev1. simpl. rewrite Hself2, Hself1, Hwin2, Hwin1.
    repeat split; auto.
  - exists []. split; [by apply Hfinal|].
    rewrite forallb_app, Hev, Hev1. simpl. rewrite Hself2, Hself1, Hwin2, Hwin1.
    repeat split; auto.
Qed.

(** C8 (as the code has it). In a poll and in a write alike, whatever the
    way out of the block under the timeout scope, the [finally] clause runs
    once, after everything else and just before the lock is released, and
    nothing before it disconnects or unsubscribes.  On a persistent
    connection it makes no call.  Otherwise the clause of [read_data] calls
    [stop_notify] when the notifier is subscribed and, that call having
    returned, [disconnect]; the clause of [write_to_device] calls
    [disconnect] only, and leaves the notifier flag as it found it. *)
Theorem teardown_runs_once
    (filter_registers : option (list Command)) (dev : Device)
    (b : Button) (state : bool) (s : Sys) :
  bluetti_device (self s) = Some dev →
  (∃ pre td,
     trace (read_data filter_registers s).2 = trace s ++ pre ++ td ++ [Release]
     ∧ existsb teardown_call pre = false
     ∧ torn_down (persistent_conn (self s))
         (has_notifier (self s) || existsb subscribes pre) td)
  ∧ (∃ pre td tail,
       trace (write_to_device b state s).2 = trace s ++ pre ++ td ++ Release :: tail
       ∧ existsb teardown_call pre = false
       ∧ existsb teardown_call tail = false
       ∧ torn_down (persistent_conn (self s)) false td
       ∧ has_notifier (self (write_to_device b state s).2) = has_notifier (self s)).
Proof.
  intros Hdev. split.
  - rewrite (read_data_eq _ dev) by done. cbn zeta.
    set (polling := from_option id _ _).
    set (pack_commands := match filter_registers with Some _ => [] | None => _ end).
    set (s0 := record Acquire _).
    destruct (phase_poll_body dev polling pack_commands s0)
      as (body & Htr & Htd & Hp & Hn & _).
    destruct (poll_body dev polling pack_commands s0) as [r s1]. cbn [fst snd] in *.
    destruct (on_poll_outcome_events r s1) as (logged & Htr1 & _ & Htd1 & Hsub1 & Hself1).
    destruct (teardown_events (on_poll_outcome r s1).2) as (td & Htr2 & Hshape & _).
    rewrite Hself1, Hp, Hn in Hshape. simpl in Hshape.
    exists ([Log Info ReadingData; Acquire] ++ body ++ logged), td.
    split; [|split].
    + simpl. rewrite Htr2, Htr1, Htr. unfold s0. simpl. by rewrite <-!app_assoc.
    + rewrite !existsb_app, Htd, Htd1. done.
    + rewrite !existsb_app, Hsub1, orb_false_r. done.
  - destruct (write_to_device_run b state s)
      as (pre & td & tail & Htr & Hev & Htd & Htail & Hself & _).
    exists (Acquire :: pre), td, tail. rewrite Hself.
    split; [done|]. split; [|split; [|done]].
    + simpl. by apply write_events_no_teardown.
    + by destruct Htail as [-> | ->].
Qed.

End teardown.

Lemma teardown_runs_once_witness :
  let s := Sample.idle (Some Sample.device) false in
  ∃ pre td,
    trace (read_data (H := Sample.modbus) (Some []) s).2 = trace s ++ pre ++ td ++ [Release]
    ∧ existsb teardown_call pre = false
    ∧ torn_down false (false || existsb subscribes pre) td.
Proof.
  intros s.
  destruct (teardown_runs_once (H := Sample.modbus) (Some []) Sample.device
              ac_button true s) as [Hpoll _]; [reflexivity|].
  exact Hpoll.
Defined.

(** C8 (as stated) fails on the write path.  After a poll whose
    [stop_notify] raised, which leaves the notifier marked as subscribed and
    the client connected, a press of the button on the same, non-persistent
    connection runs its teardown: it disconnects, makes no call of
    [stop_notify], and leaves the notifier marked as subscribed. *)
Lemma write_teardown_does_not_unsubscribe :
  let s := failed_unsubscribe.2 in
  let press := BluettiButton.async_press (H := Sample.modbus) ac_button s in
  persistent_conn (self s) = false
  ∧ has_notifier (self s) = true
  ∧ drop (length (trace s)) (trace press.2)
    = [Acquire;
       Log Debug (Requesting (mkCommand WriteSingleRegister 3007 1));
       Call (WriteGattChar
               (encode (Codec := Sample.modbus) (mkCommand WriteSingleRegister 3007 1)))
         Returned;
       Call (Sleep 5) Returned;
       Call Disconnect Returned;
       Release;
       RequestRefresh]
  ∧ has_notifier (self press.2) = true.
Proof. vm_compute. repeat split. Qed.

Section order.
Context `{!Codec}.

Import BluettiButton.

Lemma call_returns (scoped : bool) (o : op) (s : Sys) :
  fuse_allows 1 s = true →
  hd Done (replies s) = Done →
  call scoped o s
  = (Ret tt, record (Call o Returned) (answered (if scoped then spend s else s))).
Proof.
  intros Hfuse Hreply. rewrite call_eq, (fired_allows 0) by done.
  rewrite andb_false_r. cbn zeta. by rewrite Hreply.
Qed.

Lemma fuse_allows_spend (k : nat) (s : Sys) :
  fuse_allows (S k) s = true → fuse_allows k (spend s) = true.
Proof.
  unfold fuse_allows, spend. destruct (fuse s) as [[|n]|] eqn:Hf; simpl;
    rewrite ?Hf; try done; rewrite !bool_decide_eq_true; lia.
Qed.

Lemma fuse_allows_weaken (k : nat) (s : Sys) :
  fuse_allows (S k) s = true → fuse_allows k s = true.
Proof.
  unfold fuse_allows. destruct (fuse s) as [n|]; [|done].
  rewrite !bool_decide_eq_true. lia.
Qed.

Lemma replies_answered (s : Sys) : replies (answered s) = tail (replies s).
Proof. unfold answered. destruct (replies s) eqn:Hr; simpl; by rewrite ?Hr. Qed.

Lemma all_done_hd (rs : list reply) : Forall (eq Done) rs → hd Done rs = Done.
Proof. by intros [|?? <- ?]. Qed.

Lemma all_done_tail (rs : list reply) : Forall (eq Done) rs → Forall (eq Done) (tail rs).
Proof. by intros [|?? _ ?]. Qed.

(** C9. Whatever the link does, [write_to_device] starts by taking the
    lock, runs its teardown just before releasing it, makes no wait on the
    notify future and leaves the reader, and so its pending exchange if
    there is one, exactly as it was.  When the link answers every call and
    the timeout does not fire, its steps are, in this order: the lock; the
    connect, if the client is not connected; the write of the encoded
    command; the sleep of 5 seconds; the disconnect, unless the connection
    is persistent; the release; and then the refresh request. *)
Theorem write_path_order (b : Button) (state : bool) (s : Sys) :
  let command :=
    build_setter_command (_bluetti_device b) (_response_key (entity b)) (VBool state) in
  let run := write_to_device b state s in
  (∃ pre td tail,
     trace run.2 = trace s ++ Acquire :: pre ++ td ++ Release :: tail
     ∧ forallb write_event pre = true
     ∧ torn_down (persistent_conn (self s)) false td
     ∧ (tail = [] ∨ tail = [RequestRefresh]))
  ∧ self run.2 = self s
  ∧ windows run.2 = windows s
  ∧ (∀ o, Call WaitFor o ∉ drop (length (trace s)) (trace run.2))
  ∧ (fuse_allows 3 s = true → Forall (eq Done) (replies s) →
     run.1 = Ret tt
     ∧ trace run.2
       = trace s
         ++ [Acquire]
         ++ (if is_connected s then [] else [Call Connect Returned])
         ++ [Log Debug (Requesting command);
             Call (WriteGattChar (encode command)) Returned;
             Call (Sleep 5) Returned]
         ++ (if persistent_conn (self s) then [] else [Call Disconnect Returned])
         ++ [Release; RequestRefresh]).
Proof.
  intros command run.
  destruct (write_to_device_run b state s)
    as (pre & td & tail & Htr & Hev & Htd & Htail & Hself & Hwin).
  split; [by exists pre, td, tail|]. split; [done|]. split; [done|]. split.
  - intros o. fold run in Htr. rewrite Htr, drop_app_length.
    destruct (write_events_no_teardown pre Hev) as [_ Hwait].
    rewrite elem_of_cons, !elem_of_app, elem_of_cons.
    intros [?|[?%Hwait|[Hin|[?|Hin]]]]; try done.
    + destruct Htd as [|? ? ?|? ? [=]|? ? ? [=]].
      * by apply elem_of_nil in Hin.
      * by apply list_elem_of_singleton in Hin.
    + destruct Htail as [-> | ->].
      * by apply elem_of_nil in Hin.
      * by apply list_elem_of_singleton in Hin.
  - intros Hfuse Hreplies. clear pre td tail Htr Hev Htd Htail Hself Hwin.
    unfold run. rewrite write_to_device_eq. cbn zeta. fold command.
    assert (Hbody : ∃ s1,
              write_body command (record Acquire s) = (Ret tt, s1)
              ∧ trace s1 = trace s ++ [Acquire]
                  ++ (if is_connected s then [] else [Call Connect Returned])
                  ++ [Log Debug (Requesting command);
                      Call (WriteGattChar (encode command)) Returned;
                      Call (Sleep 5) Returned]
              ∧ self s1 = self s
              ∧ Forall (eq Done) (replies s1)).
    { unfold write_body. rewrite bind_unfold. unfold get at 1. cbn [is_connected record].
      assert (Hrest : ∀ s0, fuse_allows 2 s0 = true → Forall (eq Done) (replies s0) →
                ∃ s1, (log Debug (Requesting command)
                       ≫= λ _, call true (WriteGattChar (encode command))
                       ≫= λ _, sleep 5) s0 = (Ret tt, s1)
                  ∧ trace s1 = trace s0
                      ++ [Log Debug (Requesting command);
                          Call (WriteGattChar (encode command)) Returned;
                          Call (Sleep 5) Returned]
                  ∧ self s1 = self s0
                  ∧ Forall (eq Done) (replies s1)).
      { intros s0 Hf0 Hr0. rewrite bind_unfold. unfold log at 1, emit, modify.
        rewrite bind_unfold, call_returns; [|by apply fuse_allows_weaken|by apply all_done_hd].
        rewrite sleep_eq. cbn [fuse record fired].
        set (s1 := record _ (answered _)).
        assert (Hf1 : fired s1 = false).
        { unfold s1, fired. simpl. rewrite fuse_answered.
          change (fired (spend (record (Log Debug (Requesting command)) s0)) = false).
          by apply (fired_spend 0). }
        rewrite Hf1. eexists. split; [reflexivity|].
        unfold s1. simpl. autorewrite with sys. simpl. rewrite replies_answered.
        autorewrite with sys. simpl.
        split; [rewrite <-!app_assoc; reflexivity|].
        split; [done|]. by apply all_done_tail. }
      destruct (is_connected s).
      - rewrite bind_unfold. unfold ret at 1.
        destruct (Hrest (record Acquire s)) as (s1 & Hrun & Htr1 & Hself1 & Hr1);
          [by apply fuse_allows_weaken|done|].
        exists s1. split; [done|].
        split; [rewrite Htr1; simpl; rewrite <-!app_assoc; reflexivity|].
        by split.
      - rewrite bind_unfold, connect_eq, call_returns;
          [|by do 2 apply fuse_allows_weaken|by apply all_done_hd].
        set (s0 := set_is_connected true _).
        destruct (Hrest s0) as (s1 & Hrun & Htr1 & Hself1 & Hr1).
        { unfold s0, fuse_allows. simpl. rewrite fuse_answered.
          change (fuse_allows 2 (spend (record Acquire s)) = true).
          by apply fuse_allows_spend. }
        { unfold s0. simpl. rewrite replies_answered. autorewrite with sys.
          by apply all_done_tail. }
        exists s1. split; [done|].
        split; [rewrite Htr1; unfold s0; simpl; autorewrite with sys; simpl;
                rewrite <-!app_assoc; reflexivity|].
        split; [|done].
        rewrite Hself1. unfold s0. simpl. by autorewrite with sys. }
    destruct Hbody as (s1 & -> & Htr1 & Hself1 & Hr1).
    cbn [fst snd on_write_outcome]. rewrite write_teardown_eq, Hself1.
    destruct (persistent_conn (self s)).
    + simpl. split; [done|].
      rewrite Htr1, <-?app_assoc. simpl. rewrite <-?app_assoc. reflexivity.
    + rewrite disconnect_eq, (all_done_hd _ Hr1). simpl. autorewrite with sys.
      split; [done|].
      rewrite Htr1, <-?app_assoc. simpl. rewrite <-?app_assoc. reflexivity.
Qed.

End order.

Lemma write_path_order_witness :
  let s := Sample.idle (Some Sample.device) false in
  trace (BluettiButton.write_to_device (H := Sample.modbus) ac_button true s).2
  = [Acquire;
     Call Connect Returned;
     Log Debug (Requesting (mkCommand WriteSingleRegister 3007 1));
     Call (WriteGattChar
             (encode (Codec := Sample.modbus) (mkCommand WriteSingleRegister 3007 1)))
       Returned;
     Call (Sleep 5) Returned;
     Call Disconnect Returned;
     Release;
     RequestRefresh].
Proof.
  intros s.
  destruct (write_path_order (H := Sample.modbus) ac_button true s)
    as (_ & _ & _ & _ & Hhappy).
  destruct Hhappy as [_ Htrace]; [reflexivity | constructor |].
  exact Htrace.
Defined.

(** ** The boolean entities *)

(** C10. Past the guard on a persistent connection that is down, the binary
    sensor and the button handle an update alike: the entity is available
    exactly when the coordinator's data is a dict holding a [bool] at the
    response key; then its on-state is that boolean and the state is written
    once; otherwise, the key missing or its value no [bool], the entity is
    made unavailable, its on-state is left as it was and nothing is
    written. *)
Theorem handle_coordinator_update_bool (c : Coordinator) (e : Entity) :
  persistent_conn (self (system c)) && negb (is_connected (system c)) = false →
  let e' := BluettiBinarySensor._handle_coordinator_update c e in
  BluettiButton._handle_coordinator_update c e = e'
  ∧ (_attr_available e' = true
     ↔ ∃ d b, data c = Some d ∧ d !! _response_key e = Some (VBool b))
  ∧ (∀ d b, data c = Some d → d !! _response_key e = Some (VBool b) →
       _attr_is_on e' = Some b ∧ written_states e' = S (written_states e))
  ∧ (_attr_available e' = false →
       _attr_is_on e' = _attr_is_on e ∧ written_states e' = written_states e).
Proof.
  intros Hguard e'. split; [done|].
  unfold e', BluettiBinarySensor._handle_coordinator_update.
  rewrite Hguard. destruct (data c) as [d|]; simpl.
  - unfold dict_get.
    destruct (d !! _response_key e) as [[|[]| | | |]|] eqn:Hkey; simpl;
      (split; [split; [try done; eauto | intros (? & ? & [= <-] & ?); congruence]|]);
      (split; [intros ? ? [= <-] ?; simplify_eq; done | done]).
  - split; [split; [done | by intros (? & ? & ? & ?)]|].
    split; [by intros | done].
Qed.

Lemma handle_coordinator_update_bool_witness :
  let c := mkCoordinator (Sample.idle None false)
             (Some {[ "ac_output_on"%string := VBool true ]}) in
  let e := mkEntity "ac_output_on" false None 0 in
  _attr_available (BluettiBinarySensor._handle_coordinator_update c e) = true
  ∧ _attr_is_on (BluettiButton._handle_coordinator_update c e) = Some true.
Proof.
  intros c e.
  destruct (handle_coordinator_update_bool c e eq_refl) as (Heq & Havail & Hon & _).
  split.
  - apply Havail. exists {[ "ac_output_on"%string := VBool true ]}, true.
    split; [reflexivity | vm_compute; reflexivity].
  - rewrite Heq.
    apply (Hon {[ "ac_output_on"%string := VBool true ]} true);
      [reflexivity | vm_compute; reflexivity].
Defined.

(** While a persistent connection is down, an update changes nothing. *)
Lemma handle_coordinator_update_guard (c : Coordinator) (e : Entity) :
  persistent_conn (self (system c)) = true → is_connected (system c) = false →
  BluettiBinarySensor._handle_coordinator_update c e = e
  ∧ BluettiButton._handle_coordinator_update c e = e.
Proof.
  intros Hp Hc.
  unfold BluettiBinarySensor._handle_coordinator_update,
    BluettiButton._handle_coordinator_update.
  by rewrite Hp, Hc.
Qed.


(** ** The ways an exchange ends *)

Section exchange_ends.
Context `{!Codec}.

Lemma deliver_discards (frames : list bytes) (r : Reader) :
  pending r = false →
  deliver frames r
  = (r, replicate (length frames) (Log Warning UnexpectedNotification)).
Proof.
  intros Hr. induction frames as [|data frames IH]; [done|].
  simpl. by rewrite handler_discards, IH.
Qed.

Lemma self_heard (c : Command) (s : Sys) :
  self (heard c s) = (deliver (hd [] (windows s)) (awaiting c (self s))).1.
Proof. unfold heard. autorewrite with sys. simpl. by autorewrite with sys. Qed.

Lemma trace_heard (c : Command) (s : Sys) :
  trace (heard c s)
  = trace s ++ [Log Debug (Requesting c); Call (WriteGattChar (encode c)) Returned]
      ++ (deliver (hd [] (windows s)) (awaiting c (self s))).2.
Proof.
  unfold heard. autorewrite with sys. simpl. autorewrite with sys. simpl.
  by rewrite <-!app_assoc.
Qed.

(** An exchange whose write returns, under a timeout scope that does not
    fire: it ends as the future stands once the window has been handled. *)
Lemma send_heard (c : Command) (s : Sys) :
  fuse_allows 2 s = true →
  hd Done (replies s) = Done →
  _async_send_command c s =
  match notify_future (self (heard c s)) with
  | Some (Resolved b) =>
      (Ret b, record (Log Debug (GotBytes (length b)))
                (record (Call WaitFor Returned) (heard c s)))
  | Some (Failed e) =>
      on_send_error c e (record (Call WaitFor (Raised e)) (heard c s))
  | Some Pending =>
      (Ret [], record (Log Warning SingleCommandTimedOut)
                 (record (Call WaitFor (Raised TimeoutError))
                    (set_self cancel_future (heard c s))))
  | Some Cancelled => (Cancel, record (Call WaitFor Interrupted) (heard c s))
  | None =>
      (Raise OtherError, record (Call WaitFor (Raised OtherError)) (heard c s))
  end.
Proof.
  intros Hfuse Hreply.
  rewrite send_eq. cbn zeta. rewrite call_eq. cbn [andb].
  set (s0 := record (Log Debug (Requesting c)) (set_self (awaiting c) s)).
  assert (Hf0 : fired s0 = false) by (apply (fired_allows 1 s), Hfuse).
  rewrite Hf0. cbn zeta.
  assert (Hr0 : hd Done (replies s0) = Done) by done.
  rewrite Hr0, wait_eq.
  set (s1 := record _ (answered (spend s0))).
  assert (Hf1 : fired s1 = false).
  { unfold fired, s1. simpl. rewrite fuse_answered.
    change (fired (spend s0) = false). by apply (fired_spend 0). }
  rewrite Hf1. cbn zeta.
  assert (Hw : hd [] (windows s1) = hd [] (windows s)).
  { unfold s1. simpl. by autorewrite with sys. }
  rewrite Hw. change (notified (hd [] (windows s)) (windowed (spend s1))) with (heard c s).
  destruct (notify_future (self (heard c s))) as [[|b|e|]|]; done.
Qed.

(** X1. When the Bluetooth module echoes [AT+NAME?] or [AT+ADV?] while an
    exchange waits for the rest of its answer, the handler fails the future
    with [BadConnectionError] and leaves the echo out of the buffer.
    [_async_send_command] catches the error, logs that it needed to
    disconnect, and returns an empty answer; each chunk that comes after the
    echo is dropped with a warning.  (Here and in X2 and X3 the write has
    returned and the timeout of the poll does not fire during the
    exchange.) *)
Theorem at_echo_ends_exchange
    (c : Command) (frames later : list bytes) (echo : bytes) (s : Sys) :
  fuse_allows 2 s = true →
  hd Done (replies s) = Done →
  hd [] (windows s) = frames ++ echo :: later →
  echo = AT_NAME ∨ echo = AT_ADV →
  forallb is_payload frames = true →
  forallb (incomplete c) (accumulate [] frames) = true →
  let run := _async_send_command c s in
  run.1 = Ret []
  ∧ notify_future (self run.2) = Some (Failed BadConnectionError)
  ∧ notify_response (self run.2) = concat frames
  ∧ trace run.2
    = trace s
      ++ [Log Debug (Requesting c); Call (WriteGattChar (encode c)) Returned]
      ++ replicate (length later) (Log Warning UnexpectedNotification)
      ++ [Call WaitFor (Raised BadConnectionError); Log Warning NeededToDisconnect].
Proof.
  intros Hfuse Hreply Hwindow Hecho Hpay Hacc run.
  set (r1 := with_notify_response (concat frames) (awaiting c (self s))).
  set (r2 := with_notify_future (Some (Failed BadConnectionError)) r1).
  assert (Hdeliver : deliver (frames ++ echo :: later) (awaiting c (self s))
            = (r2, replicate (length later) (Log Warning UnexpectedNotification))).
  { rewrite deliver_app, (deliver_appends c frames); [|done..].
    change (notify_response (awaiting c (self s)) ++ concat frames) with (concat frames).
    fold r1. cbn [deliver].
    assert (Hh : _notification_handler echo r1 = (r2, [])).
    { unfold _notification_handler. cbn.
      destruct Hecho as [-> | ->].
      - by rewrite bool_decide_eq_true_2.
      - rewrite (bool_decide_eq_true_2 (AT_ADV = AT_ADV)) by done.
        by rewrite orb_true_r. }
    rewrite Hh, deliver_discards by done. done. }
  assert (Hself : self (heard c s) = r2) by (by rewrite self_heard, Hwindow, Hdeliver).
  assert (Htrace : trace (heard c s)
            = trace s ++ [Log Debug (Requesting c); Call (WriteGattChar (encode c)) Returned]
                ++ replicate (length later) (Log Warning UnexpectedNotification))
    by (by rewrite trace_heard, Hwindow, Hdeliver).
  unfold run. rewrite send_heard, Hself by done. cbn.
  rewrite Hself, Htrace. cbn. by rewrite <-!app_assoc.
Qed.

(** X2. When a chunk makes the buffer a Modbus exception answer to the
    command, of another length than the answer expected, the handler fails
    the future with [ModbusError] carrying the third byte of the buffer.
    [_async_send_command] catches it, logs the invalid request, and returns
    an empty answer; each later chunk is dropped with a warning. *)
Theorem modbus_exception_ends_exchange
    (c : Command) (frames later : list bytes) (last : bytes) (code : byte) (s : Sys) :
  fuse_allows 2 s = true →
  hd Done (replies s) = Done →
  hd [] (windows s) = frames ++ last :: later →
  forallb is_payload (frames ++ [last]) = true →
  forallb (incomplete c) (accumulate [] frames) = true →
  let buf := concat frames ++ last in
  length buf ≠ response_size c →
  is_exception_response c buf = true →
  buf !! 2%nat = Some code →
  let run := _async_send_command c s in
  run.1 = Ret []
  ∧ notify_future (self run.2) = Some (Failed (ModbusError code))
  ∧ notify_response (self run.2) = buf
  ∧ trace run.2
    = trace s
      ++ [Log Debug (Requesting c); Call (WriteGattChar (encode c)) Returned]
      ++ replicate (length later) (Log Warning UnexpectedNotification)
      ++ [Call WaitFor (Raised (ModbusError code)); Log Warning (InvalidRequest c)].
Proof.
  intros Hfuse Hreply Hwindow Hpay Hacc buf Hlen Hexc Hcode run.
  rewrite forallb_app in Hpay. apply andb_prop in Hpay as [Hpay Hlast].
  simpl in Hlast. rewrite andb_true_r in Hlast.
  set (r1 := with_notify_response (concat frames) (awaiting c (self s))).
  set (r2 := with_notify_future (Some (Failed (ModbusError code)))
               (with_notify_response buf r1)).
  assert (Hdeliver : deliver (frames ++ last :: later) (awaiting c (self s))
            = (r2, replicate (length later) (Log Warning UnexpectedNotification))).
  { rewrite deliver_app, (deliver_appends c frames); [|done..].
    change (notify_response (awaiting c (self s)) ++ concat frames) with (concat frames).
    fold r1. cbn [deliver].
    assert (Hh : _notification_handler last r1 = (r2, [])).
    { unfold _notification_handler, is_payload in *. cbn -[AT_NAME AT_ADV].
      apply negb_true_iff in Hlast. rewrite Hlast. fold buf.
      by rewrite (bool_decide_eq_false_2 _ Hlen), Hexc, Hcode. }
    rewrite Hh, deliver_discards by done. done. }
  assert (Hself : self (heard c s) = r2) by (by rewrite self_heard, Hwindow, Hdeliver).
  assert (Htrace : trace (heard c s)
            = trace s ++ [Log Debug (Requesting c); Call (WriteGattChar (encode c)) Returned]
                ++ replicate (length later) (Log Warning UnexpectedNotification))
    by (by rewrite trace_heard, Hwindow, Hdeliver).
  unfold run. rewrite send_heard, Hself by done. cbn.
  rewrite Hself, Htrace. cbn. by rewrite <-!app_assoc.
Qed.

Lemma accumulate_app (buf : bytes) (frames1 frames2 : list bytes) :
  accumulate buf (frames1 ++ frames2)
  = accumulate buf frames1 ++ accumulate (buf ++ concat frames1) frames2.
Proof.
  revert buf. induction frames1 as [|data frames1 IH]; intros buf; simpl.
  - by rewrite app_nil_r.
  - by rewrite IH, <-app_assoc.
Qed.

Lemma accumulate_longer (n : nat) (buf : bytes) (frames : list bytes) :
  (n < length buf)%nat →
  Forall (λ b, n < length b)%nat (accumulate buf frames).
Proof.
  revert buf. induction frames as [|data frames IH]; intros buf Hn; simpl; [done|].
  assert (n < length (buf ++ data))%nat by (rewrite length_app; lia).
  apply Forall_cons. split; [done | by apply IH].
Qed.

(** X3. The handler accepts an answer only when the buffer has exactly the
    expected length.  Once the chunks have taken the buffer past that length
    without making it an exception answer, nothing resolves the future: the
    buffer keeps every chunk, the wait times out, and
    [_async_send_command] logs the timeout and returns an empty answer. *)
Theorem overlong_answer_times_out
    (c : Command) (frames later : list bytes) (over : bytes) (s : Sys) :
  fuse_allows 2 s = true →
  hd Done (replies s) = Done →
  hd [] (windows s) = frames ++ over :: later →
  forallb is_payload (frames ++ over :: later) = true →
  forallb (incomplete c) (accumulate [] frames) = true →
  (response_size c < length (concat frames ++ over))%nat →
  forallb (λ buf, negb (is_exception_response c buf))
    (accumulate (concat frames) (over :: later)) = true →
  let run := _async_send_command c s in
  run.1 = Ret []
  ∧ notify_future (self run.2) = Some Cancelled
  ∧ notify_response (self run.2) = concat (frames ++ over :: later)
  ∧ trace run.2
    = trace s
      ++ [Log Debug (Requesting c); Call (WriteGattChar (encode c)) Returned;
          Call WaitFor (Raised TimeoutError); Log Warning SingleCommandTimedOut].
Proof.
  intros Hfuse Hreply Hwindow Hpay Hacc Hover Hexc run.
  assert (Hinc : forallb (incomplete c) (accumulate [] (frames ++ over :: later)) = true).
  { rewrite accumulate_app, forallb_app, Hacc. cbn [andb app].
    apply forallb_forall. intros buf Hin.
    apply (proj1 (forallb_forall _ _) Hexc) in Hin as Hb.
    unfold incomplete. rewrite Hb, andb_true_r. apply negb_true_iff, bool_decide_eq_false_2.
    assert (Hlong : Forall (λ b, response_size c < length b)%nat
              (accumulate (concat frames) (over :: later))).
    { cbn [accumulate]. apply Forall_cons. split; [done|].
      by apply accumulate_longer. }
    rewrite Forall_forall in Hlong. apply list_elem_of_In, Hlong in Hin. lia. }
  assert (Hdeliver : deliver (frames ++ over :: later) (awaiting c (self s))
            = (with_notify_response (concat (frames ++ over :: later))
                 (awaiting c (self s)), []))
    by (by rewrite (deliver_appends c)).
  assert (Hself : self (heard c s)
            = with_notify_response (concat (frames ++ over :: later)) (awaiting c (self s)))
    by (by rewrite self_heard, Hwindow, Hdeliver).
  assert (Htrace : trace (heard c s)
            = trace s ++ [Log Debug (Requesting c); Call (WriteGattChar (encode c)) Returned])
    by (by rewrite trace_heard, Hwindow, Hdeliver).
  unfold run. rewrite send_heard, Hself by done. cbn.
  rewrite Hself, Htrace. cbn. by rewrite <-!app_assoc.
Qed.

(** X4. When the write of the request raises, [_async_send_command] never
    waits.  An exception it has a clause for is logged and an empty answer
    returned; any other is raised to the caller.  Either way the reader is
    left as the start of the exchange made it, with the future still
    pending, and no notification has been handled.  (The timeout of the
    poll has not fired when the exchange starts.) *)
Theorem failed_write_leaves_exchange_pending (c : Command) (e : exn) (s : Sys) :
  fired s = false →
  hd Done (replies s) = Fails e →
  let run := _async_send_command c s in
  run.1 = (if caught_by_send e then Ret [] else Raise e)
  ∧ trace run.2
    = trace s
      ++ [Log Debug (Requesting c); Call (WriteGattChar (encode c)) (Raised e)]
      ++ (if caught_by_send e then [Log Warning (send_warning c e)] else [])
  ∧ self run.2 = awaiting c (self s)
  ∧ pending (self run.2) = true
  ∧ windows run.2 = windows s.
Proof.
  intros Hfired Hreply run. unfold run.
  rewrite send_eq. cbn zeta. rewrite call_eq. cbn [andb].
  set (s0 := record (Log Debug (Requesting c)) (set_self (awaiting c) s)).
  assert (Hf0 : fired s0 = false) by done.
  assert (Hr0 : hd Done (replies s0) = Fails e) by done.
  rewrite Hf0, Hr0. cbn zeta.
  destruct e; cbn; autorewrite with sys; cbn; rewrite <-?app_assoc; done.
Qed.

(** X5. However [_async_send_command] ends, the future it installed is
    still pending afterwards exactly when the wait on it was never
    reached. *)
Theorem exchange_is_pending_iff_not_waited (c : Command) (s : Sys) :
  let run := _async_send_command c s in
  ∃ evs,
    trace run.2 = trace s ++ evs
    ∧ pending (self run.2) = negb (existsb waited evs).
Proof.
  intros run. unfold run.
  rewrite send_eq. cbn zeta. rewrite call_eq. cbn [andb].
  set (s0 := record (Log Debug (Requesting c)) (set_self (awaiting c) s)).
  assert (Herr : ∀ e (s2 : Sys) evs,
            trace s2 = trace s ++ evs →
            ∃ evs', trace (on_send_error c e s2).2 = trace s ++ evs'
                    ∧ existsb waited evs' = existsb waited evs
                    ∧ self (on_send_error c e s2).2 = self s2).
  { intros e s2 evs Htr.
    destruct e; cbn; rewrite ?Htr, <-?app_assoc;
      eexists; (split; [reflexivity|]); rewrite ?existsb_app; cbn;
      by rewrite ?orb_false_r. }
  destruct (fired s0) eqn:Hf0.
  { eexists [_; _]. cbn. split; [by rewrite <-app_assoc|done]. }
  cbn zeta.
  destruct (hd Done (replies s0)) as [|e] eqn:Hr0.
  2:{ destruct (Herr e (record (Call (WriteGattChar (encode c)) (Raised e))
                          (answered (spend s0)))
                  [Log Debug (Requesting c); Call (WriteGattChar (encode c)) (Raised e)])
        as (evs' & Htr & Hw & Hself).
      { cbn. autorewrite with sys. cbn. by rewrite <-app_assoc. }
      exists evs'. rewrite Htr, Hw, Hself. cbn. by autorewrite with sys. }
  rewrite wait_eq.
  set (s1 := record _ (answered (spend s0))).
  assert (Htr1 : trace s1
            = trace s ++ [Log Debug (Requesting c); Call (WriteGattChar (encode c)) Returned]).
  { unfold s1. cbn. autorewrite with sys. cbn. by rewrite <-app_assoc. }
  assert (Hself1 : notify_future (self s1) = Some Pending)
    by (unfold s1; cbn; by autorewrite with sys).
  clearbody s1.
  destruct (fired s1).
  { exists [Log Debug (Requesting c); Call (WriteGattChar (encode c)) Returned;
            Call WaitFor Interrupted].
    cbn [fst snd trace record self set_self]. rewrite Htr1, <-app_assoc.
    split; [done|]. unfold pending, cancel_future. by rewrite Hself1. }
  cbn zeta. set (s2 := notified _ _).
  assert (Htr2 : trace s2 = trace s
            ++ [Log Debug (Requesting c); Call (WriteGattChar (encode c)) Returned]
            ++ (deliver (hd [] (windows s1)) (self s1)).2).
  { unfold s2. autorewrite with sys. by rewrite Htr1, <-app_assoc. }
  set (logged := (deliver _ _).2) in *. clearbody s2 logged.
  assert (Hlogged : ∀ o, existsb waited (logged ++ [Call WaitFor o]) = true).
  { intros o. rewrite existsb_app. cbn. by rewrite orb_true_r. }
  set (pre := [Log Debug (Requesting c); Call (WriteGattChar (encode c)) Returned]) in *.
  assert (Hdone : ∀ (tail : list event) (s3 : Sys),
            trace s3 = trace s2 ++ tail →
            existsb waited tail = true →
            pending (self s3) = false →
            ∃ evs, trace s3 = trace s ++ evs
                   ∧ pending (self s3) = negb (existsb waited evs)).
  { intros tail s3 Htr3 Htail Hpend. exists (pre ++ logged ++ tail).
    rewrite Htr3, Htr2, Hpend, !existsb_app, Htail, !orb_true_r, <-!app_assoc.
    done. }
  destruct (notify_future (self s2)) as [[|b|e|]|] eqn:Hfut.
  - apply (Hdone [Call WaitFor (Raised TimeoutError); Log Warning SingleCommandTimedOut]);
      [cbn; by rewrite <-app_assoc | done |].
    unfold pending, cancel_future. cbn. by rewrite Hfut.
  - apply (Hdone [Call WaitFor Returned; Log Debug (GotBytes (length b))]);
      [cbn; by rewrite <-app_assoc | done |].
    unfold pending. cbn. by rewrite Hfut.
  - assert (Hpend : pending (self s2) = false) by (unfold pending; by rewrite Hfut).
    destruct e.
    + by apply (Hdone [Call WaitFor (Raised TimeoutError); Log Warning SingleCommandTimedOut]);
        [cbn; by rewrite <-app_assoc | done |].
    + by apply (Hdone [Call WaitFor (Raised BleakError); Log Warning NeededToDisconnect]);
        [cbn; by rewrite <-app_assoc | done |].
    + by apply (Hdone [Call WaitFor (Raised BadConnectionError);
                       Log Warning NeededToDisconnect]);
        [cbn; by rewrite <-app_assoc | done |].
    + by apply (Hdone [Call WaitFor (Raised (ModbusError code));
                       Log Warning (InvalidRequest c)]);
        [cbn; by rewrite <-app_assoc | done |].
    + by apply (Hdone [Call WaitFor (Raised ParseError)]).
    + by apply (Hdone [Call WaitFor (Raised OtherError)]).
  - apply (Hdone [Call WaitFor Interrupted]); [done..|].
    unfold pending. cbn. by rewrite Hfut.
  - apply (Hdone [Call WaitFor (Raised OtherError)]); [done..|].
    unfold pending. cbn. by rewrite Hfut.
Qed.

End exchange_ends.

(** The module echoing [AT+NAME?] instead of answering. *)
Lemma at_echo_ends_exchange_witness :
  let s := Sample.answers [] [[AT_NAME]] (Sample.idle (Some Sample.device) false) in
  let run := _async_send_command (H := Sample.modbus) Sample.read_battery s in
  run.1 = Ret [] ∧ notify_future (self run.2) = Some (Failed BadConnectionError).
Proof.
  intros s run.
  destruct (at_echo_ends_exchange (H := Sample.modbus) Sample.read_battery [] [] AT_NAME s)
    as (Hret & Hfut & _); [reflexivity | reflexivity | reflexivity | by left
                          | reflexivity | reflexivity |].
  split; [exact Hret | exact Hfut].
Defined.

(** The device answering a read with exception code 2, in two chunks. *)
Lemma modbus_exception_ends_exchange_witness :
  let s := Sample.answers [] [[[x01]; [x83; x02; xc0; xf1]]]
             (Sample.idle (Some Sample.device) false) in
  let run := _async_send_command (H := Sample.modbus) Sample.read_battery s in
  run.1 = Ret [] ∧ notify_future (self run.2) = Some (Failed (ModbusError x02)).
Proof.
  intros s run.
  destruct (modbus_exception_ends_exchange (H := Sample.modbus) Sample.read_battery
              [[x01]] [] [x83; x02; xc0; xf1] x02 s)
    as (Hret & Hfut & _);
    [reflexivity | reflexivity | reflexivity | reflexivity | reflexivity
    | vm_compute; lia | reflexivity | reflexivity |].
  split; [exact Hret | exact Hfut].
Defined.

(** The answer to the battery command with one byte too many. *)
Lemma overlong_answer_times_out_witness :
  let s := Sample.answers [] [[battery_response ++ [x00]]]
             (Sample.idle (Some Sample.device) false) in
  let run := _async_send_command (H := Sample.modbus) Sample.read_battery s in
  run.1 = Ret [] ∧ notify_future (self run.2) = Some Cancelled.
Proof.
  intros s run.
  destruct (overlong_answer_times_out (H := Sample.modbus) Sample.read_battery
              [] [] (battery_response ++ [x00]) s)
    as (Hret & Hfut & _);
    [reflexivity | reflexivity | reflexivity | reflexivity | reflexivity
    | vm_compute; lia | reflexivity |].
  split; [exact Hret | exact Hfut].
Defined.

Lemma failed_write_leaves_exchange_pending_witness :
  let s := Sample.answers [Fails BleakError] [] (Sample.idle (Some Sample.device) false) in
  let run := _async_send_command (H := Sample.modbus) Sample.read_battery s in
  run.1 = Ret [] ∧ pending (self run.2) = true.
Proof.
  intros s run.
  destruct (failed_write_leaves_exchange_pending (H := Sample.modbus)
              Sample.read_battery BleakError s)
    as (Hret & _ & _ & Hpending & _); [reflexivity | reflexivity |].
  split; [exact Hret | exact Hpending].
Defined.

(** ** The requests of a poll *)

Section requesting.
Context `{!Codec}.

Lemma requests_app (evs1 evs2 : list event) :
  requests (evs1 ++ evs2) = requests evs1 ++ requests evs2.
Proof. apply omap_app. Qed.

Lemma always_requests_ret {A} (a : A) : always_requests (ret a) [].
Proof. intros s. exists []. simpl. by rewrite app_nil_r. Qed.

Lemma always_requests_log (l : level) (m : message) : always_requests (log l m) [].
Proof. intros s. by exists [Log l m]. Qed.

Lemma always_requests_bind {A B} (m : M A) (k : A → M B) (p : list op) :
  always_requests m p → (∀ a, always_requests (k a) []) →
  always_requests (m ≫= k) p.
Proof.
  intros Hm Hk s. rewrite bind_unfold.
  destruct (Hm s) as (evs1 & Htr1 & Hp1).
  destruct (m s) as [[a|e|] s1]; simpl in *; [|by exists evs1..].
  destruct (Hk a s1) as (evs2 & Htr2 & Hp2).
  exists (evs1 ++ evs2).
  by rewrite Htr2, Htr1, app_assoc, requests_app, Hp1, Hp2, app_nil_r.
Qed.

Lemma always_requests_try_except {A} (m : M A) (h : exn → option (M A))
    (p : list op) :
  always_requests m p → (∀ e k, h e = Some k → always_requests k []) →
  always_requests (try_except m h) p.
Proof.
  intros Hm Hh s. unfold try_except.
  destruct (Hm s) as (evs1 & Htr1 & Hp1).
  destruct (m s) as [[a|e|] s1]; simpl in *; [by exists evs1| |by exists evs1].
  destruct (h e) as [k|] eqn:He; [|by exists evs1].
  destruct (Hh e k He s1) as (evs2 & Htr2 & Hp2).
  exists (evs1 ++ evs2).
  by rewrite Htr2, Htr1, app_assoc, requests_app, Hp1, Hp2, app_nil_r.
Qed.

Lemma always_requests_follows {A} (m : M A) (p : list op) :
  always_requests m p → follows m p.
Proof.
  intros Hm s. destruct (Hm s) as (evs & Htr & Hp).
  exists evs. by rewrite Hp.
Qed.

Lemma follows_bind {A B} (m : M A) (k : A → M B) (p1 p2 : list op) :
  follows m p1 → (∀ a, follows (k a) p2) → follows (m ≫= k) (p1 ++ p2).
Proof.
  intros Hm Hk s. rewrite bind_unfold.
  destruct (Hm s) as (evs1 & Htr1 & Hpre1 & Hall1).
  destruct (m s) as [[a|e|] s1]; simpl in *;
    [|exists evs1; split; [done|]; split; [by apply prefix_app_r|done]..].
  destruct (Hk a s1) as (evs2 & Htr2 & Hpre2 & Hall2).
  exists (evs1 ++ evs2).
  rewrite Htr2, Htr1, app_assoc, requests_app, (Hall1 eq_refl).
  split; [done|]. split; [by apply prefix_app|].
  intros Hret. by rewrite (Hall2 Hret).
Qed.

Lemma handler_requests (data : bytes) (r : Reader) :
  requests (_notification_handler data r).2 = [].
Proof.
  unfold _notification_handler.
  destruct (notify_future r) as [fut|]; [|done].
  destruct (done fut); [done|].
  destruct (_ || _); [done|].
  destruct (current_command r) as [c|]; [|done].
  destruct (bool_decide _); [by destruct (is_valid_response _ _)|].
  destruct (is_exception_response _ _); [|done].
  by destruct (_ !! _).
Qed.

Lemma deliver_requests (frames : list bytes) (r : Reader) :
  requests (deliver frames r).2 = [].
Proof.
  revert r. induction frames as [|data frames IH]; intros r; simpl; [done|].
  pose proof (handler_requests data r) as Hh.
  destruct (_notification_handler data r) as [r1 l1].
  specialize (IH r1). destruct (deliver frames r1) as [r2 l2]. simpl in *.
  by rewrite requests_app, Hh, IH.
Qed.

Lemma on_send_error_requests (c : Command) (e : exn) (s : Sys) :
  ∃ logged, trace (on_send_error c e s).2 = trace s ++ logged ∧ requests logged = [].
Proof.
  destruct e; simpl; try (exists []; by rewrite app_nil_r); by eexists [_].
Qed.

(** An exchange writes its command once, whatever way it ends, and makes no
    other request. *)
Lemma always_requests_send (c : Command) :
  always_requests (_async_send_command c) [request c].
Proof.
  intros s. rewrite send_eq. cbn zeta. rewrite call_eq. cbn [andb].
  set (s0 := record (Log Debug (Requesting c)) (set_self (awaiting c) s)).
  assert (Htr0 : trace s0 = trace s ++ [Log Debug (Requesting c)]) by done.
  clearbody s0.
  destruct (fired s0).
  { exists [Log Debug (Requesting c); Call (WriteGattChar (encode c)) Interrupted].
    cbn [fst snd trace record]. by rewrite Htr0, <-app_assoc. }
  cbn zeta.
  destruct (hd Done (replies s0)) as [|e].
  2:{ destruct (on_send_error_requests c e
                  (record (Call (WriteGattChar (encode c)) (Raised e))
                     (answered (spend s0)))) as (logged & Htr & Hp).
      exists ([Log Debug (Requesting c); Call (WriteGattChar (encode c)) (Raised e)]
              ++ logged).
      rewrite Htr, requests_app, Hp. cbn [trace record]. autorewrite with sys.
      by rewrite Htr0, <-!app_assoc. }
  rewrite wait_eq.
  set (s1 := record _ (answered (spend s0))).
  set (pre := [Log Debug (Requesting c); Call (WriteGattChar (encode c)) Returned]).
  assert (Htr1 : trace s1 = trace s ++ pre).
  { unfold s1. cbn [trace record]. autorewrite with sys. by rewrite Htr0, <-app_assoc. }
  clearbody s1.
  destruct (fired s1).
  { exists (pre ++ [Call WaitFor Interrupted]).
    cbn [fst snd trace record self set_self]. by rewrite Htr1, <-app_assoc. }
  cbn zeta. set (s2 := notified _ _).
  pose proof (deliver_requests (hd [] (windows s1)) (self s1)) as Hlogged.
  assert (Htr2 : trace s2
            = trace s ++ pre ++ (deliver (hd [] (windows s1)) (self s1)).2).
  { unfold s2. autorewrite with sys. by rewrite Htr1, <-app_assoc. }
  set (logged := (deliver _ _).2) in *. clearbody s2 logged.
  assert (Hend : ∀ (tail : list event) (s3 : Sys),
            trace s3 = trace s2 ++ tail → requests tail = [] →
            ∃ evs, trace s3 = trace s ++ evs ∧ requests evs = [request c]).
  { intros tail s3 Htr3 Htail. exists (pre ++ logged ++ tail).
    rewrite Htr3, Htr2, !requests_app, Hlogged, Htail, <-!app_assoc. done. }
  destruct (notify_future (self s2)) as [[|b|e|]|].
  - by apply (Hend [Call WaitFor (Raised TimeoutError); Log Warning SingleCommandTimedOut]);
      [cbn; by rewrite <-app_assoc|].
  - by apply (Hend [Call WaitFor Returned; Log Debug (GotBytes (length b))]);
      [cbn; by rewrite <-app_assoc|].
  - destruct (on_send_error_requests c e (record (Call WaitFor (Raised e)) s2))
      as (tail & Htr & Hp).
    apply (Hend (Call WaitFor (Raised e) :: tail)).
    + rewrite Htr. cbn. by rewrite <-app_assoc.
    + done.
  - by apply (Hend [Call WaitFor Interrupted]).
  - by apply (Hend [Call WaitFor (Raised OtherError)]).
Qed.

Lemma always_requests_sleep (n : nat) : always_requests (sleep n) [Sleep n].
Proof.
  intros s. rewrite sleep_eq.
  destruct (fired s); eexists [_]; simpl; by autorewrite with sys.
Qed.

Lemma follows_poll_commands (dev : Device) (commands : list Command)
    (parsed_data : gmap string value) :
  follows (poll_commands dev commands parsed_data) (request <$> commands).
Proof.
  revert parsed_data. induction commands as [|c commands IH]; intros parsed_data.
  - apply always_requests_follows, always_requests_ret.
  - cbn [poll_commands].
    apply (follows_bind _ _ [request c]); [|done].
    apply always_requests_follows, always_requests_try_except.
    + apply always_requests_bind; [apply always_requests_send|intros res].
      apply always_requests_bind; [apply always_requests_log|intros _].
      apply always_requests_bind; [apply always_requests_log|intros _].
      apply always_requests_ret.
    + intros [] k [= <-].
      apply always_requests_bind; [apply always_requests_log|intros ?].
      apply always_requests_ret.
Qed.

Lemma follows_poll_pack_commands (dev : Device) (pack : nat)
    (commands : list Command) (parsed_data : gmap string value) :
  follows (poll_pack_commands dev pack commands parsed_data) (request <$> commands).
Proof.
  revert parsed_data. induction commands as [|c commands IH]; intros parsed_data.
  - apply always_requests_follows, always_requests_ret.
  - cbn [poll_pack_commands].
    apply (follows_bind _ _ [request c]); [|done].
    apply always_requests_follows, always_requests_try_except.
    + apply always_requests_bind; [apply always_requests_send|intros res].
      apply always_requests_bind; [apply always_requests_log|intros ?].
      destruct (_ || _); [|apply always_requests_ret].
      apply always_requests_bind; [apply always_requests_log|intros ?].
      apply always_requests_ret.
    + intros [] k [= <-].
      apply always_requests_bind; [apply always_requests_log|intros ?].
      apply always_requests_ret.
Qed.

Lemma follows_poll_packs (dev : Device) (pack_commands : list Command)
    (packs : list nat) (parsed_data : gmap string value) :
  follows (poll_packs dev pack_commands packs parsed_data)
    (flat_map (pack_plan dev pack_commands) packs).
Proof.
  revert parsed_data. induction packs as [|pack packs IH]; intros parsed_data.
  - apply always_requests_follows, always_requests_ret.
  - cbn [poll_packs flat_map]. unfold pack_plan at 1.
    apply (follows_bind _ _ [_]);
      [apply always_requests_follows, always_requests_send|intros ?].
    apply (follows_bind _ _ [_]);
      [apply always_requests_follows, always_requests_sleep|intros ?].
    apply follows_bind; [apply follows_poll_pack_commands|done].
Qed.

Lemma follows_call (o : op) :
  (o = Connect ∨ o = StartNotify) → always_requests (call true o) [].
Proof.
  intros Ho s. rewrite call_eq. cbn [andb].
  assert (Hreq : ∀ r, requests [Call o r] = []) by (intros r; by destruct Ho as [-> | ->]).
  destruct (fired s); [by exists [Call o Interrupted]|].
  cbn zeta. destruct (hd Done (replies s)) as [|e].
  - exists [Call o Returned]. cbn [fst snd trace record]. by autorewrite with sys.
  - exists [Call o (Raised e)]. cbn [fst snd trace record]. by autorewrite with sys.
Qed.

Lemma always_requests_modify (f : Sys → Sys) :
  (∀ s, trace (f s) = trace s) → always_requests (modify f) [].
Proof. intros Hf s. exists []. simpl. by rewrite Hf, app_nil_r. Qed.

Lemma always_requests_connect : always_requests (connect true) [].
Proof.
  apply always_requests_bind; [apply follows_call; auto|intros _].
  by apply always_requests_modify.
Qed.

Lemma follows_poll_body (dev : Device) (polling pack_commands : list Command) :
  follows (poll_body dev polling pack_commands) (plan dev polling pack_commands).
Proof.
  unfold poll_body.
  apply (follows_bind _ _ []).
  { apply always_requests_follows. intros s. rewrite reconnect_eq.
    destruct (_ || _); [exists []; simpl; by rewrite app_nil_r|].
    apply always_requests_connect. }
  intros _. apply (follows_bind _ _ []).
  { apply always_requests_follows. intros s. rewrite attach_notifier_eq.
    destruct (has_notifier (self s)); [exists []; simpl; by rewrite app_nil_r|].
    destruct (follows_call StartNotify (or_intror eq_refl) s) as (evs & Htr & Hp).
    exists evs. by destruct (call true StartNotify s) as [[[]|e|] s1]. }
  intros _. cbn [app]. unfold plan.
  apply follows_bind; [apply follows_poll_commands|intros parsed_data].
  unfold poll_battery_packs. case_bool_decide.
  - apply (follows_bind _ _ []);
      [apply always_requests_follows, always_requests_log|intros _].
    apply follows_poll_packs.
  - apply always_requests_follows, always_requests_ret.
Qed.

(** The [finally] clause of [read_data] makes teardown calls only. *)
Lemma teardown_calls (s : Sys) :
  ∃ td, trace (teardown s).2 = trace s ++ td ∧ forallb teardown_call td = true.
Proof.
  rewrite teardown_eq.
  destruct (persistent_conn (self s)).
  { exists []. simpl. by rewrite app_nil_r. }
  destruct (has_notifier (self s)).
  - destruct (hd Done (replies s)) as [|e].
    + set (s1 := set_self _ _).
      destruct (disconnect_events s1) as (o & Htr & _).
      exists [Call StopNotify Returned; Call Disconnect o].
      rewrite Htr. unfold s1. simpl. autorewrite with sys. by rewrite <-app_assoc.
    + exists [Call StopNotify (Raised e)]. simpl. by autorewrite with sys.
  - destruct (disconnect_events s) as (o & Htr & _).
    by exists [Call Disconnect o].
Qed.

Lemma teardown_call_requests (evs : list event) :
  forallb teardown_call evs = true → requests evs = [].
Proof.
  induction evs as [|ev evs IH]; [done|]. simpl.
  intros [Hev Hevs]%andb_prop. cbn [requests omap] in *.
  destruct ev as [|[] ?| | | |]; try done; by apply IH.
Qed.

Lemma on_poll_outcome_requests (r : res (gmap string value)) (s : Sys) :
  ∃ logged, trace (on_poll_outcome r s).2 = trace s ++ logged ∧ requests logged = [].
Proof.
  destruct r as [m|[]|]; simpl;
    try (exists []; by rewrite app_nil_r); by eexists [_].
Qed.

(** X6. What [read_data] writes to the device, and the delays it takes, are
    a prefix of one fixed plan: every polling command in order and then, if
    there are pack commands, for each pack from 1 to [pack_num_max] the
    write that selects the pack, a sleep of 5 seconds, and every pack
    command in order.  When [read_data] returns a map the whole plan was
    carried out. *)
Theorem commands_are_requested_in_order
    (filter_registers : option (list Command)) (dev : Device) (s : Sys) :
  bluetti_device (self s) = Some dev →
  let polling := from_option id (polling_commands dev) filter_registers in
  let pack_commands :=
    match filter_registers with
    | Some _ => []
    | None => pack_polling_commands dev
    end in
  let run := read_data filter_registers s in
  ∃ evs,
    trace run.2 = trace s ++ evs
    ∧ requests evs `prefix_of` plan dev polling pack_commands
    ∧ (∀ m, run.1 = Ret (Some m) → requests evs = plan dev polling pack_commands).
Proof.
  intros Hdev polling pack_commands run. unfold run.
  rewrite (read_data_eq _ dev) by done. cbn zeta. fold polling pack_commands.
  set (s0 := record Acquire _).
  destruct (follows_poll_body dev polling pack_commands s0) as (body & Htr & Hpre & Hall).
  destruct (poll_body dev polling pack_commands s0) as [r s1]. cbn [fst snd] in *.
  destruct (on_poll_outcome_requests r s1) as (logged & Htr1 & Hp1).
  destruct (teardown_calls (on_poll_outcome r s1).2) as (td & Htr2 & Htd).
  apply teardown_call_requests in Htd.
  exists ([Log Info ReadingData; Acquire] ++ body ++ logged ++ td ++ [Release]).
  assert (Hreq : requests ([Log Info ReadingData; Acquire] ++ body ++ logged
                           ++ td ++ [Release]) = requests body).
  { rewrite !requests_app, Hp1, Htd. cbn. by rewrite app_nil_r. }
  rewrite Hreq. split; [|split; [done|]].
  - cbn [trace record snd]. rewrite Htr2, Htr1, Htr. unfold s0. cbn [trace record].
    by rewrite <-!app_assoc.
  - intros m. destruct (teardown _) as [[[]|e|] s2]; cbn; [|done..].
    destruct r as [m'|[]|]; cbn; try done. intros _. by apply Hall.
Qed.

End requesting.

(** A poll of the sample device whose link answers every call: it writes the
    main command, then selects each of the two packs in turn, sleeps, and
    writes the pack command. *)
Lemma commands_are_requested_in_order_witness :
  let s := Sample.idle (Some Sample.device) false in
  ∃ evs,
    trace (read_data (H := Sample.modbus) None s).2 = trace s ++ evs
    ∧ requests evs
      = [request (H := Sample.modbus) Sample.read_battery;
         request (H := Sample.modbus) (mkCommand WriteSingleRegister 3006 1);
         Sleep 5;
         request (H := Sample.modbus) Sample.read_pack;
         request (H := Sample.modbus) (mkCommand WriteSingleRegister 3006 2);
         Sleep 5;
         request (H := Sample.modbus) Sample.read_pack].
Proof.
  intros s.
  destruct (commands_are_requested_in_order (H := Sample.modbus) None Sample.device s)
    as (evs & Htr & _ & Hall); [reflexivity|].
  exists evs. split; [exact Htr|].
  apply (Hall (default ∅ (match (read_data (H := Sample.modbus) None s).1 with
                          | Ret m => m | _ => None end))).
  vm_compute. reflexivity.
Defined.

(** ** The calls around the polling loops *)

Section shape.
Context `{!Codec}.

Lemma reconnect_run (s : Sys) :
  self (reconnect s).2 = self s
  ∧ if needs_connect s
    then ∃ o, trace (reconnect s).2 = trace s ++ [Call Connect o]
              ∧ is_ret (reconnect s).1 = bool_decide (o = Returned)
              ∧ is_connected (reconnect s).2 = bool_decide (o = Returned)
    else reconnect s = (Ret tt, s).
Proof.
  rewrite reconnect_eq. unfold needs_connect.
  destruct (_ || _) eqn:Hc; cbn [negb]; [done|].
  apply orb_false_elim in Hc as [_ Hc].
  rewrite connect_eq, call_eq. cbn [andb].
  destruct (fired s).
  { split; [done|]. exists Interrupted. cbn. by rewrite Hc. }
  cbn zeta. destruct (hd Done (replies s)) as [|e].
  - split; [cbn; by autorewrite with sys|]. exists Returned. cbn.
    by autorewrite with sys.
  - split; [cbn; by autorewrite with sys|]. exists (Raised e). cbn.
    autorewrite with sys. by rewrite Hc.
Qed.

Lemma attach_notifier_run (s : Sys) :
  is_connected (attach_notifier s).2 = is_connected s
  ∧ if has_notifier (self s)
    then attach_notifier s = (Ret tt, s)
    else ∃ o, trace (attach_notifier s).2 = trace s ++ [Call StartNotify o]
              ∧ is_ret (attach_notifier s).1 = bool_decide (o = Returned)
              ∧ self (attach_notifier s).2
                = if bool_decide (o = Returned)
                  then with_has_notifier true (self s) else self s.
Proof.
  rewrite attach_notifier_eq.
  destruct (has_notifier (self s)); [done|].
  rewrite call_eq. cbn [andb].
  destruct (fired s).
  { split; [done|]. by exists Interrupted. }
  cbn zeta. destruct (hd Done (replies s)) as [|e].
  - split; [cbn; by autorewrite with sys|]. exists Returned. cbn.
    by autorewrite with sys.
  - split; [cbn; by autorewrite with sys|]. exists (Raised e). cbn.
    by autorewrite with sys.
Qed.

(** The block under the timeout scope: the opening calls, then exchanges
    only, and none of these once an opening call has failed. *)
Lemma poll_body_shape (dev : Device) (polling pack_commands : list Command) (s : Sys) :
  let run := poll_body dev polling pack_commands s in
  ∃ opening exchanges,
    trace run.2 = trace s ++ opening ++ exchanges
    ∧ opened (needs_connect s) (negb (has_notifier (self s))) opening
    ∧ forallb loop_event exchanges = true
    ∧ (existsb call_failed opening = true → exchanges = [] ∧ is_ret run.1 = false)
    ∧ (is_ret run.1 = true →
         has_notifier (self run.2) = true
         ∧ is_connected run.2 = needs_connect s || is_connected s)
    ∧ persistent_conn (self run.2) = persistent_conn (self s).
Proof.
  intros run. unfold run, poll_body. rewrite bind_unfold.
  destruct (reconnect_run s) as [Hself0 Hconn].
  assert (Hrest : ∀ s1 pre,
            trace s1 = trace s ++ pre → self s1 = self s →
            existsb call_failed pre = false →
            is_connected s1 = needs_connect s || is_connected s →
            (∀ evs, opened false (negb (has_notifier (self s))) evs →
                    opened (needs_connect s) (negb (has_notifier (self s))) (pre ++ evs)) →
            let run := (attach_notifier ≫= λ _,
                          poll_commands dev polling ∅
                          ≫= poll_battery_packs dev pack_commands) s1 in
            ∃ opening exchanges,
              trace run.2 = trace s ++ opening ++ exchanges
              ∧ opened (needs_connect s) (negb (has_notifier (self s))) opening
              ∧ forallb loop_event exchanges = true
              ∧ (existsb call_failed opening = true →
                   exchanges = [] ∧ is_ret run.1 = false)
              ∧ (is_ret run.1 = true →
                   has_notifier (self run.2) = true
                   ∧ is_connected run.2 = needs_connect s || is_connected s)
              ∧ persistent_conn (self run.2) = persistent_conn (self s)).
  { intros s1 pre Htr1 Hself1 Hpre Hconn1 Hopen run1. unfold run1.
    rewrite bind_unfold.
    destruct (attach_notifier_run s1) as [Hconn2 Hattach].
    assert (Hloops : ∀ s2 mid,
              trace s2 = trace s1 ++ mid → existsb call_failed mid = false →
              opened false (negb (has_notifier (self s))) mid →
              has_notifier (self s2) = true →
              persistent_conn (self s2) = persistent_conn (self s) →
              is_connected s2 = is_connected s1 →
              let run := (poll_commands dev polling ∅
                          ≫= poll_battery_packs dev pack_commands) s2 in
              ∃ opening exchanges,
                trace run.2 = trace s ++ opening ++ exchanges
                ∧ opened (needs_connect s) (negb (has_notifier (self s))) opening
                ∧ forallb loop_event exchanges = true
                ∧ (existsb call_failed opening = true →
                     exchanges = [] ∧ is_ret run.1 = false)
                ∧ (is_ret run.1 = true →
                     has_notifier (self run.2) = true
                     ∧ is_connected run.2 = needs_connect s || is_connected s)
                ∧ persistent_conn (self run.2) = persistent_conn (self s)).
    { intros s2 mid Htr2 Hmid Hopen2 Hn2 Hp2 Hc2 run2. unfold run2.
      destruct (proj1 (poll_loops dev polling pack_commands) s2)
        as (evs & Htr & Hev & _ & Hset & Hc).
      injection Hset as _ Hp _ _ Hn.
      exists (pre ++ mid), evs.
      rewrite Htr, Htr2, Htr1, <-!app_assoc, existsb_app, Hpre, Hmid.
      split; [done|]. split; [by apply Hopen|]. split; [done|]. split; [done|].
      split; [|congruence]. intros _. split; congruence. }
    destruct (has_notifier (self s1)) eqn:Hn1.
    - rewrite Hattach.
      apply (Hloops s1 []); try done; [by rewrite app_nil_r| |by rewrite Hself1].
      rewrite <-Hself1, Hn1. by apply opened_nothing.
    - destruct Hattach as (o & Htr2 & Hret & Hself2).
      destruct (attach_notifier s1) as [[[]|e|] s2] eqn:Hrun; cbn [fst snd] in *.
      + symmetry in Hret. apply bool_decide_eq_true in Hret as ->.
        rewrite bool_decide_eq_true_2 in Hself2 by done.
        apply (Hloops s2 [Call StartNotify Returned]); try done.
        * rewrite <-Hself1, Hn1. by apply opened_subscribe.
        * by rewrite Hself2.
        * by rewrite Hself2, <-Hself1.
      + symmetry in Hret. apply bool_decide_eq_false in Hret.
        rewrite bool_decide_eq_false_2 in Hself2 by done.
        exists (pre ++ [Call StartNotify o]), [].
        rewrite Htr2, Htr1, app_nil_r, <-app_assoc.
        split; [done|]. split.
        { apply Hopen. rewrite <-Hself1, Hn1. by apply opened_subscribe. }
        split; [done|]. split; [done|]. split; [done|]. by rewrite Hself2, Hself1.
      + symmetry in Hret. apply bool_decide_eq_false in Hret.
        rewrite bool_decide_eq_false_2 in Hself2 by done.
        exists (pre ++ [Call StartNotify o]), [].
        rewrite Htr2, Htr1, app_nil_r, <-app_assoc.
        split; [done|]. split.
        { apply Hopen. rewrite <-Hself1, Hn1. by apply opened_subscribe. }
        split; [done|]. split; [done|]. split; [done|]. by rewrite Hself2, Hself1. }
  destruct (needs_connect s) eqn:Hneed.
  - destruct Hconn as (o & Htr1 & Hret & Hc1).
    destruct (reconnect s) as [[[]|e|] s1] eqn:Hrun; cbn [fst snd] in *.
    + symmetry in Hret. apply bool_decide_eq_true in Hret as ->.
      apply (Hrest s1 [Call Connect Returned]); try done.
      intros evs Hevs. inversion Hevs as [? Hs| |o' ? Hs|]; try done.
      * by apply opened_connect.
      * by apply opened_both.
    + symmetry in Hret. apply bool_decide_eq_false in Hret.
      exists [Call Connect o], []. rewrite Htr1, app_nil_r.
      split; [done|]. split; [by apply opened_connect|].
      split; [done|]. split; [done|]. split; [done|]. by rewrite Hself0.
    + symmetry in Hret. apply bool_decide_eq_false in Hret.
      exists [Call Connect o], []. rewrite Htr1, app_nil_r.
      split; [done|]. split; [by apply opened_connect|].
      split; [done|]. split; [done|]. split; [done|]. by rewrite Hself0.
  - rewrite Hconn. apply (Hrest s []); try done. by rewrite app_nil_r.
Qed.

Lemma on_poll_outcome_closing (r : res (gmap string value)) (s : Sys) :
  ∃ logged, trace (on_poll_outcome r s).2 = trace s ++ logged
            ∧ forallb closing_event logged = true
            ∧ self (on_poll_outcome r s).2 = self s
            ∧ is_connected (on_poll_outcome r s).2 = is_connected s.
Proof.
  destruct r as [m|[]|]; simpl;
    try (exists []; by rewrite app_nil_r); by eexists [_].
Qed.

Lemma teardown_closing (evs : list event) :
  forallb teardown_call evs = true → forallb closing_event evs = true.
Proof.
  induction evs as [|ev evs IH]; [done|]. simpl.
  intros [Hev Hevs]%andb_prop. rewrite IH by done.
  by destruct ev as [|[] ?| | | |].
Qed.

(** X7. Between taking and releasing the lock, [read_data] first opens the
    link, with at most one [connect] (made when a retry is allowed and the
    client is not connected) and at most one [start_notify] (made when no
    notifier is attached, and only once [connect] has returned); then come
    the events of the polling loops, none at all if an opening call failed;
    then only an error line and the calls of the [finally] clause. *)
Theorem poll_calls_in_order
    (filter_registers : option (list Command)) (dev : Device) (s : Sys) :
  bluetti_device (self s) = Some dev →
  ∃ opening exchanges closing,
    trace (read_data filter_registers s).2
    = trace s ++ [Log Info ReadingData; Acquire]
        ++ opening ++ exchanges ++ closing ++ [Release]
    ∧ opened (needs_connect s) (negb (has_notifier (self s))) opening
    ∧ forallb loop_event exchanges = true
    ∧ (existsb call_failed opening = true → exchanges = [])
    ∧ forallb closing_event closing = true.
Proof.
  intros Hdev. rewrite (read_data_eq _ dev) by done. cbn zeta.
  set (polling := from_option id _ _).
  set (pack_commands := match filter_registers with Some _ => [] | None => _ end).
  set (s0 := record Acquire _).
  destruct (poll_body_shape dev polling pack_commands s0)
    as (opening & exchanges & Htr & Hopen & Hev & Hfail & _).
  destruct (poll_body dev polling pack_commands s0) as [r s1]. cbn [fst snd] in *.
  destruct (on_poll_outcome_closing r s1) as (logged & Htr1 & Hl & _).
  destruct (teardown_calls (on_poll_outcome r s1).2) as (td & Htr2 & Htd).
  exists opening, exchanges, (logged ++ td).
  split; [|split; [done|split; [done|split]]].
  - cbn [trace record snd]. rewrite Htr2, Htr1, Htr. unfold s0. cbn [trace record].
    by rewrite <-!app_assoc.
  - intros Hf. by destruct (Hfail Hf).
  - by rewrite forallb_app, Hl, teardown_closing.
Qed.

Lemma poll_body_stays_connected
    (dev : Device) (polling pack_commands : list Command) (s : Sys) :
  is_connected s = true →
  is_connected (poll_body dev polling pack_commands s).2 = true.
Proof.
  intros Hc. unfold poll_body. rewrite bind_unfold.
  destruct (reconnect_run s) as [_ Hrun].
  unfold needs_connect in Hrun. rewrite Hc, orb_true_r in Hrun. cbn [negb] in Hrun.
  rewrite Hrun, bind_unfold.
  destruct (attach_notifier_run s) as [Hc1 _].
  destruct (attach_notifier s) as [[[]|e|] s1]; cbn [fst snd] in *; [|congruence..].
  destruct (proj1 (poll_loops dev polling pack_commands) s1) as (evs & _ & _ & _ & _ & Hc2).
  etrans; [exact Hc2|congruence].
Qed.

(** The [finally] clause of [read_data] on a connection that is not
    persistent: [stop_notify] raises and nothing else is done, or
    [disconnect] is called, after a [stop_notify] that returned when the
    notifier was subscribed. *)
Lemma teardown_run (s : Sys) :
  persistent_conn (self s) = false →
  (∃ e, has_notifier (self s) = true
        ∧ teardown s = (Raise e, record (Call StopNotify (Raised e)) (answered s)))
  ∨ (∃ o, trace (teardown s).2
          = trace s ++ (if has_notifier (self s) then [Call StopNotify Returned] else [])
              ++ [Call Disconnect o]
          ∧ has_notifier (self (teardown s).2) = false
          ∧ match o with
            | Returned => (teardown s).1 = Ret tt ∧ is_connected (teardown s).2 = false
            | Raised e => (teardown s).1 = Raise e
            | Interrupted => False
            end).
Proof.
  intros Hp. rewrite teardown_eq, Hp.
  destruct (has_notifier (self s)) eqn:Hn.
  - destruct (hd Done (replies s)) as [|e]; [|left; by exists e].
    right. rewrite disconnect_eq. set (s1 := set_self _ _).
    destruct (hd Done (replies s1)) as [|e].
    + exists Returned. unfold s1. simpl. autorewrite with sys. simpl.
      autorewrite with sys. by rewrite <-?app_assoc.
    + exists (Raised e). unfold s1. simpl. autorewrite with sys. simpl.
      autorewrite with sys. by rewrite <-?app_assoc.
  - right. rewrite disconnect_eq.
    destruct (hd Done (replies s)) as [|e].
    + exists Returned. cbn. by autorewrite with sys.
    + exists (Raised e). cbn. by autorewrite with sys.
Qed.

Lemma on_poll_outcome_raises (r : res (gmap string value)) (s : Sys) (e : exn) :
  (on_poll_outcome r s).1 = Raise e → caught_by_poll e = false.
Proof. destruct r as [m|[]|]; simpl; by intros [= <-]. Qed.

(** X8. When [read_data] returns: on a connection that is not persistent
    the client is left disconnected and without notifier; on a persistent
    one, if a map is returned, the notifier is attached and the client is
    connected when it was before or when [connect] was called. *)
Theorem poll_leaves_connection
    (filter_registers : option (list Command)) (dev : Device) (s : Sys)
    (r : option (gmap string value)) :
  bluetti_device (self s) = Some dev →
  (read_data filter_registers s).1 = Ret r →
  let s' := (read_data filter_registers s).2 in
  (persistent_conn (self s) = false →
     is_connected s' = false ∧ has_notifier (self s') = false)
  ∧ (persistent_conn (self s) = true → is_Some r →
     has_notifier (self s') = true
     ∧ is_connected s' = needs_connect s || is_connected s).
Proof.
  intros Hdev. rewrite (read_data_eq _ dev) by done. cbn zeta.
  set (polling := from_option id _ _).
  set (pack_commands := match filter_registers with Some _ => [] | None => _ end).
  set (s0 := record Acquire _).
  destruct (poll_body_shape dev polling pack_commands s0)
    as (opening & exchanges & _ & _ & _ & _ & Hret & Hp).
  destruct (poll_body dev polling pack_commands s0) as [r0 s1]. cbn [fst snd] in *.
  destruct (on_poll_outcome_closing r0 s1) as (logged & _ & _ & Hself1 & Hconn1).
  assert (Hr0 : ∀ m, (on_poll_outcome r0 s1).1 = Ret (Some m) → is_ret r0 = true)
    by (intros m; by destruct r0 as [m'|[]|]).
  set (r1 := (on_poll_outcome r0 s1).1) in *.
  set (s2 := (on_poll_outcome r0 s1).2) in *.
  assert (Hp2 : persistent_conn (self s2) = persistent_conn (self s))
    by (by rewrite Hself1, Hp).
  clearbody r1 s2.
  intros Hrun. split.
  - intros Hnp. rewrite <-Hp2 in Hnp.
    destruct (teardown_run s2 Hnp) as [(e & _ & Htd) | (o & _ & Hn & Ho)].
    + by rewrite Htd in Hrun.
    + destruct o as [|e|]; [| |done].
      * destruct Ho as [_ Hc]. cbn. by rewrite Hn, Hc.
      * by rewrite Ho in Hrun.
  - intros Hpers [m ->]. rewrite <-Hp2 in Hpers.
    rewrite teardown_eq, Hpers in Hrun |- *. cbn [fst snd after_finally] in *.
    destruct (Hret (Hr0 m Hrun)) as [Hn Hc]. cbn. by rewrite Hself1, Hconn1.
Qed.

Lemma teardown_call_elem (ev : event) (evs : list event) :
  existsb teardown_call evs = false → teardown_call ev = true → ev ∉ evs.
Proof.
  intros Hnone Hev Hin. apply not_true_iff_false in Hnone. apply Hnone.
  apply existsb_exists. exists ev. split; [by apply list_elem_of_In|done].
Qed.

Lemma loop_events_no_teardown (opening exchanges : list event)
    (connect subscribe : bool) :
  opened connect subscribe opening → forallb loop_event exchanges = true →
  existsb teardown_call (opening ++ exchanges) = false.
Proof.
  intros Hopen Hev. rewrite existsb_app.
  destruct (loop_events_fatal exchanges Hev) as (_ & -> & _).
  by destruct Hopen.
Qed.

(** X9. An exception raised by [stop_notify] or [disconnect] in the
    [finally] clause is what [read_data] raises, whatever the poll had come
    to.  When [stop_notify] raises, [disconnect] is not called and the
    reader still counts the notifier as attached.  And a [TimeoutError] or
    [BleakError] can leave [read_data] in no other way. *)
Theorem failed_teardown_replaces_result
    (filter_registers : option (list Command)) (dev : Device) (s : Sys) (e : exn) :
  bluetti_device (self s) = Some dev →
  let run := read_data filter_registers s in
  let evs := added s run in
  (Call StopNotify (Raised e) ∈ evs ∨ Call Disconnect (Raised e) ∈ evs →
     run.1 = Raise e)
  ∧ (Call StopNotify (Raised e) ∈ evs →
     (∀ o, Call Disconnect o ∉ evs) ∧ has_notifier (self run.2) = true)
  ∧ (run.1 = Raise e → caught_by_poll e = true →
     Call StopNotify (Raised e) ∈ evs ∨ Call Disconnect (Raised e) ∈ evs).
Proof.
  intros Hdev run evs. unfold evs, added, run.
  rewrite (read_data_eq _ dev) by done. cbn zeta.
  set (polling := from_option id _ _).
  set (pack_commands := match filter_registers with Some _ => [] | None => _ end).
  set (s0 := record Acquire _).
  destruct (poll_body_shape dev polling pack_commands s0)
    as (opening & exchanges & Htr & Hopen & Hev & _ & _ & Hp).
  pose proof (loop_events_no_teardown _ _ _ _ Hopen Hev) as Hbody.
  destruct (poll_body dev polling pack_commands s0) as [r0 s1]. cbn [fst snd] in *.
  destruct (on_poll_outcome_events r0 s1) as (logged & Htr1 & _ & Hlogged & _ & Hself1).
  pose proof (on_poll_outcome_raises r0 s1) as Hraise.
  set (r1 := (on_poll_outcome r0 s1).1) in *.
  set (s2 := (on_poll_outcome r0 s1).2) in *.
  set (pre := [Log Info ReadingData; Acquire] ++ (opening ++ exchanges) ++ logged).
  assert (Htr2 : trace s2 = trace s ++ pre).
  { rewrite Htr1, Htr. unfold s0, pre. cbn [trace record]. by rewrite <-!app_assoc. }
  assert (Hpre : existsb teardown_call pre = false).
  { unfold pre. rewrite existsb_app in Hbody.
    by rewrite !existsb_app, Hbody, Hlogged. }
  assert (Hin : ∀ ev td, teardown_call ev = true →
            ev ∈ pre ++ td ++ [Release] → ev ∈ td).
  { intros ev td Hev'. rewrite !elem_of_app.
    intros [Hin|[Hin|Hin]]; [|done|].
    - by apply (teardown_call_elem ev pre) in Hin.
    - apply list_elem_of_singleton in Hin. by subst. }
  clearbody pre s2 r1. clear Htr Htr1 Hbody Hlogged.
  destruct (persistent_conn (self s2)) eqn:Hp2.
  { rewrite teardown_eq, Hp2. cbn [fst snd trace record after_finally].
    rewrite Htr2, <-app_assoc, drop_app_length.
    split; [|split].
    - intros [Hin'|Hin']; apply (Hin _ []) in Hin'; try done; by apply elem_of_nil in Hin'.
    - intros Hin'. apply (Hin _ []) in Hin'; [|done]. by apply elem_of_nil in Hin'.
    - intros Hr1 Hc. apply Hraise in Hr1. congruence. }
  destruct (teardown_run s2 Hp2) as [(e0 & Hn & Htd) | (o & Htd & Hn & Ho)].
  - rewrite Htd. cbn [fst snd trace record after_finally self].
    autorewrite with sys. rewrite Htr2, <-!app_assoc, drop_app_length.
    split; [|split].
    + intros [Hin'|Hin']; apply (Hin _ [_]) in Hin'; try done;
        apply list_elem_of_singleton in Hin'; congruence.
    + intros _. split; [|done].
      intros o Hin'. apply (Hin _ [_]) in Hin'; [|done].
      by apply list_elem_of_singleton in Hin'.
    + intros [= ->] _. left. rewrite !elem_of_app, list_elem_of_singleton. auto.
  - set (td := (if has_notifier (self s2) then [Call StopNotify Returned] else [])
               ++ [Call Disconnect o]) in *.
    assert (Htd' : ∀ ev, ev ∈ td → ev = Call StopNotify Returned ∨ ev = Call Disconnect o).
    { intros ev. unfold td. rewrite elem_of_app, list_elem_of_singleton.
      intros [Hin'|Hin']; [|auto]. destruct (has_notifier (self s2)).
      - apply list_elem_of_singleton in Hin'. auto.
      - by apply elem_of_nil in Hin'. }
    cbn [fst snd trace record].
    rewrite Htd, Htr2, <-!app_assoc, drop_app_length.
    split; [|split].
    + intros [Hin'|Hin']; apply (Hin _ td) in Hin'; try done;
        apply Htd' in Hin' as [Hin'|Hin']; try done.
      injection Hin' as <-. by rewrite Ho.
    + intros Hin'. apply (Hin _ td) in Hin'; [|done].
      by apply Htd' in Hin' as [Hin'|Hin'].
    + destruct o as [|e0|]; [| |done].
      * destruct Ho as [-> _]. cbn. intros Hr1 Hc. apply Hraise in Hr1. congruence.
      * rewrite Ho. cbn. intros [= ->] _. right.
        rewrite elem_of_app. right. rewrite elem_of_app. left.
        unfold td. rewrite elem_of_app, list_elem_of_singleton. by right.
Qed.

End shape.

Section reuse.
Context `{!Codec}.

(** X10. On a persistent connection that is up, with the notifier attached,
    [read_data] calls neither [connect] nor [start_notify] nor anything of
    the [finally] clause: between lock and release there are only the
    events of the polling loops, and the connection and the notifier are
    left as they were. *)
Theorem persistent_poll_reuses_connection
    (filter_registers : option (list Command)) (dev : Device) (s : Sys) :
  bluetti_device (self s) = Some dev →
  persistent_conn (self s) = true →
  is_connected s = true →
  has_notifier (self s) = true →
  let run := read_data filter_registers s in
  (∃ exchanges,
     trace run.2 = trace s ++ [Log Info ReadingData; Acquire] ++ exchanges ++ [Release]
     ∧ forallb loop_event exchanges = true)
  ∧ persistent_conn (self run.2) = true
  ∧ is_connected run.2 = true
  ∧ has_notifier (self run.2) = true.
Proof.
  intros Hdev Hpers Hconn Hsub run. unfold run.
  rewrite (read_data_eq _ dev) by done. cbn zeta.
  set (polling := from_option id _ _).
  set (pack_commands := match filter_registers with Some _ => [] | None => _ end).
  set (s0 := record Acquire _).
  destruct (poll_body_shape dev polling pack_commands s0)
    as (opening & exchanges & Htr & Hopen & Hev & _ & _ & Hp).
  destruct (phase_poll_body dev polling pack_commands s0) as (body & _ & _ & _ & Hn & _).
  pose proof (poll_body_stays_connected dev polling pack_commands s0 Hconn) as Hc.
  destruct (poll_body dev polling pack_commands s0) as [r s1]. cbn [fst snd] in *.
  assert (Hnone : opening = []).
  { unfold needs_connect in Hopen. cbn in Hopen.
    rewrite Hconn, Hsub, orb_true_r in Hopen. by inversion Hopen. }
  subst opening.
  assert (Hlogged : ∃ logged, trace (on_poll_outcome r s1).2 = trace s1 ++ logged
                              ∧ forallb loop_event logged = true
                              ∧ self (on_poll_outcome r s1).2 = self s1
                              ∧ is_connected (on_poll_outcome r s1).2 = is_connected s1).
  { destruct r as [m|[]|]; simpl;
      try (exists []; by rewrite app_nil_r); by eexists [_]. }
  destruct Hlogged as (logged & Htr1 & Hl & Hself1 & Hconn1).
  set (s2 := (on_poll_outcome r s1).2) in *.
  assert (Hp2 : persistent_conn (self s2) = true) by (by rewrite Hself1, Hp).
  rewrite teardown_eq, Hp2. cbn [fst snd trace record self is_connected].
  split; [|split; [exact Hp2|split; [by rewrite Hconn1|]]].
  - exists (exchanges ++ logged). split; [|by rewrite forallb_app, Hev, Hl].
    rewrite Htr1, Htr. unfold s0. cbn [trace record app]. by rewrite <-!app_assoc.
  - rewrite Hself1, Hn. change (has_notifier (self s0)) with (has_notifier (self s)).
    by rewrite Hsub.
Qed.

End reuse.

(** A first poll of the sample device, the link answering every call: it
    connects and subscribes before anything is written. *)
Lemma poll_calls_in_order_witness :
  let s := Sample.idle (Some Sample.device) false in
  ∃ opening exchanges closing,
    trace (read_data (H := Sample.modbus) None s).2
    = trace s ++ [Log Info ReadingData; Acquire]
        ++ opening ++ exchanges ++ closing ++ [Release]
    ∧ opened (needs_connect s) (negb (has_notifier (self s))) opening
    ∧ forallb loop_event exchanges = true
    ∧ (existsb call_failed opening = true → exchanges = [])
    ∧ forallb closing_event closing = true.
Proof.
  intros s.
  apply (poll_calls_in_order (H := Sample.modbus) None Sample.device s).
  reflexivity.
Defined.

Lemma poll_leaves_connection_witness :
  let s := Sample.idle (Some Sample.device) false in
  let s' := (read_data (H := Sample.modbus) (Some []) s).2 in
  is_connected s' = false ∧ has_notifier (self s') = false.
Proof.
  intros s s'.
  destruct (poll_leaves_connection (H := Sample.modbus) (Some []) Sample.device s (Some ∅))
    as [Hclosed _]; [reflexivity | vm_compute; reflexivity |].
  apply Hclosed. reflexivity.
Defined.

(** A poll whose [stop_notify] raises [BleakError]: that is what [read_data]
    raises, although the poll itself had gone through. *)
Lemma failed_teardown_replaces_result_witness :
  failed_unsubscribe.1 = Raise BleakError.
Proof.
  destruct (failed_teardown_replaces_result (H := Sample.modbus) (Some []) Sample.device
              (Sample.answers [Done; Done; Fails BleakError] []
                 (Sample.idle (Some Sample.device) false)) BleakError)
    as (Hraise & _); [reflexivity|].
  apply Hraise. left. vm_compute. apply list_elem_of_In. simpl. tauto.
Defined.

Lemma persistent_poll_reuses_connection_witness :
  let s := set_is_connected true
             (set_self (with_has_notifier true) (Sample.idle (Some Sample.device) true)) in
  let run := read_data (H := Sample.modbus) None s in
  is_connected run.2 = true ∧ has_notifier (self run.2) = true.
Proof.
  intros s run.
  destruct (persistent_poll_reuses_connection (H := Sample.modbus) None Sample.device s)
    as (_ & _ & Hc & Hn); [reflexivity..|].
  split; [exact Hc | exact Hn].
Defined.

(** ** A pending exchange has its command *)

Section invariant.
Context `{!Codec}.

Lemma keeps_command_ret {A} (a : A) : keeps_command (ret a).
Proof. by intros s. Qed.

Lemma keeps_command_bind {A B} (m : M A) (k : A → M B) :
  keeps_command m → (∀ a, keeps_command (k a)) → keeps_command (m ≫= k).
Proof.
  intros Hm Hk s Hs. rewrite bind_unfold. specialize (Hm s Hs).
  destruct (m s) as [[a|e|] s1]; [by apply Hk|done..].
Qed.

Lemma keeps_command_try_except {A} (m : M A) (h : exn → option (M A)) :
  keeps_command m → (∀ e k, h e = Some k → keeps_command k) →
  keeps_command (try_except m h).
Proof.
  intros Hm Hh s Hs. unfold try_except. specialize (Hm s Hs).
  destruct (m s) as [[a|e|] s1]; [done| |done].
  destruct (h e) as [k|] eqn:He; [by apply (Hh e k)|done].
Qed.

Lemma keeps_command_same {A} (m : M A) :
  (∀ s, self (m s).2 = self s) → keeps_command m.
Proof. intros Hm s Hs. by rewrite Hm. Qed.

Lemma self_call (scoped : bool) (o : op) (s : Sys) : self (call scoped o s).2 = self s.
Proof.
  rewrite call_eq. destruct (scoped && fired s); [done|]. cbn zeta.
  destruct (hd Done (replies s)); cbn; destruct scoped; by autorewrite with sys.
Qed.

Lemma self_sleep (n : nat) (s : Sys) : self (sleep n s).2 = self s.
Proof. rewrite sleep_eq. destruct (fired s); cbn; by autorewrite with sys. Qed.

Lemma self_disconnect (s : Sys) : self (disconnect s).2 = self s.
Proof.
  rewrite disconnect_eq. destruct (hd Done (replies s)); cbn; by autorewrite with sys.
Qed.

Lemma handler_keeps_has_command (data : bytes) (r : Reader) :
  has_command r = true → has_command (_notification_handler data r).1 = true.
Proof.
  intros Hr. unfold _notification_handler.
  destruct (notify_future r) as [fut|] eqn:Hfut; [|exact Hr].
  destruct (done fut) eqn:Hdone; [exact Hr|].
  destruct (_ || _); [done|].
  destruct (current_command r) as [c|] eqn:Hc.
  2:{ unfold has_command in Hr. rewrite Hfut, Hc in Hr. by destruct fut. }
  assert (Hbuf : ∀ b, has_command (with_notify_response b r) = true).
  { intros b. unfold has_command. cbn. rewrite Hc. by destruct (notify_future r) as [[]|]. }
  assert (Hset : ∀ f b,
            has_command (with_notify_future f (with_notify_response b r)) = true).
  { intros f b. unfold has_command. cbn. rewrite Hc. by destruct f as [[]|]. }
  destruct (bool_decide _); [destruct (is_valid_response _ _); apply Hset|].
  destruct (is_exception_response _ _); [|apply Hbuf].
  destruct (_ !! _); [apply Hset|apply Hbuf].
Qed.

Lemma send_has_command (c : Command) (s : Sys) :
  has_command (self (_async_send_command c s).2) = true.
Proof.
  unfold has_command. rewrite send_installs.
  by destruct (notify_future _) as [[]|].
Qed.

Lemma keeps_command_send (c : Command) : keeps_command (_async_send_command c).
Proof. intros s _. apply send_has_command. Qed.

Lemma keeps_command_log (l : level) (m : message) : keeps_command (log l m).
Proof. by apply keeps_command_same. Qed.

Lemma keeps_command_poll_commands (dev : Device) (commands : list Command)
    (parsed_data : gmap string value) :
  keeps_command (poll_commands dev commands parsed_data).
Proof.
  revert parsed_data. induction commands as [|c commands IH]; intros parsed_data.
  - apply keeps_command_ret.
  - cbn [poll_commands]. apply keeps_command_bind; [|done].
    apply keeps_command_try_except.
    + apply keeps_command_bind; [apply keeps_command_send|intros res].
      apply keeps_command_bind; [apply keeps_command_log|intros _].
      apply keeps_command_bind; [apply keeps_command_log|intros _].
      apply keeps_command_ret.
    + intros [] k [= <-].
      apply keeps_command_bind; [apply keeps_command_log|intros ?].
      apply keeps_command_ret.
Qed.

Lemma keeps_command_poll_pack_commands (dev : Device) (pack : nat)
    (commands : list Command) (parsed_data : gmap string value) :
  keeps_command (poll_pack_commands dev pack commands parsed_data).
Proof.
  revert parsed_data. induction commands as [|c commands IH]; intros parsed_data.
  - apply keeps_command_ret.
  - cbn [poll_pack_commands]. apply keeps_command_bind; [|done].
    apply keeps_command_try_except.
    + apply keeps_command_bind; [apply keeps_command_send|intros res].
      apply keeps_command_bind; [apply keeps_command_log|intros ?].
      destruct (_ || _); [|apply keeps_command_ret].
      apply keeps_command_bind; [apply keeps_command_log|intros ?].
      apply keeps_command_ret.
    + intros [] k [= <-].
      apply keeps_command_bind; [apply keeps_command_log|intros ?].
      apply keeps_command_ret.
Qed.

Lemma keeps_command_poll_packs (dev : Device) (pack_commands : list Command)
    (packs : list nat) (parsed_data : gmap string value) :
  keeps_command (poll_packs dev pack_commands packs parsed_data).
Proof.
  revert parsed_data. induction packs as [|pack packs IH]; intros parsed_data.
  - apply keeps_command_ret.
  - cbn [poll_packs].
    apply keeps_command_bind; [apply keeps_command_send|intros ?].
    apply keeps_command_bind; [apply keeps_command_same, self_sleep|intros ?].
    apply keeps_command_bind; [apply keeps_command_poll_pack_commands|done].
Qed.

Lemma keeps_command_poll_body (dev : Device) (polling pack_commands : list Command) :
  keeps_command (poll_body dev polling pack_commands).
Proof.
  unfold poll_body.
  apply keeps_command_bind.
  { apply keeps_command_same. intros s. by destruct (reconnect_run s). }
  intros _. apply keeps_command_bind.
  { intros s Hs. destruct (attach_notifier_run s) as [_ Hrun].
    destruct (has_notifier (self s)); [by rewrite Hrun|].
    destruct Hrun as (o & _ & _ & ->).
    by destruct (bool_decide _). }
  intros _. apply keeps_command_bind; [apply keeps_command_poll_commands|intros m].
  unfold poll_battery_packs. case_bool_decide; [|apply keeps_command_ret].
  apply keeps_command_bind; [apply keeps_command_log|intros _].
  apply keeps_command_poll_packs.
Qed.

Lemma keeps_command_teardown : keeps_command teardown.
Proof.
  intros s Hs. rewrite teardown_eq.
  destruct (persistent_conn (self s)); [done|].
  destruct (has_notifier (self s)).
  - destruct (hd Done (replies s)); [|cbn; by autorewrite with sys].
    rewrite self_disconnect. cbn. by autorewrite with sys.
  - by rewrite self_disconnect.
Qed.

Lemma keeps_command_read_data (filter_registers : option (list Command)) :
  keeps_command (read_data filter_registers).
Proof.
  intros s Hs.
  destruct (bluetti_device (self s)) as [dev|] eqn:Hdev.
  - rewrite (read_data_eq _ dev) by done. cbn zeta. cbn [snd self record].
    apply keeps_command_teardown.
    set (s0 := record Acquire _).
    pose proof (keeps_command_poll_body dev
                  (from_option id (polling_commands dev) filter_registers)
                  match filter_registers with
                  | Some _ => []
                  | None => pack_polling_commands dev
                  end s0 Hs) as Hbody.
    destruct (poll_body dev _ _ s0) as [r s1]. cbn [fst snd] in *.
    by destruct (on_poll_outcome_events r s1) as (_ & _ & _ & _ & _ & ->).
  - unfold read_data. rewrite bind_unfold. unfold log at 1, emit, modify.
    rewrite bind_unfold. unfold get at 1. cbn [self record]. by rewrite Hdev.
Qed.

(** X11. Whenever the future of the reader is pending, [current_command] is
    set.  This holds of a reader as [__init__] builds it, is established by
    every [_async_send_command], and is kept by the handler, by [read_data]
    and by [write_to_device].  So the one way the handler itself raises
    under it is a buffer that is an exception answer of fewer than three
    bytes, whose exception code cannot be read. *)
Theorem pending_exchange_has_its_command :
  (∀ dev persistent timeout retries,
     has_command (DeviceReader.__init__ dev persistent timeout retries) = true)
  ∧ (∀ c s, has_command (self (_async_send_command c s).2) = true)
  ∧ (∀ data r, has_command r = true →
       has_command (_notification_handler data r).1 = true
       ∧ (CallbackError ∈ (_notification_handler data r).2 →
          ∃ c, current_command r = Some c
               ∧ is_exception_response c (notify_response r ++ data) = true
               ∧ (length (notify_response r ++ data) < 3)%nat))
  ∧ (∀ filter_registers s, has_command (self s) = true →
       has_command (self (read_data filter_registers s).2) = true)
  ∧ (∀ b state s, has_command (self s) = true →
       has_command (self (BluettiButton.write_to_device b state s).2) = true).
Proof.
  split; [done|]. split; [apply send_has_command|]. split; [|split].
  - intros data r Hr. split; [by apply handler_keeps_has_command|].
    unfold has_command in Hr. unfold _notification_handler.
    destruct (notify_future r) as [fut|];
      [|by intros ?%list_elem_of_singleton].
    destruct (done fut) eqn:Hdone; [by intros ?%list_elem_of_singleton|].
    destruct (_ || _); [by intros ?%elem_of_nil|].
    destruct (current_command r) as [c|]; [|by destruct fut].
    destruct (bool_decide _);
      [destruct (is_valid_response _ _); by intros ?%elem_of_nil|].
    destruct (is_exception_response c _) eqn:Hexc; [|by intros ?%elem_of_nil].
    destruct (_ !! _) eqn:Hcode; [by intros ?%elem_of_nil|].
    intros _. exists c. split; [done|]. split; [done|].
    apply lookup_ge_None in Hcode. lia.
  - apply keeps_command_read_data.
  - intros b state s Hs.
    by destruct (write_to_device_run b state s) as (? & ? & ? & _ & _ & _ & _ & -> & _).
Qed.

End invariant.

(** ** Answers that share a key *)

Section dict_update.
Context `{!Codec}.

Lemma merged_lookup_kept (dev : Device) (key : string) (commands : list Command)
    (outcomes : list (res bytes)) (parsed_data : gmap string value) :
  (∀ i c res, commands !! i = Some c → outcomes !! i = Some (Ret res) →
     parse dev (starting_address c) (parse_response c res) !! key = None) →
  merged dev commands outcomes parsed_data !! key = parsed_data !! key.
Proof.
  revert outcomes parsed_data.
  induction commands as [|c0 commands IH]; intros [|o0 outcomes] parsed_data Hnone;
    try done.
  assert (Hrest : ∀ i c res, commands !! i = Some c → outcomes !! i = Some (Ret res) →
            parse dev (starting_address c) (parse_response c res) !! key = None)
    by (intros i; apply (Hnone (S i))).
  destruct o0 as [res0|e|]; cbn [merged]; rewrite IH by done; [|done..].
  apply lookup_union_r, (Hnone 0%nat); done.
Qed.

Lemma merged_lookup_last (dev : Device) (key : string) (v : value)
    (commands : list Command) (outcomes : list (res bytes))
    (parsed_data : gmap string value) (i : nat) (c : Command) (res : bytes) :
  commands !! i = Some c → outcomes !! i = Some (Ret res) →
  parse dev (starting_address c) (parse_response c res) !! key = Some v →
  (∀ j c' res', (i < j)%nat → commands !! j = Some c' → outcomes !! j = Some (Ret res') →
     parse dev (starting_address c') (parse_response c' res') !! key = None) →
  merged dev commands outcomes parsed_data !! key = Some v.
Proof.
  revert outcomes parsed_data i.
  induction commands as [|c0 commands IH]; intros [|o0 outcomes] parsed_data [|i];
    try done; cbn [lookup list_lookup]; intros Hc Ho Hv Hlater.
  - injection Hc as ->. injection Ho as ->. cbn [merged].
    rewrite merged_lookup_kept.
    + by apply lookup_union_Some_l.
    + intros j c' res'. apply (Hlater (S j)). lia.
  - assert (Hrest : ∀ j c' res', (i < j)%nat → commands !! j = Some c' →
              outcomes !! j = Some (Ret res') →
              parse dev (starting_address c') (parse_response c' res') !! key = None).
    { intros j c' res' Hj. apply (Hlater (S j)). lia. }
    destruct o0 as [res0|e|]; cbn [merged]; by apply (IH _ _ i).
Qed.

(** X12. In the main polling loop, when every exchange ends with an answer
    or with a failed checksum, a field that several answers give takes the
    value of the last answer that gives it, and a field no answer gives
    keeps the value it had: each answer is merged into the result with
    [dict.update]. *)
Theorem last_answer_wins
    (dev : Device) (commands : list Command) (outcomes : list (res bytes))
    (parsed_data : gmap string value) (s s' : Sys) (key : string) :
  exchanged commands s outcomes s' →
  Forall tolerated outcomes →
  ∃ m,
    poll_commands dev commands parsed_data s = (Ret m, s')
    ∧ (∀ i c res v,
         commands !! i = Some c → outcomes !! i = Some (Ret res) →
         parse dev (starting_address c) (parse_response c res) !! key = Some v →
         (∀ j c' res', (i < j)%nat →
            commands !! j = Some c' → outcomes !! j = Some (Ret res') →
            parse dev (starting_address c') (parse_response c' res') !! key = None) →
         m !! key = Some v)
    ∧ ((∀ i c res, commands !! i = Some c → outcomes !! i = Some (Ret res) →
          parse dev (starting_address c) (parse_response c res) !! key = None) →
       m !! key = parsed_data !! key).
Proof.
  intros Hex Htol. exists (merged dev commands outcomes parsed_data).
  split; [by apply poll_commands_exchanged|]. split.
  - intros i c res v. apply merged_lookup_last.
  - apply merged_lookup_kept.
Qed.

End dict_update.

(** The battery register read twice, holding 50 and then 60: the map holds
    60. *)
Lemma last_answer_wins_witness :
  let s := Sample.answers [] [[battery_response]; [battery_response_60]]
             (Sample.idle (Some Sample.device) false) in
  ∃ m s',
    poll_commands (H := Sample.modbus) Sample.device
      [Sample.read_battery; Sample.read_battery] ∅ s = (Ret m, s')
    ∧ m !! "total_battery_percent"%string = Some (VInt 60).
Proof.
  intros s.
  set (r1 := _async_send_command (H := Sample.modbus) Sample.read_battery s).
  set (r2 := _async_send_command (H := Sample.modbus) Sample.read_battery
               (settled r1.1 r1.2)).
  destruct (last_answer_wins (H := Sample.modbus) Sample.device
              [Sample.read_battery; Sample.read_battery]
              [Ret battery_response; Ret battery_response_60] ∅ s
              (settled r2.1 r2.2) "total_battery_percent")
    as (m & Hrun & Hlast & _).
  - apply (exchanged_cons (H := Sample.modbus) _ _ _ r1.2); [vm_compute; reflexivity|].
    apply (exchanged_cons (H := Sample.modbus) _ _ _ r2.2 (settled r2.1 r2.2));
      [vm_compute; reflexivity|].
    apply exchanged_nil.
  - repeat constructor.
  - exists m, (settled r2.1 r2.2). split; [exact Hrun|].
    apply (Hlast 1%nat Sample.read_battery battery_response_60);
      [reflexivity | reflexivity | vm_compute; reflexivity |].
    intros [|[|j]] c' res' Hj; [lia | lia | done].
Defined.

Section pack_keys.
Context `{!Codec}.

#[local] Existing Instance suffix_inj.

Lemma pretty_N_char_digit (x : N) : is_digit (pretty_N_char x) = true.
Proof. unfold pretty_N_char. by repeat case_match. Qed.

Lemma pretty_N_go_digits (x : N) (acc : string) :
  all_digits acc = true → all_digits (pretty_N_go x acc) = true.
Proof.
  revert acc. induction (N.lt_wf_0 x) as [x _ IH]. intros acc Hacc.
  destruct (decide (x = 0)%N) as [-> | Hx]; [by rewrite pretty_N_go_0|].
  rewrite pretty_N_go_step by lia.
  apply IH; [apply N.div_lt; lia|].
  cbn [all_digits]. by rewrite pretty_N_char_digit.
Qed.

(** [str(n)] is made of digits. *)
Lemma pretty_nat_digits (n : nat) : all_digits (pretty n) = true.
Proof.
  unfold pretty, pretty_nat, pretty, pretty_N.
  case_decide; [done|]. by apply pretty_N_go_digits.
Qed.

Lemma ends_in_digit_tail (a : Ascii.ascii) (k : string) :
  ends_in_digit (String a k) = false → ends_in_digit k = false.
Proof. by destruct k. Qed.

Lemma all_digits_ends (k d : string) :
  all_digits (k +:+ d) = true → k ≠ ""%string → ends_in_digit k = true.
Proof.
  induction k as [|a k IH]; [done|]. intros Hall _.
  change (is_digit a && all_digits (k +:+ d) = true) in Hall.
  apply andb_prop in Hall as [Ha Hall].
  destruct k as [|b k]; [done|]. by apply IH.
Qed.

(** A name that does not end in a digit, followed by a number, can be split
    in one way only. *)
Lemma suffix_splits_once (k k' d d' : string) :
  ends_in_digit k = false → ends_in_digit k' = false →
  all_digits d = true → all_digits d' = true →
  k +:+ d = k' +:+ d' → k = k' ∧ d = d'.
Proof.
  revert k'. induction k as [|a k IH]; intros [|b k'] Hk Hk' Hd Hd' Heq.
  - done.
  - change (d = String b k' +:+ d') in Heq. subst d.
    apply all_digits_ends in Hd; [congruence|done].
  - change (String a k +:+ d = d') in Heq. subst d'.
    apply all_digits_ends in Hd'; [congruence|done].
  - change (String a (k +:+ d) = String b (k' +:+ d')) in Heq.
    injection Heq as -> Heq.
    destruct (IH k') as [-> ->]; try done; by eapply ends_in_digit_tail.
Qed.

(** Two fields of two packs are stored under one key only when they are the
    same field of the same pack, provided no field name ends in a digit. *)
Lemma pack_key_inj (k k' : string) (p q : nat) :
  ends_in_digit k = false → ends_in_digit k' = false →
  k +:+ pretty p = k' +:+ pretty q → k = k' ∧ p = q.
Proof.
  intros Hk Hk' Heq.
  destruct (suffix_splits_once k k' (pretty p) (pretty q)) as [-> Hpq];
    try done; try apply pretty_nat_digits.
  split; [done|]. by apply (inj pretty).
Qed.

(** X13. The field of a pack, stored under its name followed by the pack
    number, is not overwritten by the fields of another pack, provided no
    field name ends in a digit. *)
Theorem packs_keep_their_fields_apart
    (p q : nat) (parsed_p parsed_q parsed_data : gmap string value)
    (key : string) (v : value) :
  p ≠ q →
  (∀ k, k ∈ dom parsed_p ∪ dom parsed_q → ends_in_digit k = false) →
  parsed_p !! key = Some v →
  merge_pack q parsed_q (merge_pack p parsed_p parsed_data) !! (key +:+ pretty p)
  = Some v.
Proof.
  intros Hpq Hnames Hkey.
  rewrite !merge_pack_kmap.
  rewrite lookup_union_r.
  - apply lookup_union_Some_l. by rewrite (lookup_kmap (λ k, k +:+ pretty p)).
  - apply (lookup_kmap_None (λ k, k +:+ pretty q)).
    intros k' Heq. apply not_elem_of_dom. intros Hk'.
    destruct (pack_key_inj key k' p q) as [_ ?]; [| |done|done].
    + apply Hnames, elem_of_union. left. apply elem_of_dom. eauto.
    + apply Hnames, elem_of_union. by right.
Qed.

End pack_keys.

(** Without the condition on the names two fields can meet: field [a1] of
    pack 1 and field [a] of pack 11 are both stored under [a11]. *)
Example suffixed_keys_can_meet :
  ("a1" +:+ pretty 1%nat = "a" +:+ pretty 11%nat)%string.
Proof. reflexivity. Qed.

Lemma packs_keep_their_fields_apart_witness :
  merge_pack 2 {[ "pack_voltage"%string := VInt 5200 ]}
    (merge_pack 1 {[ "pack_voltage"%string := VInt 5300 ]} ∅)
    !! "pack_voltage1"%string
  = Some (VInt 5300).
Proof.
  apply (packs_keep_their_fields_apart 1 2 {[ "pack_voltage"%string := VInt 5300 ]}
           {[ "pack_voltage"%string := VInt 5200 ]} ∅ "pack_voltage" (VInt 5300)).
  - lia.
  - intros k Hk. rewrite !dom_singleton_L in Hk.
    apply elem_of_union in Hk as [->%elem_of_singleton | ->%elem_of_singleton];
      reflexivity.
  - apply lookup_singleton_eq.
Defined.

(** ** When a write asks for a refresh *)

Section pressing.
Context `{!Codec}.

Import BluettiButton.

Lemma returns_iff_bind {A B} (m : M A) (k : A → M B) :
  returns_iff_calls_return m → (∀ a, returns_iff_calls_return (k a)) →
  returns_iff_calls_return (m ≫= k).
Proof.
  intros Hm Hk s. rewrite bind_unfold.
  destruct (Hm s) as (evs1 & Htr1 & Hf1).
  destruct (m s) as [[a|e|] s1]; cbn [fst snd is_ret negb] in *; [|by exists evs1..].
  destruct (Hk a s1) as (evs2 & Htr2 & Hf2).
  exists (evs1 ++ evs2). by rewrite Htr2, Htr1, app_assoc, existsb_app, Hf1, Hf2.
Qed.

Lemma returns_iff_call (o : op) : returns_iff_calls_return (call true o).
Proof.
  intros s. rewrite call_eq. cbn [andb].
  destruct (fired s); [by exists [Call o Interrupted]|].
  cbn zeta. destruct (hd Done (replies s)) as [|e].
  - exists [Call o Returned]. cbn. by autorewrite with sys.
  - exists [Call o (Raised e)]. cbn. by autorewrite with sys.
Qed.

Lemma returns_iff_silent {A} (m : M A) (a : A) (f : Sys → Sys) (logged : list event) :
  (∀ s, m s = (Ret a, f s)) → (∀ s, trace (f s) = trace s ++ logged) →
  existsb call_failed logged = false →
  returns_iff_calls_return m.
Proof.
  intros Hm Hf Hl s. exists logged. rewrite Hm. cbn [fst snd]. by rewrite Hf.
Qed.

Lemma returns_iff_write_body (command : Command) :
  returns_iff_calls_return (write_body command).
Proof.
  unfold write_body. intros s. rewrite bind_unfold. unfold get. cbn beta iota.
  assert (Hrest : returns_iff_calls_return
            (log Debug (Requesting command)
             ≫= λ _, call true (WriteGattChar (encode command)) ≫= λ _, sleep 5)).
  { apply returns_iff_bind; [|intros _].
    { by apply (returns_iff_silent _ tt (record (Log Debug (Requesting command)))
                  [Log Debug (Requesting command)]). }
    apply returns_iff_bind; [apply returns_iff_call|intros _].
    intros s0. rewrite sleep_eq.
    destruct (fired s0); eexists [_]; cbn; by autorewrite with sys. }
  destruct (is_connected s).
  - apply (returns_iff_bind (ret tt)); [|done].
    by apply (returns_iff_silent _ tt id []); [|intros s0; rewrite app_nil_r|].
  - apply (returns_iff_bind (connect true)); [|done].
    apply returns_iff_bind; [apply returns_iff_call|intros _].
    by apply (returns_iff_silent _ tt (set_is_connected true) []);
      [|intros s0; cbn; rewrite app_nil_r|].
Qed.

Lemma write_events_plain (evs : list event) :
  forallb write_event evs = true → RequestRefresh ∉ evs.
Proof.
  intros Hev Hin. rewrite forallb_forall in Hev.
  by apply list_elem_of_In, Hev in Hin.
Qed.

(** X14. [write_to_device] asks the coordinator for a refresh exactly when
    none of the calls it made failed, and then it returns.  It is never
    cancelled by its own timeout, and a [TimeoutError] or [BleakError] can
    leave it only from the [disconnect] of the [finally] clause. *)
Theorem refresh_follows_a_clean_write (b : Button) (state : bool) (s : Sys) :
  let run := write_to_device b state s in
  let evs := added s run in
  (RequestRefresh ∈ evs ↔ existsb call_failed evs = false)
  ∧ (existsb call_failed evs = false → run.1 = Ret tt)
  ∧ run.1 ≠ Cancel
  ∧ (∀ e, run.1 = Raise e →
       caught_by_poll e = true → Call Disconnect (Raised e) ∈ evs).
Proof.
  intros run evs. unfold evs, added, run.
  rewrite write_to_device_eq. cbn zeta.
  set (command := build_setter_command _ _ _).
  destruct (writes_only_write_body command (record Acquire s))
    as (body & Htr & Hev & _).
  destruct (returns_iff_write_body command (record Acquire s)) as (body' & Htr' & Hfail).
  assert (body' = body) as -> by (rewrite Htr in Htr'; by apply app_inv_head in Htr').
  clear Htr'.
  destruct (write_body command (record Acquire s)) as [r s1]. cbn [fst snd] in *.
  set (s2 := (on_write_outcome r s1).2).
  assert (Hlogged : ∃ logged, trace s2 = trace s ++ Acquire :: body ++ logged
                              ∧ forallb write_event logged = true
                              ∧ existsb call_failed logged = false).
  { unfold s2. destruct r as [[]|[]|]; cbn [on_write_outcome snd trace record];
      rewrite Htr; cbn [trace record]; rewrite <-?app_assoc;
      try (by exists []; rewrite ?app_nil_r); by eexists [_]. }
  destruct Hlogged as (logged & Htr2 & Hev2 & Hfail2).
  assert (Hr : (on_write_outcome r s1).1
               = match r with
                 | Ret _ => Ret true
                 | Raise e => if caught_by_poll e then Ret false else Raise e
                 | Cancel => Ret false
                 end) by (by destruct r as [[]|[]|]).
  rewrite Hr. clear Hr. fold s2. clearbody s2.
  set (pre := body ++ logged).
  assert (Hpre : forallb write_event pre = true) by (unfold pre; by rewrite forallb_app, Hev, Hev2).
  assert (Hfpre : existsb call_failed pre = negb (is_ret r))
    by (unfold pre; by rewrite existsb_app, Hfail, Hfail2, orb_false_r).
  assert (Htr3 : trace s2 = trace s ++ Acquire :: pre)
    by (unfold pre; by rewrite Htr2).
  apply write_events_plain in Hpre as Hnone.
  clearbody pre. clear Htr Htr2 Hev Hev2 Hfail Hfail2 body logged.
  assert (Hin : ∀ td tail ev, ev = RequestRefresh ∨ teardown_call ev = true →
            ev ∈ Acquire :: pre ++ td ++ Release :: tail → ev ∈ td ++ tail).
  { intros td tail ev Hev.
    rewrite elem_of_cons, !elem_of_app, elem_of_cons.
    intros [->|[Hin|[Hin|[->|Hin]]]]; auto.
    - by destruct Hev.
    - destruct Hev as [-> | Hev]; [done|].
      rewrite forallb_forall in Hpre. apply list_elem_of_In, Hpre in Hin.
      by destruct ev as [|[] ?| | | |].
    - by destruct Hev. }
  assert (Hfailed : ∀ td tail,
            existsb call_failed (Acquire :: pre ++ td ++ Release :: tail)
            = negb (is_ret r) || existsb call_failed td || existsb call_failed tail).
  { intros td tail. cbn. rewrite !existsb_app, Hfpre. cbn. by rewrite orb_assoc. }
  rewrite write_teardown_eq.
  destruct (persistent_conn (self s2)).
  { cbn [fst snd after_finally].
    destruct r as [[]|e|]; [| |].
    - cbn [fst snd after_finally trace record]. rewrite Htr3, <-!app_assoc. cbn [app].
      rewrite drop_app_length.
      change (Acquire :: pre ++ [Release; RequestRefresh])
        with (Acquire :: pre ++ [] ++ Release :: [RequestRefresh]).
      rewrite Hfailed. cbn.
      split; [|done]. split; [done|]. intros _.
      rewrite elem_of_cons, !elem_of_app, !elem_of_cons. auto 10.
    - destruct (caught_by_poll e) eqn:He.
      + cbn [fst snd after_finally trace record]. rewrite Htr3, <-!app_assoc. cbn [app].
        rewrite drop_app_length.
        change (Acquire :: pre ++ [Release])
          with (Acquire :: pre ++ [] ++ Release :: []).
        rewrite Hfailed. cbn.
        split; [|done]. split; [|done].
        intros Hin'%(Hin [] []); [|auto]. by apply elem_of_nil in Hin'.
      + cbn [fst snd after_finally trace record]. rewrite Htr3, <-!app_assoc. cbn [app].
        rewrite drop_app_length.
        change (Acquire :: pre ++ [Release])
          with (Acquire :: pre ++ [] ++ Release :: []).
        rewrite Hfailed. cbn.
        split; [split; [|done]|].
        * intros Hin'%(Hin [] []); [|auto]. by apply elem_of_nil in Hin'.
        * split; [done|]. split; [done|]. intros e' [= <-]. congruence.
    - cbn [fst snd after_finally trace record]. rewrite Htr3, <-!app_assoc. cbn [app].
      rewrite drop_app_length.
      change (Acquire :: pre ++ [Release])
        with (Acquire :: pre ++ [] ++ Release :: []).
      rewrite Hfailed. cbn.
      split; [|done]. split; [|done].
      intros Hin'%(Hin [] []); [|auto]. by apply elem_of_nil in Hin'. }
  rewrite disconnect_eq.
  destruct (hd Done (replies s2)) as [|e0].
  - cbn [fst snd after_finally].
    assert (Htr4 : ∀ tail (s3 : Sys),
              trace s3 = (trace (answered s2) ++ [Call Disconnect Returned])
                           ++ Release :: tail →
              drop (length (trace s)) (trace s3)
              = Acquire :: pre ++ [Call Disconnect Returned] ++ Release :: tail).
    { intros tail s3 ->. autorewrite with sys.
      rewrite Htr3, <-!app_assoc. cbn [app].
      by rewrite drop_app_length. }
    destruct r as [[]|e|]; [| |].
    + cbn [fst snd after_finally].
      rewrite (Htr4 [RequestRefresh]) by (cbn; by rewrite <-!app_assoc).
      rewrite Hfailed. cbn.
      split; [|done]. split; [done|]. intros _.
      rewrite elem_of_cons, !elem_of_app, !elem_of_cons. auto 10.
    + destruct (caught_by_poll e) eqn:He.
      * cbn [fst snd after_finally].
        rewrite (Htr4 []) by (cbn; by rewrite <-!app_assoc).
        rewrite Hfailed. cbn.
        split; [|done]. split; [|done].
        intros Hin'%(Hin [_] []); [|auto].
        by apply list_elem_of_singleton in Hin'.
      * cbn [fst snd after_finally].
        rewrite (Htr4 []) by (cbn; by rewrite <-!app_assoc).
        rewrite Hfailed. cbn.
        split; [split; [|done]|].
        -- intros Hin'%(Hin [_] []); [|auto].
           by apply list_elem_of_singleton in Hin'.
        -- split; [done|]. split; [done|]. intros e' [= <-]. congruence.
    + cbn [fst snd after_finally].
      rewrite (Htr4 []) by (cbn; by rewrite <-!app_assoc).
      rewrite Hfailed. cbn.
      split; [|done]. split; [|done].
      intros Hin'%(Hin [_] []); [|auto].
      by apply list_elem_of_singleton in Hin'.
  - assert (Htr4 : drop (length (trace s))
                     (trace (record Release
                        (record (Call Disconnect (Raised e0)) (answered s2))))
              = Acquire :: pre ++ [Call Disconnect (Raised e0)] ++ Release :: []).
    { cbn [trace record]. autorewrite with sys.
      rewrite Htr3, <-!app_assoc. cbn [app].
      by rewrite drop_app_length. }
    assert (Hres : ∀ r', after_finally (A := bool) r' (Raise e0) = Raise e0) by done.
    cbn [fst snd]. rewrite Hres. cbn [fst snd]. rewrite Htr4, Hfailed. cbn.
    rewrite orb_true_r.
    split; [split; [|done]|].
    + intros Hin'%(Hin [_] []); [|auto].
      by apply list_elem_of_singleton in Hin'.
    + split; [done|]. split; [done|]. intros e' [= <-] _.
      rewrite elem_of_cons, !elem_of_app, !elem_of_cons. auto 10.
Qed.

End pressing.

(** ** The keys a poll returns *)

Section keys.
Context `{!Codec}.

#[local] Existing Instance suffix_inj.

Lemma deliver_cons (data : bytes) (frames : list bytes) (r : Reader) :
  (deliver (data :: frames) r).1 = (deliver frames (_notification_handler data r).1).1.
Proof.
  cbn [deliver]. destruct (_notification_handler data r) as [r1 l1].
  cbn [fst]. by destruct (deliver frames r1) as [r2 l2].
Qed.

(** A future that the chunks of a window resolve holds what was in the
    buffer and the chunks up to one of them, and that is a valid response
    of the expected length. *)
Lemma deliver_resolved (c : Command) (frames : list bytes) (r : Reader) (b : bytes) :
  current_command r = Some c →
  notify_future r = Some Pending →
  notify_future (deliver frames r).1 = Some (Resolved b) →
  ∃ n, b = notify_response r ++ concat (take n frames)
       ∧ length b = response_size c ∧ is_valid_response c b = true.
Proof.
  revert r. induction frames as [|data frames IH]; intros r Hc Hfut.
  { cbn. by rewrite Hfut. }
  rewrite deliver_cons.
  assert (Hstays : ∀ r1 f, notify_future r1 = Some f → done f = true →
            notify_future (deliver frames r1).1 = Some f).
  { intros r1 f Hr1 Hf. rewrite deliver_discards; [done|].
    unfold pending. by rewrite Hr1, Hf. }
  assert (Hgoes : ∀ buf, buf = notify_response r ++ data →
            notify_future (deliver frames (with_notify_response buf r)).1
            = Some (Resolved b) →
            ∃ n, b = notify_response r ++ concat (take n (data :: frames))
                 ∧ length b = response_size c ∧ is_valid_response c b = true).
  { intros buf -> Hb. destruct (IH (with_notify_response (notify_response r ++ data) r))
      as (n & -> & Hlen & Hvalid); [done..|].
    exists (S n). cbn in *. by rewrite <-app_assoc in *. }
  unfold _notification_handler. rewrite Hfut, Hc. cbn [done].
  destruct (_ || _).
  { cbn [fst]. by rewrite (Hstays _ (Failed BadConnectionError)). }
  cbn zeta. case_bool_decide as Hlen.
  - destruct (is_valid_response c (notify_response r ++ data)) eqn:Hvalid; cbn [fst].
    + rewrite (Hstays _ (Resolved (notify_response r ++ data))) by done.
      intros [= <-]. exists 1%nat. cbn. by rewrite app_nil_r.
    + by rewrite (Hstays _ (Failed ParseError)).
  - destruct (is_exception_response c (notify_response r ++ data)).
    + destruct ((notify_response r ++ data) !! 2%nat) as [code|]; cbn [fst];
        [|by apply Hgoes].
      by rewrite (Hstays _ (Failed (ModbusError code))).
    + cbn [fst]. by apply Hgoes.
Qed.

Lemma answer_to_mono (c : Command) (ws ws' : list (list bytes)) (res : bytes) :
  ws' ⊆ ws → answer_to c ws' res → answer_to c ws res.
Proof.
  intros Hws [-> | ((w & n & Hw & ->) & Hlen & Hvalid)]; [by left|].
  right. split; [|done]. exists w, n. split; [by apply Hws|done].
Qed.

Lemma decoded_by_mono (dev : Device) (commands commands' : list Command)
    (ws ws' : list (list bytes)) (key : string) :
  commands' ⊆ commands → ws' ⊆ ws →
  decoded_by dev commands' ws' key → decoded_by dev commands ws key.
Proof.
  intros Hcs Hws (c & res & Hc & Hres & Hkey). exists c, res.
  split; [by apply Hcs|]. split; [by eapply answer_to_mono|done].
Qed.

Lemma windows_windowed (s : Sys) : windows (windowed s) = tail (windows s).
Proof. unfold windowed. destruct (windows s) as [|w ws] eqn:Hw; [by rewrite Hw|done]. Qed.

Lemma windows_notified (frames : list bytes) (s : Sys) :
  windows (notified frames s) = windows s.
Proof. unfold notified. by destruct (deliver frames (self s)). Qed.

Lemma on_send_error_answer (c : Command) (e : exn) (s : Sys) :
  windows (on_send_error c e s).2 = windows s
  ∧ ∀ res, (on_send_error c e s).1 = Ret res → res = [].
Proof. destruct e; cbn; split; try done; by intros res [= <-]. Qed.

(** What an exchange returns, and the window it goes through. *)
Lemma send_answer (c : Command) (s : Sys) :
  let run := _async_send_command c s in
  ∃ heard, windows s = heard ++ windows run.2
           ∧ ∀ res, run.1 = Ret res → answer_to c heard res.
Proof.
  intros run. unfold run. rewrite send_eq. cbn zeta. rewrite call_eq. cbn [andb].
  set (s0 := record (Log Debug (Requesting c)) (set_self (awaiting c) s)).
  assert (Hw0 : windows s0 = windows s) by done.
  destruct (fired s0); [by exists []|].
  cbn zeta. destruct (hd Done (replies s0)) as [|e].
  2:{ set (s1 := record _ _).
      destruct (on_send_error_answer c e s1) as [Hw Hres]. rewrite Hw.
      exists []. split; [unfold s1; cbn; by autorewrite with sys|].
      intros res ->%Hres. by left. }
  set (s1 := record _ (answered (spend s0))).
  assert (Hw1 : windows s1 = windows s) by (unfold s1; cbn; by autorewrite with sys).
  assert (Hself1 : self s1 = awaiting c (self s))
    by (unfold s1; cbn; by autorewrite with sys).
  clearbody s1.
  rewrite wait_eq. destruct (fired s1); [exists []; cbn; by rewrite Hw1|].
  cbn zeta. set (s2 := notified _ _).
  assert (Hw2 : windows s = take 1 (windows s) ++ windows s2).
  { unfold s2. rewrite windows_notified, windows_windowed, windows_spend, Hw1.
    by destruct (windows s). }
  assert (Hself2 : self s2 = (deliver (hd [] (windows s)) (awaiting c (self s))).1).
  { unfold s2. autorewrite with sys. by rewrite Hw1, Hself1. }
  clearbody s2. exists (take 1 (windows s)).
  destruct (notify_future (self s2)) as [[|b|e|]|] eqn:Hfut.
  - cbn. split; [done|]. intros res [= <-]. by left.
  - cbn. split; [done|]. intros res [= <-].
    rewrite Hself2 in Hfut.
    destruct (deliver_resolved c (hd [] (windows s)) (awaiting c (self s)) b)
      as (n & -> & Hlen & Hvalid); [done..|].
    destruct (windows s) as [|w ws] eqn:Hws.
    + left. cbn. by rewrite take_nil.
    + right. split; [|done]. exists w, n. split; [|done].
      cbn. by apply list_elem_of_singleton.
  - set (s3 := record _ s2).
    destruct (on_send_error_answer c e s3) as [Hw Hres]. rewrite Hw.
    split; [done|]. intros res ->%Hres. by left.
  - cbn. by split.
  - cbn. by split.
Qed.

Lemma windows_sleep (n : nat) (s : Sys) : windows (sleep n s).2 = windows s.
Proof. rewrite sleep_eq. destruct (fired s); cbn; by autorewrite with sys. Qed.

Lemma windows_call (scoped : bool) (o : op) (s : Sys) :
  windows (call scoped o s).2 = windows s.
Proof.
  rewrite call_eq. destruct (scoped && fired s); [done|]. cbn zeta.
  destruct (hd Done (replies s)); cbn; destruct scoped; by autorewrite with sys.
Qed.

Lemma windows_reconnect (s : Sys) : windows (reconnect s).2 = windows s.
Proof.
  rewrite reconnect_eq. destruct (_ || _); [done|].
  rewrite connect_eq. pose proof (windows_call true Connect s) as Hc.
  by destruct (call true Connect s) as [[[]|e|] s1].
Qed.

Lemma windows_attach_notifier (s : Sys) : windows (attach_notifier s).2 = windows s.
Proof.
  rewrite attach_notifier_eq. destruct (has_notifier (self s)); [done|].
  pose proof (windows_call true StartNotify s) as Hc.
  by destruct (call true StartNotify s) as [[[]|e|] s1].
Qed.

Lemma windows_disconnect (s : Sys) : windows (disconnect s).2 = windows s.
Proof.
  rewrite disconnect_eq. destruct (hd Done (replies s)); cbn; by autorewrite with sys.
Qed.

Lemma windows_teardown (s : Sys) : windows (teardown s).2 = windows s.
Proof.
  rewrite teardown_eq. destruct (persistent_conn (self s)); [done|].
  destruct (has_notifier (self s)); [|apply windows_disconnect].
  destruct (hd Done (replies s)); [|cbn; by autorewrite with sys].
  rewrite windows_disconnect. cbn. by autorewrite with sys.
Qed.

Lemma poll_commands_keys (dev : Device) (commands : list Command)
    (parsed_data m : gmap string value) (s s' : Sys) :
  poll_commands dev commands parsed_data s = (Ret m, s') →
  ∃ heard, windows s = heard ++ windows s'
           ∧ ∀ key, key ∈ dom m →
               key ∈ dom parsed_data ∨ decoded_by dev commands heard key.
Proof.
  revert parsed_data s. induction commands as [|c commands IH]; intros parsed_data s.
  - intros [= -> ->]. exists []. split; [done|]. by left.
  - rewrite poll_commands_eq. intros Hrun.
    destruct (send_answer c s) as (heard1 & Hws1 & Hres).
    assert (Hrest : ∀ heard2 key,
              decoded_by dev commands heard2 key →
              decoded_by dev (c :: commands) (heard1 ++ heard2) key).
    { intros heard2 key. apply decoded_by_mono.
      - intros c' Hc'. by apply elem_of_cons; right.
      - intros w Hw. apply elem_of_app. by right. }
    destruct (_async_send_command c s) as [[res|e|] s1]; cbn [fst snd] in *;
      [|destruct e; try done|done].
    + destruct (IH _ _ Hrun) as (heard2 & Hws2 & Hkeys).
      exists (heard1 ++ heard2). split.
      { rewrite Hws1. cbn in Hws2. by rewrite Hws2, app_assoc. }
      intros key [Hkey|Hkey]%Hkeys; [|right; by apply Hrest].
      rewrite dom_union_L, elem_of_union in Hkey.
      destruct Hkey as [Hkey|Hkey]; [|by left]. right.
      exists c, res. split; [by apply elem_of_cons; left|]. split; [|done].
      apply (answer_to_mono c _ heard1); [|by apply Hres].
      intros w Hw. apply elem_of_app. by left.
    + destruct (IH _ _ Hrun) as (heard2 & Hws2 & Hkeys).
      exists (heard1 ++ heard2). split.
      { rewrite Hws1. cbn in Hws2. by rewrite Hws2, app_assoc. }
      intros key [Hkey|Hkey]%Hkeys; [by left|right; by apply Hrest].
Qed.

Lemma poll_pack_commands_keys (dev : Device) (pack : nat)
    (commands : list Command) (parsed_data m : gmap string value) (s s' : Sys) :
  poll_pack_commands dev pack commands parsed_data s = (Ret m, s') →
  ∃ heard, windows s = heard ++ windows s'
           ∧ ∀ key, key ∈ dom m →
               key ∈ dom parsed_data
               ∨ ∃ field, decoded_by dev commands heard field
                          ∧ key = field +:+ pretty pack.
Proof.
  revert parsed_data s. induction commands as [|c commands IH]; intros parsed_data s.
  - intros [= -> ->]. exists []. split; [done|]. by left.
  - rewrite poll_pack_commands_eq. intros Hrun.
    destruct (send_answer c s) as (heard1 & Hws1 & Hres).
    assert (Hrest : ∀ heard2 key,
              decoded_by dev commands heard2 key →
              decoded_by dev (c :: commands) (heard1 ++ heard2) key).
    { intros heard2 key. apply decoded_by_mono.
      - intros c' Hc'. by apply elem_of_cons; right.
      - intros w Hw. apply elem_of_app. by right. }
    assert (Hgo : ∀ parsed_data' s2,
              windows s2 = windows (_async_send_command c s).2 →
              (∀ key, key ∈ dom parsed_data' →
                 key ∈ dom parsed_data
                 ∨ ∃ field, decoded_by dev (c :: commands) heard1 field
                            ∧ key = field +:+ pretty pack) →
              poll_pack_commands dev pack commands parsed_data' s2 = (Ret m, s') →
              ∃ heard, windows s = heard ++ windows s'
                       ∧ ∀ key, key ∈ dom m →
                           key ∈ dom parsed_data
                           ∨ ∃ field, decoded_by dev (c :: commands) heard field
                                      ∧ key = field +:+ pretty pack).
    { intros parsed_data' s2 Hw2 Hdata' Hrun'.
      destruct (IH _ _ Hrun') as (heard2 & Hws2 & Hkeys).
      exists (heard1 ++ heard2). split.
      { by rewrite Hws1, <-Hw2, Hws2, app_assoc. }
      intros key [Hkey|(field & Hfield & ->)]%Hkeys.
      - destruct (Hdata' key Hkey) as [?|(field & Hfield & ->)]; [by left|].
        right. exists field. split; [|done].
        apply (decoded_by_mono dev _ (c :: commands) _ heard1); [done| |done].
        intros w Hw. apply elem_of_app. by left.
      - right. exists field. split; [by apply Hrest|done]. }
    destruct (_async_send_command c s) as [[res|e|] s1]; cbn [fst snd] in *;
      [|destruct e; try done|done].
    + cbn zeta in Hrun. destruct (pack_number_accepted _ _).
      * eapply Hgo; [| |exact Hrun]; [done|].
        intros key. rewrite merge_pack_kmap, dom_union_L, elem_of_union.
        intros [Hkey|Hkey]; [|by left]. right.
        rewrite (dom_kmap_L (λ k, k +:+ pretty pack)) in Hkey.
        apply elem_of_map in Hkey as (field & -> & Hfield).
        exists field. split; [|done]. exists c, res.
        split; [by apply elem_of_cons; left|]. split; [by apply Hres|done].
      * eapply Hgo; [| |exact Hrun]; [done|]. by left.
    + eapply Hgo; [| |exact Hrun]; [done|]. by left.
Qed.

Lemma poll_packs_keys (dev : Device) (pack_commands : list Command)
    (packs : list nat) (parsed_data m : gmap string value) (s s' : Sys) :
  poll_packs dev pack_commands packs parsed_data s = (Ret m, s') →
  ∃ heard, windows s = heard ++ windows s'
           ∧ ∀ key, key ∈ dom m →
               key ∈ dom parsed_data
               ∨ decoded_for_a_pack dev pack_commands packs heard key.
Proof.
  revert parsed_data s. induction packs as [|pack packs IH]; intros parsed_data s.
  - intros [= -> ->]. exists []. split; [done|]. by left.
  - rewrite poll_packs_eq. intros Hrun.
    destruct (send_answer
                (build_setter_command dev "pack_num" (VInt (Z.of_nat pack))) s)
      as (heard1 & Hws1 & _).
    destruct (_async_send_command _ s) as [[res|e|] s1]; try done.
    pose proof (windows_sleep 5 s1) as Hws2.
    destruct (sleep 5 s1) as [[[]|e|] s2]; try done.
    cbn [fst snd] in *. rewrite <-Hws2 in Hws1.
    destruct (poll_pack_commands _ _ _ _ s2) as [[m1|e|] s3] eqn:Hcmds; try done.
    destruct (poll_pack_commands_keys _ _ _ _ _ _ _ Hcmds)
      as (heard2 & Hws3 & Hkeys2).
    destruct (IH _ _ Hrun) as (heard3 & Hws4 & Hkeys3).
    exists (heard1 ++ heard2 ++ heard3). split.
    { by rewrite Hws1, Hws3, Hws4, <-!app_assoc. }
    intros key [Hkey|(field & p & Hfield & Hp & ->)]%Hkeys3.
    + destruct (Hkeys2 key Hkey) as [?|(field & Hfield & ->)]; [by left|].
      right. exists field, pack.
      split; [|split; [by apply elem_of_cons; left|done]].
      apply (decoded_by_mono dev _ pack_commands _ heard2); [done| |done].
      intros w Hw. rewrite !elem_of_app. auto.
    + right. exists field, p.
      split; [|split; [by apply elem_of_cons; right|done]].
      apply (decoded_by_mono dev _ pack_commands _ heard3); [done| |done].
      intros w Hw. rewrite !elem_of_app. auto.
Qed.

(** X15. Every key of the map [read_data] returns comes from an answer of
    the poll.  With [heard] the notification windows the poll went through,
    it is a field the decoder gave for an answer to one of the polling
    commands, or such a field for an answer to a pack command, followed by
    the number of a pack between 1 and [pack_num_max]; and an answer is
    what an exchange returned: a valid response to the command, of the
    expected length, that the device sent in one of those windows, or the
    empty answer of an exchange that failed, which the loops decode as
    well.  With a filter, only the commands of the filter count. *)
Theorem result_keys_are_decoded
    (filter_registers : option (list Command)) (dev : Device) (s : Sys)
    (m : gmap string value) :
  bluetti_device (self s) = Some dev →
  (read_data filter_registers s).1 = Ret (Some m) →
  let polling := from_option id (polling_commands dev) filter_registers in
  let pack_commands :=
    match filter_registers with
    | Some _ => []
    | None => pack_polling_commands dev
    end in
  ∃ heard,
    windows s = heard ++ windows (read_data filter_registers s).2
    ∧ ∀ key, key ∈ dom m →
        decoded_by dev polling heard key
        ∨ decoded_for_a_pack dev pack_commands (seq 1 (pack_num_max dev)) heard key.
Proof.
  intros Hdev. rewrite (read_data_eq _ dev) by done. cbn zeta.
  set (polling := from_option id _ _).
  set (pack_commands := match filter_registers with Some _ => [] | None => _ end).
  set (s0 := record Acquire _).
  unfold poll_body. rewrite bind_unfold.
  pose proof (windows_reconnect s0) as Hw1.
  destruct (reconnect s0) as [[[]|e|] s1];
    [|destruct e; cbn; by destruct (teardown _) as [[[]|?|] ?]
     |cbn; by destruct (teardown _) as [[[]|?|] ?]].
  rewrite bind_unfold. pose proof (windows_attach_notifier s1) as Hw2.
  destruct (attach_notifier s1) as [[[]|e|] s2];
    [|destruct e; cbn; by destruct (teardown _) as [[[]|?|] ?]
     |cbn; by destruct (teardown _) as [[[]|?|] ?]].
  cbn [fst snd] in Hw1, Hw2.
  assert (Hw : windows s = windows s2) by (by rewrite Hw2, Hw1).
  rewrite bind_unfold.
  destruct (poll_commands dev polling ∅ s2) as [[m1|e|] s3] eqn:Hmain;
    [|destruct e; cbn; by destruct (teardown _) as [[[]|?|] ?]
     |cbn; by destruct (teardown _) as [[[]|?|] ?]].
  destruct (poll_battery_packs dev pack_commands m1 s3) as [[m2|e|] s4] eqn:Hpacks;
    [|destruct e; cbn; by destruct (teardown _) as [[[]|?|] ?]
     |cbn; by destruct (teardown _) as [[[]|?|] ?]].
  cbn [fst snd on_poll_outcome].
  pose proof (windows_teardown s4) as Hw5.
  destruct (teardown s4) as [[[]|?|] s5]; [|done..].
  cbn in Hw5 |- *. intros [= <-]. rewrite Hw5.
  destruct (poll_commands_keys _ _ _ _ _ _ Hmain) as (heard1 & Hws1 & Hkeys1).
  assert (Hm1 : ∀ heard2 key, key ∈ dom m1 →
            decoded_by dev polling (heard1 ++ heard2) key
            ∨ decoded_for_a_pack dev pack_commands (seq 1 (pack_num_max dev))
                (heard1 ++ heard2) key).
  { intros heard2 key [Hkey|Hkey]%Hkeys1; [by rewrite dom_empty_L in Hkey|].
    left. apply (decoded_by_mono dev _ polling _ heard1); [done| |done].
    intros w Hw'. apply elem_of_app. by left. }
  unfold poll_battery_packs in Hpacks. case_bool_decide.
  2:{ injection Hpacks as <- <-. exists heard1. split; [by rewrite Hw|].
      intros key Hkey. specialize (Hm1 [] key Hkey). by rewrite app_nil_r in Hm1. }
  rewrite bind_unfold in Hpacks. cbn in Hpacks.
  destruct (poll_packs_keys _ _ _ _ _ _ _ Hpacks) as (heard2 & Hws2 & Hkeys2).
  exists (heard1 ++ heard2). split.
  { cbn in Hws2. by rewrite Hw, Hws1, Hws2, app_assoc. }
  intros key [Hkey|(field & p & Hfield & Hp & ->)]%Hkeys2; [by apply Hm1|].
  right. exists field, p. split; [|done].
  apply (decoded_by_mono dev _ pack_commands _ heard2); [done| |done].
  intros w Hw'. apply elem_of_app. by right.
Qed.

End keys.

(** A filtered poll of the pack register, answered by pack 1: the poll went
    through the one window of the link, and every key of the map returned
    was decoded from the answer in it. *)
Lemma result_keys_are_decoded_witness :
  let s := Sample.answers [] [[pack_response x01]]
             (Sample.idle (Some Sample.device) false) in
  let run := read_data (H := Sample.modbus) (Some [Sample.read_pack]) s in
  ∃ heard,
    windows s = heard ++ windows run.2
    ∧ (decoded_by (H := Sample.modbus) Sample.device [Sample.read_pack] heard
         "pack_voltage"
       ∨ decoded_for_a_pack (H := Sample.modbus) Sample.device [] [1; 2]%nat heard
           "pack_voltage").
Proof.
  intros s run.
  destruct (result_keys_are_decoded (H := Sample.modbus) (Some [Sample.read_pack])
              Sample.device s
              (default ∅ (match run.1 with Ret m => m | _ => None end)))
    as (heard & Hws & Hkeys).
  - reflexivity.
  - vm_compute. reflexivity.
  - exists heard. split; [exact Hws|]. apply Hkeys.
    apply elem_of_dom. exists (VInt 5300). vm_compute. reflexivity.
Defined.

(** ** Setting the entities up, and what updates leave of them *)

Section dicts.
Context {V : Type}.
Implicit Types d other : odict V.

Lemma odict_set_keys d k v :
  (odict_set d k v).*1 = if bool_decide (k ∈ d.*1) then d.*1 else d.*1 ++ [k].
Proof.
  unfold odict_set. case_bool_decide as Hk; [|by rewrite fmap_app].
  clear Hk. induction d as [|[k' v'] d IH]; [done|].
  cbn. rewrite IH. by case_bool_decide; simplify_eq/=.
Qed.

Lemma odict_set_NoDup d k v : NoDup d.*1 → NoDup (odict_set d k v).*1.
Proof.
  intros Hd. rewrite odict_set_keys. case_bool_decide as Hk; [done|].
  apply NoDup_app. split; [done|]. split; [|apply NoDup_singleton].
  by intros k' Hk' ->%list_elem_of_singleton.
Qed.

Lemma odict_update_NoDup d other : NoDup d.*1 → NoDup (odict_update d other).*1.
Proof.
  revert d. induction other as [|[k v] other IH]; intros d Hd; [done|].
  apply IH. by apply odict_set_NoDup.
Qed.

Lemma odict_update_keys_l d other k : k ∈ d.*1 → k ∈ (odict_update d other).*1.
Proof.
  revert d. induction other as [|[k' v'] other IH]; intros d Hk; [done|].
  apply IH. rewrite odict_set_keys. case_bool_decide; [done|].
  apply elem_of_app. by left.
Qed.

Lemma odict_update_keys_r d other k : k ∈ other.*1 → k ∈ (odict_update d other).*1.
Proof.
  revert d. induction other as [|[k' v'] other IH]; intros d Hk;
    [by apply elem_of_nil in Hk|].
  cbn in Hk. apply elem_of_cons in Hk as [-> | Hk]; [|by apply IH].
  change (k' ∈ (odict_update (odict_set d k' v') other).*1).
  apply odict_update_keys_l. rewrite odict_set_keys.
  case_bool_decide; [done|]. apply elem_of_app. right. by apply list_elem_of_singleton.
Qed.

(** An update whose keys are all there moves no key. *)
Lemma odict_update_keys_same d other :
  (∀ k, k ∈ other.*1 → k ∈ d.*1) → (odict_update d other).*1 = d.*1.
Proof.
  revert d. induction other as [|[k v] other IH]; intros d Hin; [done|].
  assert (Hk : k ∈ d.*1) by (apply Hin; cbn; by apply elem_of_cons; left).
  assert (Hset : (odict_set d k v).*1 = d.*1)
    by (by rewrite odict_set_keys, bool_decide_eq_true_2).
  change ((odict_update (odict_set d k v) other).*1 = d.*1).
  rewrite IH; [done|].
  intros k' Hk'. rewrite Hset. apply Hin. cbn. by apply elem_of_cons; right.
Qed.

Lemma odict_replace_insert d k v :
  <[k:=v]> (list_to_map (M := gmap string V)
              ((λ kv, if bool_decide (kv.1 = k) then (k, v) else kv) <$> d))
  = <[k:=v]> (list_to_map d).
Proof.
  induction d as [|[k' v'] d IH]; [done|]. cbn.
  case_bool_decide as Hk; cbn.
  - subst k'. by rewrite !insert_insert_eq.
  - rewrite (insert_insert_ne _ k k') by done. rewrite IH.
    by rewrite (insert_insert_ne _ k' k) by done.
Qed.

Lemma odict_replace_lookup d k v :
  k ∈ d.*1 →
  list_to_map (M := gmap string V)
    ((λ kv, if bool_decide (kv.1 = k) then (k, v) else kv) <$> d) !! k = Some v.
Proof.
  induction d as [|[k' v'] d IH]; [by intros ?%elem_of_nil|]. cbn.
  intros Hk. case_bool_decide as Hk'; cbn.
  - apply lookup_insert_eq.
  - rewrite lookup_insert_ne by done. apply IH.
    apply elem_of_cons in Hk as [?|?]; [by subst|done].
Qed.

(** As a finite map, [d[k] = v] is an insertion. *)
Lemma odict_set_map d k v :
  list_to_map (M := gmap string V) (odict_set d k v) = <[k:=v]> (list_to_map d).
Proof.
  unfold odict_set. case_bool_decide as Hk.
  - rewrite <-odict_replace_insert. symmetry. apply insert_id.
    by apply odict_replace_lookup.
  - rewrite list_to_map_app. cbn. rewrite insert_empty.
    symmetry. apply insert_union_singleton_r.
    by apply not_elem_of_list_to_map_1.
Qed.

(** As a finite map, [d.update(other)] puts the entries of [other] over
    those of [d]. *)
Lemma odict_update_map d other :
  list_to_map (M := gmap string V) (odict_update d other)
  = list_to_map (reverse other) ∪ list_to_map d.
Proof.
  revert d. induction other as [|[k v] other IH]; intros d.
  - cbn. by rewrite (left_id_L ∅ (∪)).
  - change (odict_update d ((k, v) :: other))
      with (odict_update (odict_set d k v) other).
    rewrite IH, odict_set_map, reverse_cons, list_to_map_app. cbn.
    rewrite insert_empty, <-(assoc_L (∪)). by rewrite insert_union_singleton_l.
Qed.

(** Two dicts with the same keys in the same order and the same values are
    the same dict. *)
Lemma odict_ext (d1 d2 : odict V) :
  NoDup d1.*1 → d1.*1 = d2.*1 →
  list_to_map (M := gmap string V) d1 = list_to_map d2 → d1 = d2.
Proof.
  revert d2. induction d1 as [|[k v] d1 IH]; intros [|[k2 v2] d2] Hnd Hkeys Hmap;
    try done.
  cbn in Hkeys. injection Hkeys as <- Hkeys.
  apply NoDup_cons in Hnd as [Hk Hnd]. cbn in Hmap.
  assert (Hv : v = v2).
  { apply (f_equal (λ m, m !! k)) in Hmap. rewrite !lookup_insert_eq in Hmap.
    congruence. }
  subst v2. f_equal. apply IH; [done..|].
  apply (f_equal (delete k)) in Hmap. rewrite !delete_insert_eq in Hmap.
  rewrite !delete_id in Hmap; [done|..];
    apply not_elem_of_list_to_map_1; [by rewrite <-Hkeys|done].
Qed.

(** Updating with the same two dicts a second time changes nothing. *)
Lemma odict_update_twice d other1 other2 :
  NoDup d.*1 →
  let d' := odict_update (odict_update d other1) other2 in
  odict_update (odict_update d' other1) other2 = d'.
Proof.
  intros Hd d'. symmetry. apply odict_ext.
  - by do 2 apply odict_update_NoDup.
  - symmetry. rewrite odict_update_keys_same.
    + apply odict_update_keys_same. intros k Hk.
      by apply odict_update_keys_l, odict_update_keys_r.
    + intros k Hk. apply odict_update_keys_l. by apply odict_update_keys_r.
  - unfold d'. rewrite !odict_update_map.
    apply map_eq. intros i. rewrite !lookup_union.
    by destruct (list_to_map (reverse other2) !! i),
      (list_to_map (reverse other1) !! i), (list_to_map d !! i).
Qed.

Lemma foldl_snoc_omap {A B} (g : list B → A → list B) (f : A → option B)
    (l : list A) (acc : list B) :
  (∀ acc x, g acc x = match f x with Some y => acc ++ [y] | None => acc end) →
  foldl g acc l = acc ++ omap f l.
Proof.
  intros Hg. revert acc.
  induction l as [|x l IH]; intros acc; cbn; [by rewrite app_nil_r|].
  rewrite IH, Hg. destruct (f x); [by rewrite <-app_assoc|done].
Qed.

End dicts.

Section setup.

Import binary_sensor.

Lemma setup_sensors (FIELD_ATTRIBUTES : odict FieldAttributes)
    (address : option string) (has_field : string → bool) :
  (async_setup_entry FIELD_ATTRIBUTES address has_field).2
  = omap (sensor_of has_field) FIELD_ATTRIBUTES.
Proof.
  unfold async_setup_entry. cbn [snd].
  apply (foldl_snoc_omap _ (sensor_of has_field) _ []).
  intros acc [k cfg]. unfold sensor_of. cbn.
  by destruct (has_field k), (is_BOOL cfg).
Qed.

Lemma sensor_keys (has_field : string → bool) (table : odict FieldAttributes) :
  (_response_key ∘ entity <$> omap (sensor_of has_field) table)
  `sublist_of` table.*1.
Proof.
  induction table as [|[k cfg] table IH]; [done|]. cbn.
  unfold sensor_of at 1. cbn.
  destruct (_ && _); cbn; [by apply sublist_skip | by apply sublist_cons].
Qed.

(** X17. [async_setup_entry] of [binary_sensor.py] makes one sensor for each
    entry of [FIELD_ATTRIBUTES] that the device has and whose type is
    [BOOL], and no other: the sensor starts unavailable, with the name of
    the entry, in the diagnostic category when the entry has a setter and
    in none otherwise.  No two sensors share a key.  A missing address is
    logged as an error and the set-up goes on. *)
Theorem binary_sensors_set_up (FIELD_ATTRIBUTES : odict FieldAttributes)
    (address : option string) (has_field : string → bool) :
  NoDup FIELD_ATTRIBUTES.*1 →
  let run := async_setup_entry FIELD_ATTRIBUTES address has_field in
  (∀ sensor, sensor ∈ run.2 ↔
     ∃ field_key field_config,
       (field_key, field_config) ∈ FIELD_ATTRIBUTES
       ∧ has_field field_key = true ∧ is_BOOL field_config = true
       ∧ sensor = mkSensor (mkEntity field_key false None 0) (name field_config)
                    (if setter field_config then Some DIAGNOSTIC else None))
  ∧ NoDup (_response_key ∘ entity <$> run.2)
  ∧ ((Error, DeviceHasNoAddress) ∈ run.1 ↔ address = None).
Proof.
  intros Hnd run. unfold run. rewrite setup_sensors.
  split; [|split].
  - intros sensor. rewrite list_elem_of_omap. split.
    + intros ([k cfg] & Hin & Hs). unfold sensor_of in Hs. cbn in Hs.
      destruct (has_field k) eqn:Hf, (is_BOOL cfg) eqn:Hb; try done.
      injection Hs as <-. by exists k, cfg.
    + intros (k & cfg & Hin & Hf & Hb & ->). exists (k, cfg).
      split; [done|]. unfold sensor_of. cbn. by rewrite Hf, Hb.
  - exact (sublist_NoDup _ _ Hnd (sensor_keys _ _)).
  - unfold async_setup_entry. cbn [fst]. destruct address as [a|]; cbn.
    + split; [|done]. by intros [=]%list_elem_of_singleton.
    + split; [done|]. intros _. apply elem_of_cons. by left.
Qed.

End setup.

Section button_setup.

Import button.

Lemma setup_buttons
    (NORMAL_DEVICE_FIELDS DC_INPUT_FIELDS ADDITIONAL_DEVICE_FIELDS : odict MqttFieldConfig)
    (CONTROL_FIELDS : list string) (address : option string)
    (bluetti_device : Device) (has_field : string → bool) :
  let run := async_setup_entry NORMAL_DEVICE_FIELDS DC_INPUT_FIELDS
               ADDITIONAL_DEVICE_FIELDS CONTROL_FIELDS address bluetti_device has_field in
  run.2 = omap (button_of CONTROL_FIELDS bluetti_device has_field) run.1.1.
Proof.
  unfold async_setup_entry. cbn [fst snd].
  apply (foldl_snoc_omap _ (button_of CONTROL_FIELDS bluetti_device has_field) _ []).
  intros acc [k cfg]. unfold button_of. cbn.
  by destruct (has_field k), (is_BUTTON cfg), (setter cfg), (bool_decide _).
Qed.

(** X18. [async_setup_entry] of [button.py] updates the shared table
    [NORMAL_DEVICE_FIELDS] in place, with the DC input fields and then the
    additional fields, a later entry replacing an earlier one of the same
    key.  A second set-up over the table the first one left changes nothing
    and makes the same buttons: those of the entries the device has, of
    type [BUTTON], with a setter and among the control fields, each named
    by the [name] of [home_assistant_extra], or by the empty string. *)
Theorem button_setup_is_repeatable
    (NORMAL_DEVICE_FIELDS DC_INPUT_FIELDS ADDITIONAL_DEVICE_FIELDS : odict MqttFieldConfig)
    (CONTROL_FIELDS : list string) (address : option string)
    (bluetti_device : Device) (has_field : string → bool) :
  NoDup NORMAL_DEVICE_FIELDS.*1 →
  let first := async_setup_entry NORMAL_DEVICE_FIELDS DC_INPUT_FIELDS
                 ADDITIONAL_DEVICE_FIELDS CONTROL_FIELDS address bluetti_device has_field in
  let second := async_setup_entry first.1.1 DC_INPUT_FIELDS
                  ADDITIONAL_DEVICE_FIELDS CONTROL_FIELDS address bluetti_device has_field in
  second = first
  ∧ NoDup first.1.1.*1
  ∧ (∀ k, k ∈ NORMAL_DEVICE_FIELDS.*1 ∨ k ∈ DC_INPUT_FIELDS.*1
          ∨ k ∈ ADDITIONAL_DEVICE_FIELDS.*1 → k ∈ first.1.1.*1)
  ∧ list_to_map (M := gmap string MqttFieldConfig) first.1.1
    = list_to_map (reverse ADDITIONAL_DEVICE_FIELDS)
      ∪ list_to_map (reverse DC_INPUT_FIELDS)
      ∪ list_to_map NORMAL_DEVICE_FIELDS
  ∧ (∀ created, created ∈ first.2 ↔
       ∃ field_key field_config,
         (field_key, field_config) ∈ first.1.1
         ∧ has_field field_key = true ∧ is_BUTTON field_config = true
         ∧ setter field_config = true ∧ field_key ∈ CONTROL_FIELDS
         ∧ created
           = mkCreated
               (BluettiButton.mkButton (mkEntity field_key false None 0) bluetti_device)
               (default ""%string (home_assistant_extra field_config !! "name"%string))).
Proof.
  intros Hnd first second.
  assert (Htable : second.1.1 = first.1.1).
  { unfold second, first, async_setup_entry. cbn [fst].
    by apply odict_update_twice. }
  split; [|split; [|split; [|split]]].
  - unfold second, async_setup_entry in *. cbn [fst] in Htable. by rewrite Htable.
  - unfold first, async_setup_entry. cbn [fst]. by do 2 apply odict_update_NoDup.
  - unfold first, async_setup_entry. cbn [fst]. intros k [Hk|[Hk|Hk]].
    + by do 2 apply odict_update_keys_l.
    + by apply odict_update_keys_l, odict_update_keys_r.
    + by apply odict_update_keys_r.
  - unfold first, async_setup_entry. cbn [fst].
    by rewrite !odict_update_map, (assoc_L (∪)).
  - intros created. unfold first. rewrite setup_buttons. cbn zeta.
    rewrite list_elem_of_omap. split.
    + intros ([k cfg] & Hin & Hb). unfold button_of in Hb. cbn in Hb.
      destruct (has_field k) eqn:Hf, (is_BUTTON cfg) eqn:Ht, (setter cfg) eqn:Hs;
        try done.
      cbn in Hb. case_bool_decide as Hk; [|done].
      injection Hb as <-. by exists k, cfg.
    + intros (k & cfg & Hin & Hf & Ht & Hs & Hk & ->). exists (k, cfg).
      split; [done|]. unfold button_of. cbn.
      by rewrite Hf, Ht, Hs, bool_decide_eq_true_2.
Qed.

End button_setup.

Section updating.

(** One update, by cases on the guard and on what the data hold. *)
Lemma update_cases (c : Coordinator) (e : Entity) :
  BluettiBinarySensor._handle_coordinator_update c e
  = if connection_down c then e
    else match holds_bool c (_response_key e) with
         | Some b => with_state b e
         | None => with_available false e
         end.
Proof.
  unfold BluettiBinarySensor._handle_coordinator_update, connection_down, holds_bool.
  destruct (_ && _); [done|]. destruct (data c) as [d|]; [|done].
  unfold dict_get. by destruct (d !! _response_key e) as [[|[]| | | |]|].
Qed.

(** X16. After any sequence of coordinator updates, an entity has the key it
    had; it is available exactly when the last update that got past the
    guard held a [bool] under that key; its state is the last [bool] so
    held, by an update past the guard; and its state was written once for
    each such update.  The buttons are updated in the same way. *)
Theorem entity_state_after_updates (cs : list Coordinator) (e : Entity) :
  let key := _response_key e in
  let told := omap (λ c, holds_bool c key) (heeded cs) in
  let e' := updates cs e in
  _response_key e' = key
  ∧ _attr_available e'
    = match last (heeded cs) with
      | Some c => bool_decide (is_Some (holds_bool c key))
      | None => _attr_available e
      end
  ∧ _attr_is_on e' = match last told with Some b => Some b | None => _attr_is_on e end
  ∧ written_states e' = (written_states e + length told)%nat
  ∧ foldl (λ e c, BluettiButton._handle_coordinator_update c e) e cs = e'.
Proof.
  intros key told e'.
  enough (_response_key e' = key
          ∧ _attr_available e'
            = match last (heeded cs) with
              | Some c => bool_decide (is_Some (holds_bool c key))
              | None => _attr_available e
              end
          ∧ _attr_is_on e'
            = match last told with Some b => Some b | None => _attr_is_on e end
          ∧ written_states e' = (written_states e + length told)%nat)
    as (? & ? & ? & ?) by done.
  unfold told, e', updates, heeded.
  induction cs as [|c cs IH] using rev_ind.
  { cbn. repeat split; (done || lia). }
  destruct IH as (Hkey & Hav & Hon & Hw).
  rewrite foldl_app, filter_app, omap_app. cbn [foldl].
  set (e1 := foldl _ e cs) in *.
  rewrite update_cases, Hkey. fold key.
  rewrite filter_cons, filter_nil.
  destruct (decide (connection_down c = false)) as [Hc|Hc].
  - rewrite Hc. rewrite last_snoc.
    change (omap (λ c0, holds_bool c0 key) [c])
      with (match holds_bool c key with Some b => [b] | None => [] end).
    destruct (holds_bool c key) as [b|] eqn:Hb.
    + rewrite last_snoc, length_app. cbn.
      split; [done|]. split; [done|]. split; [done|lia].
    + rewrite app_nil_r. cbn. done.
  - apply not_false_is_true in Hc. rewrite Hc, !app_nil_r. done.
Qed.

End updating.

(** A table of two fields and a device that has both, set up without an
    address. *)
Lemma binary_sensors_set_up_witness :
  let table := [("ac_output_on"%string,
                 binary_sensor.mkFieldAttributes true true "AC Output");
                ("total_battery_percent"%string,
                 binary_sensor.mkFieldAttributes false false "Battery")] in
  let run := binary_sensor.async_setup_entry table None (λ _, true) in
  NoDup (_response_key ∘ binary_sensor.entity <$> run.2)
  ∧ (Error, DeviceHasNoAddress) ∈ run.1.
Proof.
  intros table run.
  destruct (binary_sensors_set_up table None (λ _, true)) as (_ & Hnd & Hlog).
  - apply NoDup_cons. split; [by intros [=]%list_elem_of_singleton|].
    apply NoDup_singleton.
  - split; [exact Hnd|]. by apply Hlog.
Defined.

(** Two set-ups in a row over a table that the additional fields extend and
    override. *)
Lemma button_setup_is_repeatable_witness :
  let on := button.mkMqttFieldConfig true true {[ "name"%string := "AC"%string ]} in
  let off := button.mkMqttFieldConfig true true ∅ in
  let input := button.mkMqttFieldConfig false false ∅ in
  let first := button.async_setup_entry [("ac_output_on"%string, input)]
                 [("dc_input_power1"%string, input)]
                 [("ac_output_on"%string, on); ("power_off"%string, off)]
                 ["ac_output_on"%string] None Sample.device (λ _, true) in
  button.async_setup_entry first.1.1
    [("dc_input_power1"%string, input)]
    [("ac_output_on"%string, on); ("power_off"%string, off)]
    ["ac_output_on"%string] None Sample.device (λ _, true)
  = first.
Proof.
  intros on off input first.
  refine (proj1 (button_setup_is_repeatable [("ac_output_on"%string, input)]
           [("dc_input_power1"%string, input)]
           [("ac_output_on"%string, on); ("power_off"%string, off)]
           ["ac_output_on"%string] None Sample.device (λ _, true) _)).
  apply NoDup_singleton.
Defined.

(** ** The connect loop in a poll *)

Section retry.
Context `{!Codec}.

Lemma connects_app (evs1 evs2 : list event) :
  connects (evs1 ++ evs2) = connects evs1 ++ connects evs2.
Proof. apply omap_app. Qed.

Lemma loop_events_connects (evs : list event) :
  forallb loop_event evs = true → connects evs = [].
Proof.
  induction evs as [|ev evs IH]; [done|]. simpl.
  intros [Hev Hevs]%andb_prop. cbn [connects omap] in *.
  destruct ev as [|[] ?| | | |]; try done; by apply IH.
Qed.

Lemma closing_events_connects (evs : list event) :
  forallb closing_event evs = true → connects evs = [].
Proof.
  induction evs as [|ev evs IH]; [done|]. simpl.
  intros [Hev Hevs]%andb_prop. cbn [connects omap] in *.
  destruct ev as [|[] ?| | | |]; try done; by apply IH.
Qed.

Lemma opened_connects (connect subscribe : bool) (opening : list event) :
  opened connect subscribe opening →
  (length (connects opening) ≤ 1)%nat ∧ (connect = false → connects opening = []).
Proof. intros [? ?|o ? ?|o ? ?|o ? ?]; subst; cbn; split; (lia || done). Qed.

Lemma added_app {A} (s : Sys) (run : res A * Sys) (evs : list event) :
  trace run.2 = trace s ++ evs → added s run = evs.
Proof. intros Htr. unfold added. by rewrite Htr, drop_app_length. Qed.

(** The events of a whole poll, by phases. *)
Lemma read_data_phases (filter_registers : option (list Command)) (dev : Device) (s : Sys) :
  bluetti_device (self s) = Some dev →
  ∃ opening exchanges closing,
    added s (read_data filter_registers s)
    = [Log Info ReadingData; Acquire] ++ opening ++ exchanges ++ closing ++ [Release]
    ∧ opened (needs_connect s) (negb (has_notifier (self s))) opening
    ∧ forallb loop_event exchanges = true
    ∧ forallb closing_event closing = true.
Proof.
  intros Hdev. rewrite (read_data_eq _ dev) by done. cbn zeta.
  set (polling := from_option id _ _).
  set (pack_commands := match filter_registers with Some _ => [] | None => _ end).
  set (s0 := record Acquire _).
  destruct (poll_body_shape dev polling pack_commands s0)
    as (opening & exchanges & Htr & Hopen & Hev & _).
  destruct (poll_body dev polling pack_commands s0) as [r s1]. cbn [fst snd] in *.
  destruct (on_poll_outcome_closing r s1) as (logged & Htr1 & Hl & _).
  destruct (teardown_calls (on_poll_outcome r s1).2) as (td & Htr2 & Htd).
  exists opening, exchanges, (logged ++ td).
  split; [|split; [done|split; [done|]]].
  - apply added_app. cbn [trace record snd]. rewrite Htr2, Htr1, Htr.
    unfold s0. cbn [trace record]. by rewrite <-!app_assoc.
  - rewrite forallb_app, Hl. by apply teardown_closing.
Qed.

(** A poll makes one attempt to connect at most, and none when the client
    is connected. *)
Lemma read_data_connects_once
    (filter_registers : option (list Command)) (dev : Device) (s : Sys) :
  bluetti_device (self s) = Some dev →
  let evs := added s (read_data filter_registers s) in
  (length (connects evs) ≤ 1)%nat
  ∧ (is_connected s = true → connects evs = []).
Proof.
  intros Hdev evs. unfold evs.
  destruct (read_data_phases filter_registers dev s Hdev)
    as (opening & exchanges & closing & -> & Hopen & Hev & Hcl).
  destruct (opened_connects _ _ _ Hopen) as [Hlen Hnone].
  rewrite !connects_app, (loop_events_connects _ Hev), (closing_events_connects _ Hcl).
  cbn. rewrite !app_nil_r. split; [done|].
  intros Hc. apply Hnone. unfold needs_connect. by rewrite Hc, orb_true_r.
Qed.

(** The [finally] clause of [read_data] returns when none of its calls
    failed. *)
Lemma teardown_returns (s : Sys) :
  ∃ td, trace (teardown s).2 = trace s ++ td
        ∧ forallb teardown_call td = true
        ∧ (existsb call_failed td = false → (teardown s).1 = Ret tt).
Proof.
  rewrite teardown_eq.
  destruct (persistent_conn (self s)).
  { exists []. simpl. by rewrite app_nil_r. }
  destruct (has_notifier (self s)).
  - destruct (hd Done (replies s)) as [|e].
    + rewrite disconnect_eq. set (s1 := set_self _ _).
      destruct (hd Done (replies s1)) as [|e].
      * exists [Call StopNotify Returned; Call Disconnect Returned].
        unfold s1. simpl. autorewrite with sys. simpl. autorewrite with sys.
        by rewrite <-?app_assoc.
      * exists [Call StopNotify Returned; Call Disconnect (Raised e)].
        unfold s1. simpl. autorewrite with sys. simpl. autorewrite with sys.
        by rewrite <-?app_assoc.
    + exists [Call StopNotify (Raised e)]. simpl. by autorewrite with sys.
  - rewrite disconnect_eq. destruct (hd Done (replies s)) as [|e].
    + exists [Call Disconnect Returned]. cbn. by autorewrite with sys.
    + exists [Call Disconnect (Raised e)]. cbn. by autorewrite with sys.
Qed.

(** What follows a [connect] that returned: the notifier is attached if it
    is not, and the loops run. *)
Lemma after_connect_events (dev : Device) (polling pack_commands : list Command)
    (s : Sys) :
  let run := (attach_notifier ≫= λ _,
                poll_commands dev polling ∅ ≫= poll_battery_packs dev pack_commands) s in
  ∃ evs, trace run.2 = trace s ++ evs
         ∧ (has_notifier (self s) = false → ∃ o evs', evs = Call StartNotify o :: evs').
Proof.
  intros run. unfold run. rewrite bind_unfold.
  destruct (attach_notifier_run s) as [_ Hrun].
  assert (Hloops : ∀ s1, ∃ evs,
            trace ((poll_commands dev polling ∅
                    ≫= poll_battery_packs dev pack_commands) s1).2 = trace s1 ++ evs).
  { intros s1. destruct (proj1 (poll_loops dev polling pack_commands) s1)
      as (evs & Htr & _). by exists evs. }
  destruct (has_notifier (self s)).
  - rewrite Hrun. destruct (Hloops s) as (evs & Htr). exists evs. by split.
  - destruct Hrun as (o & Htr & _).
    destruct (attach_notifier s) as [[[]|e|] s1]; cbn [fst snd] in *.
    + destruct (Hloops s1) as (evs & Htr1). exists (Call StartNotify o :: evs).
      rewrite Htr1, Htr, <-app_assoc. split; [done|]. intros _. by exists o, evs.
    + exists [Call StartNotify o]. split; [done|]. intros _. by exists o, [].
    + exists [Call StartNotify o]. split; [done|]. intros _. by exists o, [].
Qed.

(** C2. In [read_data], with a retry count of 2 or more, the connect loop
    is entered at attempt 1.  When the client is connected no attempt is
    made.  When the first attempt returns the loop stops: no other attempt
    follows and the poll goes on, with [start_notify] if the notifier is
    not attached.  When the first attempt raises, the exception leaves the
    loop at once, with no warning logged, no delay and no other attempt,
    and the poll is aborted: nothing follows but the error line and the
    [finally] clause, and no map is returned; if the calls of the
    [finally] clause return, [read_data] returns [None] for [TimeoutError]
    and [BleakError] and raises any other exception.  So a poll makes one
    attempt at most, and the failure of a later attempt does not arise in
    it.  The loop itself, entered at any attempt, lets a failure of attempt
    1 or of attempt [max_retries] out at once, and after a failure of an
    attempt strictly between the two it logs a warning, sleeps 2 seconds
    and goes on with the next attempt. *)
Theorem connect_retry_policy
    (filter_registers : option (list Command)) (dev : Device) (s : Sys) :
  bluetti_device (self s) = Some dev →
  (2 ≤ max_retries (self s))%nat →
  let run := read_data filter_registers s in
  let evs := added s run in
  (length (connects evs) ≤ 1)%nat
  ∧ (is_connected s = true → connects evs = [])
  ∧ (is_connected s = false → fired s = false → hd Done (replies s) = Done →
       connects evs = [Returned]
       ∧ ∃ rest,
           evs = [Log Info ReadingData; Acquire; Call Connect Returned] ++ rest
           ∧ (has_notifier (self s) = false →
                ∃ o rest', rest = Call StartNotify o :: rest'))
  ∧ (∀ e, is_connected s = false → fired s = false → hd Done (replies s) = Fails e →
       connects evs = [Raised e]
       ∧ ∃ closing,
           evs = [Log Info ReadingData; Acquire; Call Connect (Raised e)]
                 ++ closing ++ [Release]
           ∧ forallb closing_event closing = true
           ∧ (∀ m, run.1 ≠ Ret (Some m))
           ∧ (existsb call_failed closing = false →
                run.1 = if caught_by_poll e then Ret None else Raise e))
  ∧ (∀ attempt rest s' e,
       fired s' = false → is_connected s' = false → hd Done (replies s') = Fails e →
       let loop := connect_attempts (max_retries (self s)) in
       let made := record (Call Connect (Raised e)) (answered (spend s')) in
       let logged := record (Log Warning (ConnectUnsuccessful attempt e)) made in
       (attempt = 1%nat ∨ attempt = max_retries (self s) →
          loop (attempt :: rest) s' = (Raise e, made))
       ∧ ((1 < attempt < max_retries (self s))%nat →
            loop (attempt :: rest) s'
            = if fired logged then (Cancel, record (Call (Sleep 2) Interrupted) logged)
              else loop rest (record (Call (Sleep 2) Returned) (spend logged)))).
Proof.
  intros Hdev Hmax run evs.
  destruct (read_data_connects_once filter_registers dev s Hdev) as [Hlen Hnone].
  fold run evs in Hlen, Hnone.
  split; [done|]. split; [done|].
  set (polling := from_option id (polling_commands dev) filter_registers).
  set (pack_commands :=
         match filter_registers with Some _ => [] | None => pack_polling_commands dev end).
  set (s0 := record Acquire (record (Log Info ReadingData) s)).
  assert (Hfirst : is_connected s = false → fired s = false →
            connect_attempts (max_retries (self s0)) (seq 1 (max_retries (self s0))) s0
            = match hd Done (replies s) with
              | Done => (Ret tt, set_is_connected true
                                   (record (Call Connect Returned) (answered (spend s0))))
              | Fails e => (Raise e, record (Call Connect (Raised e)) (answered (spend s0)))
              end).
  { intros Hc Hf. rewrite connect_attempts_from_first.
    rewrite bool_decide_eq_false_2 by (cbn; lia).
    change (is_connected s0) with (is_connected s). rewrite Hc. cbn [orb].
    rewrite connect_eq, call_eq. cbn [andb].
    change (fired s0) with (fired s). rewrite Hf. cbn zeta.
    change (replies s0) with (replies s). by destruct (hd Done (replies s)). }
  split; [|split].
  - intros Hc Hf Hreply.
    assert (Hevs : ∃ rest,
              evs = [Log Info ReadingData; Acquire; Call Connect Returned] ++ rest
              ∧ (has_notifier (self s) = false →
                   ∃ o rest', rest = Call StartNotify o :: rest')).
    { unfold evs, run. rewrite (read_data_eq _ dev) by done. cbn zeta.
      fold polling pack_commands s0.
      rewrite poll_body_eq, (Hfirst Hc Hf), Hreply.
      set (s1 := set_is_connected true _).
      assert (Htr1 : trace s1 = trace s ++ [Log Info ReadingData; Acquire;
                                            Call Connect Returned]).
      { unfold s1, s0. cbn. autorewrite with sys. cbn. by rewrite <-!app_assoc. }
      assert (Hn1 : has_notifier (self s1) = has_notifier (self s)).
      { unfold s1, s0. cbn. by autorewrite with sys. }
      destruct (after_connect_events dev polling pack_commands s1)
        as (body & Htr & Hstart).
      rewrite Hn1 in Hstart. rewrite bind_unfold in Htr.
      set (polled := match attach_notifier s1 with
                     | (Ret _, s2) => _ | (Raise e, s2) => _ | (Cancel, s2) => _
                     end).
      assert (Htrp : trace polled.2 = trace s1 ++ body).
      { unfold polled. by destruct (attach_notifier s1) as [[[]|e|] s2]. }
      clearbody polled.
      destruct (on_poll_outcome_closing polled.1 polled.2) as (logged & Htr2 & _).
      destruct (teardown_calls (on_poll_outcome polled.1 polled.2).2)
        as (td & Htr3 & _).
      exists (body ++ logged ++ td ++ [Release]). split.
      - apply added_app. cbn [trace record snd].
        rewrite Htr3, Htr2, Htrp, Htr1. by rewrite <-!app_assoc.
      - intros Hn. destruct (Hstart Hn) as (o & body' & ->).
        by exists o, (body' ++ logged ++ td ++ [Release]). }
    destruct Hevs as (rest & Hevs & Hstart). split; [|by exists rest].
    rewrite Hevs, connects_app in Hlen |- *.
    change (connects [Log Info ReadingData; Acquire; Call Connect Returned])
      with [Returned] in Hlen |- *.
    destruct (connects rest); [done|cbn in Hlen; lia].
  - intros e Hc Hf Hreply.
    assert (Hevs : ∃ closing,
              evs = [Log Info ReadingData; Acquire; Call Connect (Raised e)]
                    ++ closing ++ [Release]
              ∧ forallb closing_event closing = true
              ∧ (∀ m, run.1 ≠ Ret (Some m))
              ∧ (existsb call_failed closing = false →
                   run.1 = if caught_by_poll e then Ret None else Raise e)).
    { unfold evs, run. rewrite (read_data_eq _ dev) by done. cbn zeta.
      fold polling pack_commands s0.
      rewrite poll_body_eq, (Hfirst Hc Hf), Hreply. cbn [fst snd].
      set (s1 := record (Call Connect (Raised e)) _).
      assert (Htr1 : trace s1 = trace s ++ [Log Info ReadingData; Acquire;
                                            Call Connect (Raised e)]).
      { unfold s1, s0. cbn. autorewrite with sys. cbn. by rewrite <-!app_assoc. }
      clearbody s1.
      assert (Hhandled : ∃ logged,
                trace (on_poll_outcome (Raise e) s1).2 = trace s1 ++ logged
                ∧ forallb closing_event logged = true
                ∧ existsb call_failed logged = false
                ∧ (on_poll_outcome (Raise e) s1).1
                  = if caught_by_poll e then Ret None else Raise e).
      { destruct e; cbn; try (exists []; by rewrite app_nil_r); by eexists [_]. }
      destruct Hhandled as (logged & Htr2 & Hl & Hlf & Hres).
      destruct (teardown_returns (on_poll_outcome (Raise e) s1).2)
        as (td & Htr3 & Htd & Hret).
      exists (logged ++ td). split; [|split; [|split]].
      - apply added_app. cbn [trace record snd].
        rewrite Htr3, Htr2, Htr1. by rewrite <-!app_assoc.
      - rewrite forallb_app, Hl. by apply teardown_closing.
      - intros m. cbn [fst]. rewrite Hres.
        destruct (teardown _).1 as [[]|?|]; by destruct (caught_by_poll e).
      - rewrite existsb_app, Hlf. cbn [orb fst]. intros Hok.
        by rewrite (Hret Hok), Hres. }
    destruct Hevs as (closing & Hevs & Hcl & Hrest). split; [|by exists closing].
    rewrite Hevs, !connects_app, (closing_events_connects _ Hcl). done.
  - intros attempt rest s' e Hf Hc Hreply loop made logged.
    destruct (connect_attempt (max_retries (self s)) attempt rest s' e Hmax Hf)
      as (_ & _ & Hraise & Hretry).
    split; [by apply Hraise | by apply Hretry].
Qed.

End retry.

(** A first attempt that raises [BleakError], on a link that would answer
    the next call: no second attempt is made and [read_data] returns
    [None]. *)
Lemma connect_retry_policy_witness :
  let s := Sample.answers [Fails BleakError; Done] []
             (Sample.idle (Some Sample.device) false) in
  let run := read_data (H := Sample.modbus) None s in
  connects (added s run) = [Raised BleakError]
  ∧ run.1 = Ret None.
Proof.
  intros s run.
  destruct (connect_retry_policy (H := Sample.modbus) None Sample.device s)
    as (_ & _ & _ & Hfail & _); [reflexivity | vm_compute; lia |].
  destruct (Hfail BleakError) as (Hconnects & closing & Hevs & _ & _ & Hres);
    [reflexivity..|].
  split; [exact Hconnects|]. apply Hres.
  vm_compute in Hevs. injection Hevs as Hevs.
  apply (app_inj_tail [Log Error BleakErrorMsg; Call Disconnect Returned]) in Hevs
    as [<- _].
  reflexivity.
Defined.

(** ** The pack loop in a poll *)

Section pack_iteration.
Context `{!Codec}.

#[local] Existing Instance suffix_inj.

Lemma poll_pack_commands_app (dev : Device) (pack : nat) (before rest : list Command)
    (parsed_data : gmap string value) (s : Sys) :
  poll_pack_commands dev pack (before ++ rest) parsed_data s =
  match poll_pack_commands dev pack before parsed_data s with
  | (Ret parsed_data', s1) => poll_pack_commands dev pack rest parsed_data' s1
  | (Raise e, s1) => (Raise e, s1)
  | (Cancel, s1) => (Cancel, s1)
  end.
Proof.
  revert parsed_data s. induction before as [|c before IH]; intros parsed_data s.
  - done.
  - cbn [app]. rewrite !poll_pack_commands_eq.
    destruct (_async_send_command c s) as [[res|e|] s1];
      [|destruct e; try done; apply IH|done].
    cbn zeta. destruct (pack_number_accepted _ _); apply IH.
Qed.

Lemma poll_packs_app (dev : Device) (pack_commands : list Command)
    (packs rest : list nat) (parsed_data : gmap string value) (s : Sys) :
  poll_packs dev pack_commands (packs ++ rest) parsed_data s =
  match poll_packs dev pack_commands packs parsed_data s with
  | (Ret parsed_data', s1) => poll_packs dev pack_commands rest parsed_data' s1
  | (Raise e, s1) => (Raise e, s1)
  | (Cancel, s1) => (Cancel, s1)
  end.
Proof.
  revert parsed_data s. induction packs as [|pack packs IH]; intros parsed_data s.
  - done.
  - cbn [app]. rewrite !poll_packs_eq.
    destruct (_async_send_command _ s) as [[res|e|] s1]; try done.
    destruct (sleep 5 s1) as [[[]|e|] s2]; try done.
    by destruct (poll_pack_commands _ _ _ _ s2) as [[m1|e|] s3].
Qed.

(** [range(1, pack_num_max + 1)] around one of its packs. *)
Lemma packs_around (pack pack_num_max : nat) :
  (1 ≤ pack ≤ pack_num_max)%nat →
  seq 1 pack_num_max = seq 1 (pack - 1) ++ pack :: seq (S pack) (pack_num_max - pack).
Proof.
  intros Hpack.
  replace pack_num_max with ((pack - 1) + S (pack_num_max - pack))%nat at 1 by lia.
  rewrite seq_app. cbn [seq]. by replace (1 + (pack - 1))%nat with pack by lia.
Qed.

(** A poll with packs that reaches a command of the pack loop goes on from
    there as the loops say. *)
Lemma poll_body_around (dev : Device) (polling before after : list Command)
    (c : Command) (pack : nat) (parsed_data : gmap string value) (s s1 : Sys) :
  (1 ≤ pack ≤ pack_num_max dev)%nat →
  poll_up_to dev polling (before ++ c :: after) before pack s = (Ret parsed_data, s1) →
  poll_body dev polling (before ++ c :: after) s =
  match poll_pack_commands dev pack [c] parsed_data s1 with
  | (Ret parsed_data', s2) => poll_from dev (before ++ c :: after) after pack parsed_data' s2
  | (Raise e, s2) => (Raise e, s2)
  | (Cancel, s2) => (Cancel, s2)
  end.
Proof.
  intros Hpack Hup. set (pack_commands := before ++ c :: after) in *.
  unfold poll_up_to in Hup. unfold poll_body, poll_from.
  rewrite bind_unfold in Hup |- *.
  destruct (reconnect s) as [[[]|e|] sa]; try done.
  rewrite bind_unfold in Hup |- *.
  destruct (attach_notifier sa) as [[[]|e|] sb]; try done.
  rewrite bind_unfold in Hup |- *.
  destruct (poll_commands dev polling ∅ sb) as [[m0|e|] sc]; try done.
  rewrite bind_unfold in Hup. unfold log, emit, modify in Hup. cbn beta iota in Hup.
  unfold poll_battery_packs.
  rewrite bool_decide_eq_true_2
    by (unfold pack_commands; rewrite length_app; cbn; lia).
  rewrite bind_unfold. unfold log, emit, modify. cbn beta iota.
  rewrite (packs_around pack (pack_num_max dev)) by done.
  rewrite poll_packs_app. rewrite bind_unfold in Hup.
  destruct (poll_packs dev pack_commands (seq 1 (pack - 1)) m0 _) as [[m1|e|] sd];
    try done.
  rewrite poll_packs_eq. rewrite bind_unfold in Hup.
  destruct (_async_send_command _ sd) as [[res|e|] se]; try done.
  rewrite bind_unfold in Hup.
  destruct (sleep 5 se) as [[[]|e|] sf]; try done.
  unfold pack_commands at 1.
  rewrite poll_pack_commands_app, Hup.
  change (c :: after) with ([c] ++ after). rewrite poll_pack_commands_app.
  by destruct (poll_pack_commands dev pack [c] parsed_data s1) as [[m2|e|] sg].
Qed.

Lemma poll_from_dom (dev : Device) (pack_commands after : list Command) (pack : nat)
    (parsed_data returned : gmap string value) (s s' : Sys) :
  poll_from dev pack_commands after pack parsed_data s = (Ret returned, s') →
  dom parsed_data ⊆ dom returned.
Proof.
  unfold poll_from. rewrite bind_unfold.
  destruct (poll_pack_commands _ _ _ _ s) as [[m1|e|] s1] eqn:Hcmds; try done.
  intros Hrest%poll_packs_dom. apply poll_pack_commands_dom in Hcmds.
  intros key Hkey. by apply Hrest, Hcmds.
Qed.

(** A poll whose block under the timeout scope and whose teardown return. *)
Lemma read_data_returns (dev : Device) (returned : gmap string value) (s s1 s2 : Sys) :
  bluetti_device (self s) = Some dev →
  poll_body dev (polling_commands dev) (pack_polling_commands dev)
    (record Acquire (record (Log Info ReadingData) s)) = (Ret returned, s1) →
  teardown s1 = (Ret tt, s2) →
  read_data None s = (Ret (Some returned), record Release s2).
Proof.
  intros Hdev Hbody Hteardown.
  rewrite (read_data_eq _ dev) by done. cbn zeta. cbn [from_option id].
  rewrite Hbody. cbn [fst snd on_poll_outcome]. by rewrite Hteardown.
Qed.

(** C6. In a poll without filter, for every pack from 1 to [pack_num_max]
    and every pack command: the packs before it are polled first, the pack
    is selected, and the commands before this one are sent; then, when the
    command is answered and the decoded [pack_num] is missing, is no [int],
    or differs from the pack, the poll goes on with the map of results as it
    was; otherwise it goes on with a map in which every decoded field is
    stored under its key followed by the pack number, every other key, the
    bare keys among them, keeping the entry it had.  The poll then sends
    the commands that are left for the pack and polls the packs that
    follow, and when it and the teardown go through, [read_data] returns
    the map so built, in which every field that was merged has its
    suffixed key. *)
Theorem pack_fields_are_suffixed
    (dev : Device) (pack : nat) (before after : list Command) (c : Command)
    (parsed_data : gmap string value) (res : bytes) (s s1 s2 : Sys) :
  bluetti_device (self s) = Some dev →
  pack_polling_commands dev = before ++ c :: after →
  (1 ≤ pack ≤ pack_num_max dev)%nat →
  poll_up_to dev (polling_commands dev) (pack_polling_commands dev) before pack
    (record Acquire (record (Log Info ReadingData) s)) = (Ret parsed_data, s1) →
  _async_send_command c s1 = (Ret res, s2) →
  let parsed := parse dev (starting_address c) (parse_response c res) in
  let pack_number := dict_get parsed "pack_num" in
  let s3 := record (Log Debug ParsedData) s2 in
  (isinstance_int pack_number = false ∨ int_of pack_number ≠ Z.of_nat pack →
     ∀ returned s4 s5,
       poll_from dev (pack_polling_commands dev) after pack parsed_data
         (record (Log Debug (PackNumMismatch pack)) s3) = (Ret returned, s4) →
       teardown s4 = (Ret tt, s5) →
       read_data None s = (Ret (Some returned), record Release s5))
  ∧ (isinstance_int pack_number = true → int_of pack_number = Z.of_nat pack →
     ∃ merged,
       (∀ key v, parsed !! key = Some v →
          merged !! (key +:+ pretty pack) = Some v)
       ∧ (∀ key, (∀ key', key = key' +:+ pretty pack → parsed !! key' = None) →
            merged !! key = parsed_data !! key)
       ∧ (∀ key, key ∈ dom parsed → key +:+ pretty pack ≠ key)
       ∧ (∀ returned s4 s5,
            poll_from dev (pack_polling_commands dev) after pack merged s3
            = (Ret returned, s4) →
            teardown s4 = (Ret tt, s5) →
            read_data None s = (Ret (Some returned), record Release s5)
            ∧ ∀ key, key ∈ dom parsed → key +:+ pretty pack ∈ dom returned)).
Proof.
  intros Hdev Hcommands Hpack Hbefore Hsend parsed pack_number s3.
  rewrite Hcommands in Hbefore |- *.
  pose proof (poll_body_around dev (polling_commands dev) before after c pack
                parsed_data _ s1 Hpack Hbefore) as Hbody.
  rewrite poll_pack_commands_eq, Hsend in Hbody. cbn zeta in Hbody.
  fold parsed s3 in Hbody. unfold pack_number_accepted in Hbody.
  fold pack_number in Hbody. cbn [poll_pack_commands] in Hbody.
  split.
  - intros Hreject returned s4 s5 Hrest Hteardown.
    apply (read_data_returns dev returned s s4 s5 Hdev); [|done].
    rewrite Hcommands, Hbody.
    destruct Hreject as [-> | Hne]; [done|].
    by rewrite (bool_decide_eq_false_2 _ Hne), andb_false_r.
  - intros Hint Heq. rewrite Hint, (bool_decide_eq_true_2 _ Heq) in Hbody.
    cbn [andb] in Hbody.
    exists (merge_pack pack parsed parsed_data). rewrite merge_pack_kmap.
    split; [|split; [|split]].
    + intros key v Hkey. apply lookup_union_Some_l.
      by rewrite (lookup_kmap (λ k, k +:+ pretty pack)).
    + intros key Hkey. apply lookup_union_r.
      apply (lookup_kmap_None (λ k, k +:+ pretty pack)). exact Hkey.
    + intros key _. apply suffixed_differs, pretty_nat_nonempty.
    + intros returned s4 s5 Hrest Hteardown. split.
      * apply (read_data_returns dev returned s s4 s5 Hdev); [|done].
        rewrite Hcommands, Hbody. by rewrite merge_pack_kmap.
      * intros key Hkey. apply (poll_from_dom _ _ _ _ _ _ _ _ Hrest).
        rewrite dom_union_L, elem_of_union. left.
        rewrite (dom_kmap_L (λ k, k +:+ pretty pack)).
        apply elem_of_map. by exists key.
Qed.

End pack_iteration.

(** A poll of the two packs of the sample device: the answer of the second
    pack carries the number 2, and its fields are in the map [read_data]
    returns, under their keys followed by 2. *)
Lemma pack_fields_are_suffixed_witness :
  ∃ returned s',
    read_data (H := Sample.modbus) None (two_packs x02) = (Ret (Some returned), s')
    ∧ "pack_voltage2"%string ∈ dom returned
    ∧ "pack_num2"%string ∈ dom returned.
Proof.
  set (s := two_packs x02).
  set (up := poll_up_to (H := Sample.modbus) Sample.device [Sample.read_battery]
               [Sample.read_pack] [] 2
               (record Acquire (record (Log Info ReadingData) s))).
  set (sent := _async_send_command (H := Sample.modbus) Sample.read_pack up.2).
  destruct (pack_fields_are_suffixed (H := Sample.modbus) Sample.device 2 [] []
              Sample.read_pack (default ∅ (match up.1 with Ret m => Some m | _ => None end))
              (pack_response x02) s up.2 sent.2)
    as [_ Hmerge];
    [reflexivity | reflexivity | vm_compute; lia | vm_compute; reflexivity
    | vm_compute; reflexivity |].
  destruct Hmerge as (merged & _ & _ & _ & Hrest); [vm_compute; reflexivity..|].
  set (rest := poll_from (H := Sample.modbus) Sample.device [Sample.read_pack] [] 2
                 merged (record (Log Debug ParsedData) sent.2)).
  destruct (Hrest merged rest.2 (teardown rest.2).2) as [Hrun Hkeys].
  - reflexivity.
  - vm_compute. reflexivity.
  - exists merged. eexists. split; [exact Hrun|]. split.
    + apply (Hkeys "pack_voltage"%string). apply elem_of_dom.
      exists (VInt 5300). vm_compute. reflexivity.
    + apply (Hkeys "pack_num"%string). apply elem_of_dom.
      exists (VInt 2). vm_compute. reflexivity.
Defined.

(** The answer of pack 1 arriving again while pack 2 is polled: the map
    [read_data] returns has the fields of pack 1 and none under a key that
    ends in 2. *)
Example stale_pack_is_discarded :
  match (read_data (H := Sample.modbus) None (two_packs x01)).1 with
  | Ret (Some returned) =>
      returned !! "pack_voltage1"%string = Some (VInt 5300)
      ∧ returned !! "pack_voltage2"%string = None
      ∧ returned !! "pack_num2"%string = None
  | _ => False
  end.
Proof. vm_compute. repeat split; reflexivity. Qed.
